(** * Multispeaker synthesis: a shallow embedding of the sampler, the
      spectrogram normalisation, the batch collation and the Tacotron
      attention/decoder loop, with the properties stated about them. *)

From Stdlib Require Import String.
From Stdlib Require Import List ZArith Lia Bool Permutation Arith.
From Stdlib Require Import QArith Qminmax Reals Qreals Psatz.
Close Scope R_scope.
Close Scope Q_scope.
Import ListNotations.

Set Implicit Arguments.

Declare Scope py_scope.
Delimit Scope py_scope with py.

(** ** Python results: a value, or a raised exception *)

Module py.

(** An exception object: the class that was raised and its message. *)
Record exception : Type := mk_exception {
  exn_class : string;
  exn_msg : string
}.

Inductive result (A : Type) : Type :=
| Return (a : A)
| Raise (e : exception).

Arguments Return {A} a.
Arguments Raise {A} e.

Definition raises {A : Type} (r : result A) (cls : string) : Prop :=
  exists msg, r = Raise (mk_exception cls msg).

Definition succeeds {A : Type} (r : result A) : Prop :=
  exists a, r = Return a.

Definition bind {A B : Type} (r : result A) (k : A -> result B) : result B :=
  match r with
  | Return a => k a
  | Raise e => Raise e
  end.

(** Run [f] on every element, left to right, stopping at the first
    exception (a list comprehension). *)
Fixpoint comprehension {A B : Type} (f : A -> result B) (l : list A)
  : result (list B) :=
  match l with
  | [] => Return []
  | a :: l' =>
      bind (f a) (fun b =>
      bind (comprehension f l') (fun bs => Return (b :: bs)))
  end.

Definition ValueError (msg : string) : exception :=
  mk_exception "ValueError"%string msg.
Definition AssertionError : exception :=
  mk_exception "AssertionError"%string EmptyString.
Definition ZeroDivisionError : exception :=
  mk_exception "ZeroDivisionError"%string
               "integer division or modulo by zero"%string.
Definition AttributeError (msg : string) : exception :=
  mk_exception "AttributeError"%string msg.
Definition RuntimeError (msg : string) : exception :=
  mk_exception "RuntimeError"%string msg.
Definition IndexError (msg : string) : exception :=
  mk_exception "IndexError"%string msg.
Definition UnboundLocalError (msg : string) : exception :=
  mk_exception "UnboundLocalError"%string msg.

(** [for v in vals: if test(v): break]: the value [v] is left with after
    the loop, or [None] when [vals] is empty and [v] was never bound. *)
Fixpoint for_break (test : Z -> bool) (vals : list Z) : option Z :=
  match vals with
  | [] => None
  | v :: rest =>
      if test v then Some v
      else match rest with
           | [] => Some v
           | _ :: _ => for_break test rest
           end
  end.

(** [range(start, stop, step)]: its length is the one CPython computes,
    its [i]-th element is [start + i * step]. *)
Definition range_len (start stop step : Z) : nat :=
  if (step >? 0)%Z then Z.to_nat ((stop - start + step - 1) / step)
  else Z.to_nat ((start - stop - step - 1) / (- step)).

Definition range (start stop step : Z) : result (list Z) :=
  if (step =? 0)%Z then Raise (ValueError "range() arg 3 must not be zero"%string)
  else Return (map (fun i => (start + Z.of_nat i * step)%Z)
                   (seq 0 (range_len start stop step))).

(** [max] of a list of integers. *)
Definition max (l : list Z) : result Z :=
  match l with
  | [] => Raise (ValueError "max() arg is an empty sequence"%string)
  | x :: l' => Return (fold_left Z.max l' x)
  end.

End py.

Notation "x <- e ;; k" := (py.bind e (fun x => k))
  (at level 61, e at next level, right associativity) : py_scope.
Notation "' p <- e ;; k" := (py.bind e (fun p => k))
  (at level 61, p pattern, e at next level, right associativity) : py_scope.

(** ** speaker_encoder/data_objects/random_cycler.py *)

Module random_cycler.

Section Cycler.

Context {A : Type}.
Variable A_eq_dec : forall x y : A, {x = y} + {x <> y}.

Record RandomCycler : Type := mk_cycler {
  all_items : list A;
  next_items : list A
}.

Definition __init__ (source : list A) : py.result RandomCycler :=
  if length source =? 0 then
    py.Raise (py.mk_exception "Exception"%string
                "RandomCycler was provided an empty collection."%string)
  else
    py.Return {| all_items := source; next_items := [] |}.

(** [random.sample(l, len(l))]: the random generator picks the positions
    of [l] in some order; [choice] is that order. *)
Definition shuffle (choice : list nat) (l : list A) : list A :=
  flat_map (fun i => match nth_error l i with
                     | Some x => [x]
                     | None => []
                     end) choice.

(** The random generator: its [k]-th use yields the order [tape k]. *)
Variable tape : nat -> list nat.

(** The [while count > 0] loop of [sample]. [k] counts the uses of the
    random generator so far. *)
Fixpoint sample_loop (fuel : nat) (self : RandomCycler) (k : nat)
         (count : Z) (out : list A) : option (list A * RandomCycler * nat) :=
  match fuel with
  | O => None
  | S fuel' =>
      if (count >? 0)%Z then
        if (count >=? Z.of_nat (length (all_items self)))%Z then
          sample_loop fuel' self (S k)
            (count - Z.of_nat (length (all_items self)))
            (out ++ shuffle (tape k) (all_items self))
        else
          let n := Z.min count (Z.of_nat (length (next_items self))) in
          let out' := out ++ firstn (Z.to_nat n) (next_items self) in
          let count' := (count - n)%Z in
          let rest := skipn (Z.to_nat n) (next_items self) in
          if length rest =? 0 then
            sample_loop fuel'
              {| all_items := all_items self;
                 next_items := shuffle (tape k) (all_items self) |}
              (S k) count' out'
          else
            sample_loop fuel'
              {| all_items := all_items self; next_items := rest |}
              k count' out'
      else Some (out, self, k)
  end.

(** Enough iterations for [count] items: an iteration hands out at
    least one item, or refills the empty buffer once before doing so. *)
Definition sample_fuel (count : Z) : nat := 2 * Z.to_nat count + 2.

Definition sample (self : RandomCycler) (k : nat) (count : Z)
  : option (list A * RandomCycler * nat) :=
  sample_loop (sample_fuel count) self k count [].

(** [__next__]: [self.sample(1)[0]]. *)
Definition __next__ (self : RandomCycler) (k : nat)
  : option (A * RandomCycler * nat) :=
  match sample self k 1 with
  | Some (x :: _, self', k') => Some (x, self', k')
  | _ => None
  end.

(** Consecutive calls of [sample], their outputs concatenated. *)
Fixpoint sample_calls (self : RandomCycler) (k : nat) (counts : list Z)
  : option (list A * RandomCycler * nat) :=
  match counts with
  | [] => Some ([], self, k)
  | c :: counts' =>
      match sample self k c with
      | None => None
      | Some (out, self', k') =>
          match sample_calls self' k' counts' with
          | None => None
          | Some (outs, self'', k'') => Some (out ++ outs, self'', k'')
          end
      end
  end.

(** Number of draws requested by a sequence of calls. *)
Definition total_draws (counts : list Z) : Z :=
  fold_right (fun c acc => Z.max 0 c + acc)%Z 0%Z counts.

(** The generator is fair when every order it yields for a pool of [n]
    items is a permutation of the positions [0 .. n-1]. *)
Definition fair_tape (n : nat) : Prop :=
  forall k, Permutation (tape k) (seq 0 n).

(** [mid] lies between two consecutive appearances of [x] in [out]. *)
Definition between_appearances (x : A) (mid out : list A) : Prop :=
  exists l1 l2, out = l1 ++ x :: mid ++ x :: l2 /\ ~ In x mid.

(** What relates the items handed out so far ([hist]) to the pending
    buffer ([next]) after [q] shuffles of [pool] were started. *)
Definition cycler_inv (pool : list A) (q : nat) (hist next : list A) : Prop :=
  (forall x, count_occ A_eq_dec hist x + count_occ A_eq_dec next x
             = q * count_occ A_eq_dec pool x) /\
  length hist + length next = q * length pool /\
  exists pre, Permutation (pre ++ next) pool.

End Cycler.

End random_cycler.

(** ** synthesizer/audio_utils.py

Floating-point samples are modelled by exact rationals: the arithmetic
below is the one the code performs, without rounding. *)

Module audio_utils.

Local Open Scope Q_scope.

Record hparams : Type := mk_hparams {
  allow_clipping_in_normalization : bool;
  symmetric_mels : bool;
  max_abs_value : Q;
  min_level_db : Q
}.

(** The values of an array, in storage order; the element-wise
    operations below keep the shape. *)
Definition ndarray : Type := list Q.

(** [np.clip(a, a_min, a_max)] is [minimum(a_max, maximum(a, a_min))]. *)
Definition np_clip (a : ndarray) (a_min a_max : Q) : ndarray :=
  map (fun x => Qmin a_max (Qmax x a_min)) a.

(** [a.max()] and [a.min()]: a zero-size array has no maximum. *)
Definition ndarray_max (a : ndarray) : py.result Q :=
  match a with
  | [] => py.Raise (py.ValueError
            "zero-size array to reduction operation maximum which has no identity"%string)
  | x :: l => py.Return (fold_left Qmax l x)
  end.

Definition ndarray_min (a : ndarray) : py.result Q :=
  match a with
  | [] => py.Raise (py.ValueError
            "zero-size array to reduction operation minimum which has no identity"%string)
  | x :: l => py.Return (fold_left Qmin l x)
  end.

Definition _normalize (S : ndarray) (hp : hparams) : py.result ndarray :=
  if allow_clipping_in_normalization hp then
    if symmetric_mels hp then
      py.Return
        (np_clip
           (map (fun s => (2 * max_abs_value hp)
                          * ((s - min_level_db hp) / (- min_level_db hp))
                          - max_abs_value hp) S)
           (- max_abs_value hp) (max_abs_value hp))
    else
      py.Return
        (np_clip
           (map (fun s => max_abs_value hp
                          * ((s - min_level_db hp) / (- min_level_db hp))) S)
           0 (max_abs_value hp))
  else
    (hi <- ndarray_max S ;;
     if negb (Qle_bool hi 0) then py.Raise py.AssertionError else
     lo <- ndarray_min S ;;
     if negb (Qle_bool 0 (lo - min_level_db hp)) then
       py.Raise py.AssertionError
     else if symmetric_mels hp then
       py.Return
         (map (fun s => (2 * max_abs_value hp)
                        * ((s - min_level_db hp) / (- min_level_db hp))
                        - max_abs_value hp) S)
     else
       py.Return
         (map (fun s => max_abs_value hp
                        * ((s - min_level_db hp) / (- min_level_db hp))) S)
    )%py.

Definition _denormalize (D : ndarray) (hp : hparams) : ndarray :=
  if allow_clipping_in_normalization hp then
    if symmetric_mels hp then
      map (fun d => ((d + max_abs_value hp) * - min_level_db hp
                     / (2 * max_abs_value hp)) + min_level_db hp)
          (np_clip D (- max_abs_value hp) (max_abs_value hp))
    else
      map (fun d => (d * - min_level_db hp / max_abs_value hp)
                    + min_level_db hp)
          (np_clip D 0 (max_abs_value hp))
  else if symmetric_mels hp then
    map (fun d => ((d + max_abs_value hp) * - min_level_db hp
                   / (2 * max_abs_value hp)) + min_level_db hp) D
  else
    map (fun d => (d * - min_level_db hp / max_abs_value hp)
                  + min_level_db hp) D.

(** Two arrays hold the same numbers. *)
Definition same_values (a b : ndarray) : Prop := Forall2 Qeq a b.

(** Every value of [S] is a decibel level in [[min_level_db, 0]]. *)
Definition in_db_range (hp : hparams) (S : ndarray) : Prop :=
  Forall (fun s => min_level_db hp <= s /\ s <= 0) S.

(** [scipy.signal.lfilter(b, a, x)] started at rest: with [xs_rev] and
    [ys_rev] the earlier inputs and outputs, latest first,
    [a[0] * y[n] = b[0] * x[n] + b[1] * x[n-1] + ...
                   - a[1] * y[n-1] - a[2] * y[n-2] - ...]. *)
Definition taps (coefficients history : list Q) : Q :=
  fold_right Qplus 0 (map (fun ch => fst ch * snd ch)
                          (combine coefficients history)).

Fixpoint lfilter_from (b : list Q) (a0 : Q) (a_rest : list Q)
         (xs_rev ys_rev : list Q) (x : ndarray) : ndarray :=
  match x with
  | [] => []
  | xn :: x' =>
      let yn := (taps b (xn :: xs_rev) - taps a_rest ys_rev) / a0 in
      yn :: lfilter_from b a0 a_rest (xn :: xs_rev) (yn :: ys_rev) x'
  end.

(** With a denominator of one coefficient the filter is computed as a
    convolution, which refuses an empty signal. *)
Definition lfilter (b a : list Q) (x : ndarray) : py.result ndarray :=
  match a with
  | [] => py.Raise (py.ValueError "a must not be empty"%string)
  | [a0] =>
      match x with
      | [] => py.Raise (py.ValueError "v cannot be empty"%string)
      | _ :: _ => py.Return (lfilter_from b a0 [] [] [] x)
      end
  | a0 :: a_rest => py.Return (lfilter_from b a0 a_rest [] [] x)
  end.

Definition preemphasis (wav : ndarray) (k : Q) (preemphasize : bool)
  : py.result ndarray :=
  if preemphasize then lfilter [1; - k] [1] wav else py.Return wav.

Definition inv_preemphasis (wav : ndarray) (k : Q) (inv_preemphasize : bool)
  : py.result ndarray :=
  if inv_preemphasize then lfilter [1] [1; - k] wav else py.Return wav.

(** An integer type of NumPy: signed or unsigned, of [bits] bits. *)
Record dtype : Type := mk_dtype {
  signed : bool;
  bits : Z
}.

Definition int64 : dtype := {| signed := true; bits := 64 |}.
Definition uint8 : dtype := {| signed := false; bits := 8 |}.

(** The value of type [dt] that an integer result wraps around to. *)
Definition wrap (dt : dtype) (v : Z) : Z :=
  let m := (2 ^ bits dt)%Z in
  if signed dt then ((v + m / 2) mod m - m / 2)%Z else (v mod m)%Z.

Definition representable (dt : dtype) (v : Z) : Prop := wrap dt v = v.

(** A sample of a quantized signal is not silent:
    [abs(quantized[i] - 127) > silence_threshold]. The samples are
    integers of type [dt]; the difference and the absolute value are
    computed in that type, as NumPy 2 does, and wrap around. *)
Definition loud (dt : dtype) (quantized : list Z) (silence_threshold : Z)
           (i : Z) : bool :=
  (wrap dt (Z.abs (wrap dt (nth (Z.to_nat i) quantized 0%Z - 127)))
   >? silence_threshold)%Z.

(** No sample makes the arithmetic of [loud] wrap around; on such
    samples the NumPy versions that compute in [int64] agree with it. *)
Definition plain_samples (dt : dtype) (quantized : list Z) : Prop :=
  Forall (fun q => representable dt q /\ representable dt (q - 127) /\
                   representable dt (Z.abs (q - 127))) quantized.

(** A loop variable that no iteration bound is unbound at the assertion
    that reads it. *)
Definition start_and_end_indices (dt : dtype) (quantized : list Z)
           (silence_threshold : Z)
  : py.result (Z * Z) :=
  (let size := Z.of_nat (length quantized) in
   starts <- py.range 0 size 1 ;;
   ends <- py.range (size - 1) 1 (-1) ;;
   let start := py.for_break (loud dt quantized silence_threshold) starts in
   let end_ := py.for_break (loud dt quantized silence_threshold) ends in
   match start with
   | None =>
       py.Raise (py.UnboundLocalError
                   "local variable 'start' referenced before assignment"%string)
   | Some start =>
       if negb (loud dt quantized silence_threshold start) then
         py.Raise py.AssertionError
       else
         match end_ with
         | None =>
             py.Raise (py.UnboundLocalError
                         "local variable 'end' referenced before assignment"%string)
         | Some end_ =>
             if negb (loud dt quantized silence_threshold end_) then
               py.Raise py.AssertionError
             else py.Return (start, end_)
         end
   end)%py.

(** Integer frame arithmetic; [//] and [%] by zero raise. *)
Definition num_frames (length fsize fshift : Z) : py.result Z :=
  let pad := (fsize - fshift)%Z in
  if (fshift =? 0)%Z then py.Raise py.ZeroDivisionError
  else if (length mod fshift =? 0)%Z then
    py.Return ((length + pad * 2 - fsize) / fshift + 1)%Z
  else
    py.Return ((length + pad * 2 - fsize) / fshift + 2)%Z.

Definition pad_lr (x : ndarray) (fsize fshift : Z) : py.result (Z * Z) :=
  (M <- num_frames (Z.of_nat (length x)) fsize fshift ;;
   let pad := (fsize - fshift)%Z in
   let T := (Z.of_nat (length x) + 2 * pad)%Z in
   let r := ((M - 1) * fshift + fsize - T)%Z in
   py.Return (pad, (pad + r)%Z))%py.

Definition librosa_pad_lr (x : ndarray) (fsize fshift : Z)
  : py.result (Z * Z) :=
  if (fshift =? 0)%Z then py.Raise py.ZeroDivisionError
  else py.Return (0%Z,
                  ((Z.of_nat (length x) / fshift + 1) * fshift
                   - Z.of_nat (length x))%Z).

End audio_utils.

(** The decibel conversions of audio_utils.py, on real numbers. *)
Module audio_db.

Local Open Scope R_scope.

Definition log10 (x : R) : R := ln x / ln 10.

(** [np.exp(hparams.min_level_db / 20 * np.log(10))] *)
Definition min_level (hp : audio_utils.hparams) : R :=
  exp (Q2R (audio_utils.min_level_db hp) / 20 * ln 10).

Definition _amp_to_db (x : list R) (hp : audio_utils.hparams) : list R :=
  map (fun v => 20 * log10 (Rmax (min_level hp) v)) x.

(** [np.power(10.0, x * 0.05)] *)
Definition _db_to_amp (x : list R) : list R :=
  map (fun v => Rpower 10 (v * 0.05)) x.

End audio_db.

(** ** synthesizer/synthesizer_dataset.py *)

Module synthesizer_dataset.

Import audio_utils.

(** A 2-D array, one list per mel channel, one number per frame. *)
Definition array2 : Type := list (list Q).

(** [x.shape[-1]] of a 2-D array with at least one row. *)
Definition shape_last (x : array2) : nat :=
  match x with
  | [] => 0
  | row :: _ => length row
  end.

Definition rectangular (x : array2) : Prop :=
  Forall (fun row => length row = shape_last x) x.

(** One element of a batch: what [SynthesizerDataset.__getitem__]
    returns, [(text, mel, embed, index)]. *)
Definition item : Type := (list Z * array2 * list Q * Z)%type.

Definition item_text (x : item) : list Z := fst (fst (fst x)).
Definition item_mel (x : item) : array2 := snd (fst (fst x)).
Definition item_embed (x : item) : list Q := snd (fst x).
Definition item_index (x : item) : Z := snd x.

(** The values of [np.int32], the type [__getitem__] gives the texts. *)
Definition int32 (v : Z) : Prop := (- 2 ^ 31 <= v < 2 ^ 31)%Z.

(** [np.pad] refuses a negative pad width. [x] is an [int32] array and
    [pad_value] a value of its type; a pad value outside the type is cast
    by NumPy and is not modelled. *)
Definition pad1d (x : list Z) (max_len : Z) (pad_value : Z)
  : py.result (list Z) :=
  let width := (max_len - Z.of_nat (length x))%Z in
  if (width <? 0)%Z then
    py.Raise (py.ValueError "index can't contain negative values"%string)
  else py.Return (x ++ repeat pad_value (Z.to_nat width)).

Definition pad2d (x : array2) (max_len : Z) (pad_value : Q)
  : py.result array2 :=
  let width := (max_len - Z.of_nat (shape_last x))%Z in
  if (width <? 0)%Z then
    py.Raise (py.ValueError "index can't contain negative values"%string)
  else py.Return (map (fun row => row ++ repeat pad_value (Z.to_nat width)) x).

(** [np.stack]: the arrays must all have one shape. *)
Definition np_stack {T : Type} (same_shape : T -> T -> bool) (arrays : list T)
  : py.result (list T) :=
  match arrays with
  | [] => py.Raise (py.ValueError "need at least one array to stack"%string)
  | a :: rest =>
      if forallb (same_shape a) rest then py.Return arrays
      else py.Raise (py.ValueError
                       "all input arrays must have the same shape"%string)
  end.

Definition same_shape1 (a b : list Z) : bool := length a =? length b.

(** [np.array] of a list of 1-D arrays: arrays of different lengths do
    not make a 2-D array. *)
Definition np_array (arrays : list (list Q)) : py.result (list (list Q)) :=
  match arrays with
  | [] => py.Return []
  | a :: rest =>
      if forallb (fun c => length a =? length c) rest then py.Return arrays
      else py.Raise (py.ValueError
                       "setting an array element with a sequence"%string)
  end.

Definition same_shape2 (a b : array2) : bool :=
  (length a =? length b) && (shape_last a =? shape_last b).

Definition collate_synthesizer (batch : list item) (r : Z) (hp : hparams)
  : py.result (list (list Z) * list array2 * list (list Q) * list Z) :=
  (let x_lens := map (fun x => Z.of_nat (length (item_text x))) batch in
   max_x_len <- py.max x_lens ;;
   chars <- py.comprehension (fun x => pad1d (item_text x) max_x_len 0) batch ;;
   chars <- np_stack same_shape1 chars ;;
   let spec_lens := map (fun x => Z.of_nat (shape_last (item_mel x))) batch in
   longest <- py.max spec_lens ;;
   let max_spec_len := (longest + 1)%Z in
   max_spec_len <-
     (if (r =? 0)%Z then py.Raise py.ZeroDivisionError
      else if negb (max_spec_len mod r =? 0)%Z
           then py.Return (max_spec_len + (r - max_spec_len mod r))%Z
           else py.Return max_spec_len) ;;
   let mel_pad_value :=
     if symmetric_mels hp then (-1 * max_abs_value hp)%Q else 0%Q in
   mel <- py.comprehension
            (fun x => pad2d (item_mel x) max_spec_len mel_pad_value) batch ;;
   mel <- np_stack same_shape2 mel ;;
   embeds <- np_array (map item_embed batch) ;;
   let indices := map item_index batch in
   py.Return (chars, mel, embeds, indices))%py.

(** The arrays of a stacked tensor all have [n] frames. *)
Definition time_length (mel : list array2) (n : Z) : Prop :=
  Forall (fun m => Forall (fun row => Z.of_nat (length row) = n) m) mel.

(** Every spectrogram of the batch has [n_mels] channels of one length. *)
Definition well_formed_batch (n_mels : nat) (batch : list item) : Prop :=
  Forall (fun x => length (item_mel x) = n_mels /\ rectangular (item_mel x))
         batch.

(** A batch of items as [SynthesizerDataset.__getitem__] returns them:
    texts of [int32] values, spectrograms of [n_mels >= 1] channels of
    one length each, and speaker embeddings of one size. *)
Definition dataset_batch (n_mels embed_size : nat) (batch : list item)
  : Prop :=
  (1 <= n_mels)%nat /\
  well_formed_batch n_mels batch /\
  Forall (fun x => Forall int32 (item_text x) /\
                   length (item_embed x) = embed_size) batch.

End synthesizer_dataset.

(** ** Tensors as nested lists

    Element-wise operations pair the elements of their arguments. Where
    PyTorch refuses or broadcasts tensors of different shapes they stop
    at the shorter one: they are the operations of PyTorch on tensors
    whose shapes fit. What is stated of a call that returns is stated
    for modules and arguments whose shapes fit, by the predicates
    [built] and [fits] of the modules below. *)

Module tensor.

Local Open Scope R_scope.

Definition vec : Type := list R.
Definition tensor2 : Type := list vec.
Definition tensor3 : Type := list tensor2.

Definition map2 {A B C : Type} (f : A -> B -> C) (l1 : list A) (l2 : list B)
  : list C :=
  map (fun ab => f (fst ab) (snd ab)) (combine l1 l2).

Definition map3 {A B C D : Type} (f : A -> B -> C -> D)
           (l1 : list A) (l2 : list B) (l3 : list C) : list D :=
  map2 (fun ab c => f (fst ab) (snd ab) c) (combine l1 l2) l3.

(** [map] with the position of each element. *)
Definition imap {A B : Type} (f : nat -> A -> B) (l : list A) : list B :=
  map2 f (seq 0 (length l)) l.

Definition zeros (n : nat) : vec := repeat 0 n.
Definition zeros2 (b n : nat) : tensor2 := repeat (zeros n) b.

Definition sum (v : vec) : R := fold_right Rplus 0 v.
Definition dot (v w : vec) : R := sum (map2 Rmult v w).

Definition vadd (v w : vec) : vec := map2 Rplus v w.
Definition add2 (a b : tensor2) : tensor2 := map2 vadd a b.
Definition mul2 (a b : tensor2) : tensor2 := map2 (map2 Rmult) a b.

(** [torch.cat((a, b), dim=-1)] on two (batch, features) tensors. *)
Definition cat (a b : tensor2) : tensor2 := map2 (@app R) a b.

(** [a @ m] for one batch element: every row of [a] weighs the rows of [m]. *)
Definition weighted_sum (w : vec) (m : tensor2) : vec :=
  match map2 (fun wk mk => map (Rmult wk) mk) w m with
  | [] => []
  | v :: vs => fold_left vadd vs v
  end.

Definition matmul (a m : tensor2) : tensor2 :=
  map (fun row => weighted_sum row m) a.

Definition softmax (u : vec) : vec :=
  map (fun x => exp x / sum (map exp u)) u.

Definition sigmoid (x : R) : R := 1 / (1 + exp (- x)).

Definition gtb (a b : R) : bool := if Rgt_dec a b then true else false.

(** Cut [l] into [n] consecutive pieces of [k] elements. *)
Fixpoint chunks {A : Type} (n k : nat) (l : list A) : list (list A) :=
  match n with
  | O => []
  | S n' => firstn k l :: chunks n' k (skipn k l)
  end.

(** [m.view(b, n, k)] of a 2-D tensor: the elements are re-read in
    storage order; their number must be [b * n * k]. *)
Definition view3 (m : tensor2) (b n k : nat) : py.result tensor3 :=
  let flat := concat m in
  if length flat =? b * n * k then
    py.Return (map (chunks n k) (chunks b (n * k) flat))
  else
    py.Raise (py.RuntimeError "shape is invalid for input size"%string).

(** [l[:r]] *)
Definition slice_to {A : Type} (r : Z) (l : list A) : list A :=
  if (r >=? 0)%Z then firstn (Z.to_nat r) l
  else firstn (length l - Z.to_nat (- r)) l.

(** [l[-1]] *)
Definition last_item {A : Type} (l : list A) : py.result A :=
  match rev l with
  | [] => py.Raise (py.IndexError "index -1 is out of bounds"%string)
  | a :: _ => py.Return a
  end.

Definition shape3 (x : tensor3) (b n k : nat) : Prop :=
  length x = b /\
  Forall (fun m => length m = n /\ Forall (fun row => length row = k) m) x.

Definition shape2 (m : tensor2) (b n : nat) : Prop :=
  length m = b /\ Forall (fun row => length row = n) m.

(** [m[i][j]] *)
Definition entry (m : tensor2) (i j : nat) : R := nth j (nth i m []) 0.

End tensor.

(** ** synthesizer/models/tacotron.py

Floating-point numbers are modelled by real numbers. The layers of
the PyTorch library whose arithmetic plays no part here (recurrent
cells, convolutions, the encoder and the post-network) are fields of
the module that owns them, as functions on one batch element. *)

Module tacotron.

Import tensor.
Local Open Scope R_scope.

(** The random numbers one decoder call draws: the two dropout masks of
    the pre-network and the two zoneout masks, by row and column. *)
Record noise : Type := mk_noise {
  drop1 : nat -> nat -> R;
  drop2 : nat -> nat -> R;
  zone1 : nat -> nat -> R;
  zone2 : nat -> nat -> R
}.

(** [nn.Linear]: [weight] has one row per output feature. *)
Module Linear.

Record instance : Type := mk {
  weight : tensor2;
  bias : option vec
}.

Definition forward (self : instance) (x : vec) : vec :=
  match bias self with
  | None => map (fun w => dot w x) (weight self)
  | Some b => map2 (fun w bi => dot w x + bi) (weight self) b
  end.

(** The layer is [nn.Linear(in_features, out_features)], with or
    without bias; it accepts inputs of [in_features] values. *)
Definition built (self : instance) (in_features out_features : nat) : Prop :=
  shape2 (weight self) out_features in_features /\
  match bias self with
  | None => True
  | Some b => length b = out_features
  end.

End Linear.

Definition relu (x : R) : R := Rmax 0 x.

(** [F.dropout(x, p, training=True)] with the mask that was drawn. *)
Definition dropout (mask : nat -> nat -> R) (p : R) (x : tensor2) : tensor2 :=
  imap (fun i row => imap (fun j v => v * mask i j / (1 - p)) row) x.

Module PreNet.

Record instance : Type := mk {
  fc1 : Linear.instance;
  fc2 : Linear.instance;
  p : R
}.

Definition forward (self : instance) (rng : noise) (x : tensor2) : tensor2 :=
  let x := map (Linear.forward (fc1 self)) x in
  let x := map (map relu) x in
  let x := dropout (drop1 rng) (p self) x in
  let x := map (Linear.forward (fc2 self)) x in
  let x := map (map relu) x in
  let x := dropout (drop2 rng) (p self) x in
  x.

End PreNet.

Module LSA.

(** [energy enc_proj query location] is
    [v(tanh(W(query) + enc_proj + L(conv(location))))] for one batch
    element: one number per encoder position. [cumulative] and
    [attention] are [None] until the first call. *)
Record instance : Type := mk {
  energy : tensor2 -> vec -> vec -> vec;
  cumulative : option tensor2;
  attention : option tensor2
}.

Definition init_attention (self : instance) (encoder_seq_proj : tensor3)
  : instance :=
  let b := length encoder_seq_proj in
  let t := match encoder_seq_proj with
           | [] => O
           | m :: _ => length m
           end in
  {| energy := energy self;
     cumulative := Some (zeros2 b t);
     attention := Some (zeros2 b t) |}.

(** [(chars != 0).float()] *)
Definition valid_mask (chars : list (list Z)) : tensor2 :=
  map (map (fun c => if (c =? 0)%Z then 0 else 1)) chars.

Definition forward (self : instance) (encoder_seq_proj : tensor3)
           (query : tensor2) (t : Z) (chars : list (list Z))
  : py.result (tensor3 * instance) :=
  let self := if (t =? 0)%Z then init_attention self encoder_seq_proj
              else self in
  match cumulative self with
  | None =>
      py.Raise (py.AttributeError
                  "'NoneType' object has no attribute 'unsqueeze'"%string)
  | Some location =>
      let u := map3 (energy self) encoder_seq_proj query location in
      let u := mul2 u (valid_mask chars) in
      let scores := map softmax u in
      let self := {| energy := energy self;
                     cumulative := Some (add2 location scores);
                     attention := Some scores |} in
      py.Return (map (fun row => [row]) scores, self)
  end.

(** The weights of a returned score tensor, (batch, 1, time), as
    (batch, time). *)
Definition weights (scores : tensor3) : tensor2 := map (@concat R) scores.

(** Consecutive calls of [forward] on one module, each with its query
    and step index, as a decoder loop makes them; the weights of every
    call are collected. *)
Fixpoint forward_steps (self : instance) (encoder_seq_proj : tensor3)
         (chars : list (list Z)) (calls : list (tensor2 * Z))
  : py.result (list tensor2 * instance) :=
  match calls with
  | [] => py.Return ([], self)
  | (query, t) :: calls' =>
      ('(scores, self) <- forward self encoder_seq_proj query t chars ;;
       '(ws, self) <- forward_steps self encoder_seq_proj chars calls' ;;
       py.Return (weights scores :: ws, self))%py
  end.

(** The shape [init_attention] gives the accumulators. *)
Definition zero_state (encoder_seq_proj : tensor3) : tensor2 :=
  zeros2 (length encoder_seq_proj)
         (match encoder_seq_proj with
          | [] => O
          | m :: _ => length m
          end).

(** Position [j] of batch element [i] holds the padding character 0. *)
Definition is_padding (chars : list (list Z)) (i j : nat) : Prop :=
  exists row, nth_error chars i = Some row /\ nth_error row j = Some 0%Z.

(** The weight a score tensor gives position [j] of batch element [i]. *)
Definition weight_at (scores : tensor3) (i j : nat) (w : R) : Prop :=
  exists row, nth_error (weights scores) i = Some row /\
              nth_error row j = Some w.

(** The learned layers are those of [LSA(attn_dim)]: on an encoder
    projection and a query of width [attn_dim] and a location history of
    one number per position they give one energy per position. *)
Definition built (self : instance) (attn_dim : nat) : Prop :=
  forall (enc_proj : tensor2) (query location : vec),
    Forall (fun row => length row = attn_dim) enc_proj ->
    length query = attn_dim ->
    length location = length enc_proj ->
    length (energy self enc_proj query location) = length enc_proj.

(** The arguments of a call fit the module and each other: [b] batch
    elements of [T] positions, projections of width [attn_dim] and,
    unless the call starts a sequence, an accumulator of shape
    [(b, T)]. *)
Definition fits (self : instance) (b T attn_dim : nat)
           (encoder_seq_proj : tensor3) (t : Z) (chars : list (list Z))
  : Prop :=
  shape3 encoder_seq_proj b T attn_dim /\
  length chars = b /\ Forall (fun row => length row = T) chars /\
  (t = 0%Z \/ exists c, cumulative self = Some c /\ shape2 c b T).

End LSA.

Module Decoder.

Definition max_r : nat := 20.

Record instance : Type := mk {
  r : Z;
  n_mels : nat;
  training : bool;
  prenet : PreNet.instance;
  attn_net : LSA.instance;
  attn_rnn : vec -> vec -> vec;
  rnn_input : Linear.instance;
  res_rnn1 : vec -> vec * vec -> vec * vec;
  res_rnn2 : vec -> vec * vec -> vec * vec;
  mel_proj : Linear.instance;
  stop_proj : Linear.instance
}.

Definition set_attn_net (self : instance) (a : LSA.instance) : instance :=
  {| r := r self; n_mels := n_mels self; training := training self;
     prenet := prenet self; attn_net := a; attn_rnn := attn_rnn self;
     rnn_input := rnn_input self; res_rnn1 := res_rnn1 self;
     res_rnn2 := res_rnn2 self; mel_proj := mel_proj self;
     stop_proj := stop_proj self |}.

Definition set_training (self : instance) (b : bool) : instance :=
  {| r := r self; n_mels := n_mels self; training := b;
     prenet := prenet self; attn_net := attn_net self;
     attn_rnn := attn_rnn self;
     rnn_input := rnn_input self; res_rnn1 := res_rnn1 self;
     res_rnn2 := res_rnn2 self; mel_proj := mel_proj self;
     stop_proj := stop_proj self |}.

(** [prev * mask + current * (1 - mask)], [mask] drawn per element. *)
Definition zoneout (mask : nat -> nat -> R) (prev current : tensor2)
  : tensor2 :=
  imap (fun i pc =>
          imap (fun j v => fst v * mask i j + snd v * (1 - mask i j))
               (combine (fst pc) (snd pc)))
       (combine prev current).

Definition states : Type := (tensor2 * tensor2 * tensor2)%type.
Definition cells : Type := (tensor2 * tensor2)%type.

Definition outputs : Type :=
  (tensor3 * tensor3 * states * cells * tensor2 * tensor2)%type.

Definition forward (self : instance) (rng : noise)
           (encoder_seq encoder_seq_proj : tensor3) (prenet_in : tensor2)
           (hidden_states : states) (cell_states : cells)
           (context_vec : tensor2) (t : Z) (chars : list (list Z))
  : py.result (outputs * instance) :=
  (let batch_size := length encoder_seq in
   let '(attn_hidden, rnn1_hidden, rnn2_hidden) := hidden_states in
   let '(rnn1_cell, rnn2_cell) := cell_states in
   let prenet_out := PreNet.forward (prenet self) rng prenet_in in
   let attn_rnn_in := cat context_vec prenet_out in
   let attn_hidden := map2 (attn_rnn self) attn_rnn_in attn_hidden in
   '(scores, attn_net') <-
      LSA.forward (attn_net self) encoder_seq_proj attn_hidden t chars ;;
   let context_vec := map2 matmul scores encoder_seq in
   let context_vec := map (@concat R) context_vec in
   let x := cat context_vec attn_hidden in
   let x := map (Linear.forward (rnn_input self)) x in
   let hc1 := map3 (fun xi h c => res_rnn1 self xi (h, c))
                   x rnn1_hidden rnn1_cell in
   let rnn1_hidden_next := map fst hc1 in
   let rnn1_cell := map snd hc1 in
   let rnn1_hidden :=
     if training self then zoneout (zone1 rng) rnn1_hidden rnn1_hidden_next
     else rnn1_hidden_next in
   let x := add2 x rnn1_hidden in
   let hc2 := map3 (fun xi h c => res_rnn2 self xi (h, c))
                   x rnn2_hidden rnn2_cell in
   let rnn2_hidden_next := map fst hc2 in
   let rnn2_cell := map snd hc2 in
   let rnn2_hidden :=
     if training self then zoneout (zone2 rng) rnn2_hidden rnn2_hidden_next
     else rnn2_hidden_next in
   let x := add2 x rnn2_hidden in
   let mels := map (Linear.forward (mel_proj self)) x in
   mels <- view3 mels batch_size (n_mels self) max_r ;;
   let mels := map (map (slice_to (r self))) mels in
   let hidden_states := (attn_hidden, rnn1_hidden, rnn2_hidden) in
   let cell_states := (rnn1_cell, rnn2_cell) in
   let s := cat x context_vec in
   let s := map (Linear.forward (stop_proj self)) s in
   let stop_tokens := map (map sigmoid) s in
   py.Return ((mels, scores, hidden_states, cell_states, context_vec,
               stop_tokens),
              set_attn_net self attn_net'))%py.

(** The tensors of one call all hold [b] batch elements. *)
Definition batch_of (b : nat) (encoder_seq encoder_seq_proj : tensor3)
           (prenet_in : tensor2) (hidden_states : states)
           (cell_states : cells) (context_vec : tensor2)
           (chars : list (list Z)) : Prop :=
  length encoder_seq = b /\ length encoder_seq_proj = b /\
  length prenet_in = b /\
  length (fst (fst hidden_states)) = b /\
  length (snd (fst hidden_states)) = b /\
  length (snd hidden_states) = b /\
  length (fst cell_states) = b /\ length (snd cell_states) = b /\
  length context_vec = b /\ length chars = b.

(** [mel_proj] as [__init__] builds it:
    [nn.Linear(lstm_dims, n_mels * max_r, bias=False)]. *)
Definition mel_proj_built (self : instance) : Prop :=
  Linear.bias (mel_proj self) = None /\
  length (Linear.weight (mel_proj self)) = (n_mels self * max_r)%nat.

(** The attention state fits a call at step [t]: a first step, or an
    accumulator left by an earlier step over [b] batch elements. *)
Definition attention_fits (self : instance) (b : nat) (t : Z) : Prop :=
  t = 0%Z \/
  exists c, LSA.cumulative (attn_net self) = Some c /\ length c = b.

(** The layers are those [__init__] builds for encoder outputs of width
    [E] (speaker embedding included), [decoder_dims = D] and
    [lstm_dims = L], all dimensions positive, with a dropout probability
    below 1; the recurrent cells keep the widths of their states. *)
Definition built (self : instance) (E D L : nat) : Prop :=
  ((1 <= n_mels self)%nat /\ (1 <= E)%nat /\ (1 <= D)%nat /\ (1 <= L)%nat) /\
  0 <= PreNet.p (prenet self) < 1 /\
  (exists P1 P : nat,
      ((1 <= P1)%nat /\ (1 <= P)%nat) /\
      Linear.built (PreNet.fc1 (prenet self)) (n_mels self) P1 /\
      Linear.built (PreNet.fc2 (prenet self)) P1 P /\
      forall x h, length x = (E + P)%nat -> length h = D ->
                  length (attn_rnn self x h) = D) /\
  LSA.built (attn_net self) D /\
  Linear.built (rnn_input self) (E + D) L /\
  (forall x h c, length x = L -> length h = L -> length c = L ->
                 length (fst (res_rnn1 self x (h, c))) = L /\
                 length (snd (res_rnn1 self x (h, c))) = L) /\
  (forall x h c, length x = L -> length h = L -> length c = L ->
                 length (fst (res_rnn2 self x (h, c))) = L /\
                 length (snd (res_rnn2 self x (h, c))) = L) /\
  Linear.built (mel_proj self) L (n_mels self * max_r) /\
  Linear.bias (mel_proj self) = None /\
  Linear.built (stop_proj self) (L + E) 1.

(** The arguments of a call are well-formed: [b >= 1] batch elements, an
    encoder output of [T >= 1] positions of width [E] with its
    projection of width [D], a frame of [n_mels] values, states and a
    context vector of the widths the layers take, one character per
    position, and an attention state that fits step [t]. *)
Definition fits (self : instance) (b T E D L : nat)
           (encoder_seq encoder_seq_proj : tensor3) (prenet_in : tensor2)
           (hidden_states : states) (cell_states : cells)
           (context_vec : tensor2) (t : Z) (chars : list (list Z)) : Prop :=
  (1 <= b)%nat /\ (1 <= T)%nat /\
  shape3 encoder_seq b T E /\
  LSA.fits (attn_net self) b T D encoder_seq_proj t chars /\
  shape2 prenet_in b (n_mels self) /\
  shape2 (fst (fst hidden_states)) b D /\
  shape2 (snd (fst hidden_states)) b L /\
  shape2 (snd hidden_states) b L /\
  shape2 (fst cell_states) b L /\ shape2 (snd cell_states) b L /\
  shape2 context_vec b E.

End Decoder.

(** [torch.cat(tensors, dim)]: an empty list is refused. *)
Definition torch_cat {T : Type} (join : T -> T -> T) (tensors : list T)
  : py.result T :=
  match tensors with
  | [] => py.Raise (py.ValueError
                      "torch.cat(): expected a non-empty list of Tensors"%string)
  | a :: rest => py.Return (fold_left join rest a)
  end.

Definition cat_dim1 (a b : tensor3) : tensor3 := map2 (@app vec) a b.
Definition cat_dim2 (a b : tensor3) : tensor3 := map2 (map2 (@app R)) a b.

Fixpoint transpose (m : tensor2) : tensor2 :=
  match m with
  | [] => []
  | [row] => map (fun v => [v]) row
  | row :: rest => map2 cons row (transpose rest)
  end.

(** [HighwayNetwork]: two square linear layers; [forward] is given for
    one vector, a batch applies it to each of its vectors. *)
Module HighwayNetwork.

Record instance : Type := mk {
  W1 : Linear.instance;
  W2 : Linear.instance
}.

Definition forward (self : instance) (x : vec) : vec :=
  let x1 := Linear.forward (W1 self) x in
  let x2 := Linear.forward (W2 self) x in
  let g := map sigmoid x2 in
  map3 (fun gi x1i xi => gi * relu x1i + (1 - gi) * xi) g x1 x.

End HighwayNetwork.

Module Encoder.

(** A speaker embedding is a 1-D tensor at inference and a 2-D tensor,
    one row per batch element, in training. *)
Inductive embedding : Type :=
| dim1 (e : vec)
| dim2 (e : tensor2).

(** [e.repeat_interleave(n, dim=idx)] along the last axis of [e]. *)
Definition repeat_interleave (n : nat) (e : vec) : vec :=
  flat_map (fun v => repeat v n) e.

(** [e.transpose(1, 2)] of a tensor whose last axis has length [n]. *)
Definition transpose12 (n : nat) (e : tensor3) : tensor3 :=
  map (fun m => map (fun j => map (fun row => nth j row 0) m) (seq 0 n)) e.

Definition add_speaker_embedding (x : tensor3) (speaker_embedding : embedding)
  : py.result tensor3 :=
  (let batch_size := length x in
   let num_chars := match x with
                    | [] => O
                    | m :: _ => length m
                    end in
   let speaker_embedding_size :=
     match speaker_embedding with
     | dim1 e => length e
     | dim2 [] => O
     | dim2 (row :: _) => length row
     end in
   let e := match speaker_embedding with
            | dim1 e => [repeat_interleave num_chars e]
            | dim2 e => map (repeat_interleave num_chars) e
            end in
   e <- view3 e batch_size speaker_embedding_size num_chars ;;
   let e := transpose12 num_chars e in
   py.Return (cat_dim2 x e))%py.

End Encoder.

Module Tacotron.

(** [encoder] is [Encoder.forward], [postnet] is [CBHG.forward]. *)
Record instance : Type := mk {
  n_mels : nat;
  lstm_dims : nat;
  encoder_dims : nat;
  decoder_dims : nat;
  speaker_embedding_size : nat;
  encoder : list (list Z) -> option tensor2 -> tensor3;
  encoder_proj : Linear.instance;
  decoder : Decoder.instance;
  postnet : tensor3 -> tensor3;
  post_proj : Linear.instance;
  step : Z;
  stop_threshold : R
}.

Definition r (self : instance) : Z := Decoder.r (decoder self).

(** [mel_outputs[-1][:, :, -1]] *)
Definition last_frame (mel_outputs : list tensor3) : py.result tensor2 :=
  (group <- last_item mel_outputs ;;
   py.comprehension (py.comprehension (@last_item R)) group)%py.

Definition all_exceed (stop_tokens : tensor2) (threshold : R) : bool :=
  forallb (forallb (fun s => gtb s threshold)) stop_tokens.

(** The test that breaks the loop:
    [(stop_tokens > 0.5).all() and t > 10]. *)
Definition stop_condition (stop_tokens : tensor2) (t : Z) : bool :=
  all_exceed stop_tokens 0.5 && (t >? 10)%Z.

(** The decoder loop of [generate], over the values [ts] that remain
    of [range(0, steps, self.r)]. *)
Fixpoint generate_loop (rng : Z -> noise)
         (encoder_seq encoder_seq_proj : tensor3) (go_frame : tensor2)
         (x : list (list Z)) (ts : list Z) (dec : Decoder.instance)
         (hidden_states : Decoder.states) (cell_states : Decoder.cells)
         (context_vec : tensor2)
         (mel_outputs attn_scores : list tensor3)
         (stop_outputs : list tensor2)
  : py.result (list tensor3 * list tensor3 * list tensor2
               * Decoder.instance) :=
  match ts with
  | [] => py.Return (mel_outputs, attn_scores, stop_outputs, dec)
  | t :: ts' =>
      (prenet_in <- (if (t >? 0)%Z then last_frame mel_outputs
                     else py.Return go_frame) ;;
       '(mel_frames, scores, hidden_states, cell_states, context_vec,
         stop_tokens, dec) <-
          Decoder.forward dec (rng t) encoder_seq encoder_seq_proj
                          prenet_in hidden_states cell_states
                          context_vec t x ;;
       let mel_outputs := mel_outputs ++ [mel_frames] in
       let attn_scores := attn_scores ++ [scores] in
       let stop_outputs :=
         stop_outputs ++ repeat stop_tokens (Z.to_nat (Decoder.r dec)) in
       if stop_condition stop_tokens t then
         py.Return (mel_outputs, attn_scores, stop_outputs, dec)
       else
         generate_loop rng encoder_seq encoder_seq_proj go_frame x ts'
                       dec hidden_states cell_states context_vec
                       mel_outputs attn_scores stop_outputs)%py
  end.

(** [generate] up to the end of its decoder loop: the frame groups,
    attention scores and stop probabilities of the steps it ran. *)
Definition decode (self : instance) (rng : Z -> noise)
           (x : list (list Z)) (speaker_embedding : option tensor2)
           (steps : Z)
  : py.result (list tensor3 * list tensor3 * list tensor2
               * Decoder.instance) :=
  (let dec := Decoder.set_training (decoder self) false in
   let batch_size := length x in
   let attn_hidden := zeros2 batch_size (decoder_dims self) in
   let rnn1_hidden := zeros2 batch_size (lstm_dims self) in
   let rnn2_hidden := zeros2 batch_size (lstm_dims self) in
   let hidden_states := (attn_hidden, rnn1_hidden, rnn2_hidden) in
   let rnn1_cell := zeros2 batch_size (lstm_dims self) in
   let rnn2_cell := zeros2 batch_size (lstm_dims self) in
   let cell_states := (rnn1_cell, rnn2_cell) in
   let go_frame := zeros2 batch_size (n_mels self) in
   let context_vec :=
     zeros2 batch_size (encoder_dims self + speaker_embedding_size self) in
   let encoder_seq := encoder self x speaker_embedding in
   let encoder_seq_proj :=
     map (map (Linear.forward (encoder_proj self))) encoder_seq in
   ts <- py.range 0 steps (Decoder.r dec) ;;
   generate_loop rng encoder_seq encoder_seq_proj go_frame x ts dec
                 hidden_states cell_states context_vec [] [] [])%py.

Definition generate (self : instance) (rng : Z -> noise)
           (x : list (list Z)) (speaker_embedding : option tensor2)
           (steps : Z)
  : py.result (tensor3 * tensor3 * tensor3) :=
  ('(mel_outputs, attn_scores, stop_outputs, _) <-
      decode self rng x speaker_embedding steps ;;
   mel_outputs <- torch_cat cat_dim2 mel_outputs ;;
   let postnet_out := postnet self mel_outputs in
   let linear := map (map (Linear.forward (post_proj self))) postnet_out in
   let linear := map transpose linear in
   attn_scores <- torch_cat cat_dim1 attn_scores ;;
   stop_outputs <- torch_cat cat stop_outputs ;;
   py.Return (mel_outputs, linear, attn_scores))%py.

(** The decoder loop has run at least one step on [b] batch elements:
    the attention accumulator exists and the last frame group has the
    shape of a decoder output. *)
Definition loop_started (b : nat) (dec : Decoder.instance)
           (mel_outputs : list tensor3) : Prop :=
  (exists c, LSA.cumulative (Decoder.attn_net dec) = Some c /\ length c = b) /\
  exists earlier last,
    mel_outputs = earlier ++ [last] /\
    shape3 last b (Decoder.n_mels dec)
           (Nat.min (Z.to_nat (Decoder.r dec)) Decoder.max_r).

(** The recurrent state of a decode call holds [b] batch elements. *)
Definition state_of (b : nat) (hidden_states : Decoder.states)
           (cell_states : Decoder.cells) (context_vec : tensor2) : Prop :=
  length (fst (fst hidden_states)) = b /\
  length (snd (fst hidden_states)) = b /\
  length (snd hidden_states) = b /\
  length (fst cell_states) = b /\ length (snd cell_states) = b /\
  length context_vec = b.

(** What stays the same in the decoder from step to step. *)
Definition same_decoder (r0 : Z) (sp : Linear.instance) (n : nat)
           (dec : Decoder.instance) : Prop :=
  Decoder.r dec = r0 /\ Decoder.stop_proj dec = sp /\
  Decoder.n_mels dec = n /\ Decoder.mel_proj_built dec.

(** The stop probabilities the stop projection [sp] gives for some
    batch of decoder states. *)
Definition stop_tokens_of (sp : Linear.instance) (stop_tokens : tensor2) : Prop :=
  exists S, stop_tokens
            = map (fun s => map sigmoid (Linear.forward sp s)) S.

(** The steps a loop over [ts] performed, each with its stop
    probabilities [toks], read as a run of the loop: no step before the
    last one met the stop condition, and if values of [ts] were left
    over, the last step met it. *)
Definition stopped_at_first (ts : list Z) (toks : list tensor2) : Prop :=
  (length toks <= length ts)%nat /\
  (ts <> [] -> toks <> []) /\
  Forall (fun p => stop_condition (snd p) (fst p) = false)
         (removelast (combine ts toks)) /\
  ((length toks < length ts)%nat ->
   exists run p, combine ts toks = run ++ [p] /\
                 stop_condition (snd p) (fst p) = true).

(** A model and an input that [generate] accepts: a positive reduction
    factor, the mel projection [__init__] builds, and an encoder that
    returns one sequence per batch element. *)
Definition well_formed (self : instance) (x : list (list Z))
           (speaker_embedding : option tensor2) : Prop :=
  (1 <= r self)%Z /\
  Decoder.mel_proj_built (decoder self) /\
  length (encoder self x speaker_embedding) = length x.

(** Number of decoder steps a run of the loop performed. *)
Definition steps_run
           (res : list tensor3 * list tensor3 * list tensor2
                  * Decoder.instance) : nat :=
  length (fst (fst (fst res))).

(** The encoder accepts the characters [x], [T] for every batch element,
    and its output, of width [E], fits the projection
    [nn.Linear(E, D, bias=False)]. *)
Definition encoded (self : instance) (x : list (list Z))
           (speaker_embedding : option tensor2) (T E D : nat) : Prop :=
  Forall (fun row => length row = T) x /\
  shape3 (encoder self x speaker_embedding) (length x) T E /\
  Linear.built (encoder_proj self) E D /\
  Linear.bias (encoder_proj self) = None.

(** The model is one [__init__] builds and the input fits it: the
    dimensions of the layers agree with the attributes of the model, and
    the post-network has as many output channels as the spectrogram has
    mel channels ([fft_bins = n_mels], which its residual connection
    needs), returning [postnet_dims] values per frame. *)
Definition shaped (self : instance) (x : list (list Z))
           (speaker_embedding : option tensor2) (T E D L : nat) : Prop :=
  (1 <= T)%nat /\
  encoded self x speaker_embedding T E D /\
  Decoder.built (decoder self) E D L /\
  n_mels self = Decoder.n_mels (decoder self) /\
  decoder_dims self = D /\ lstm_dims self = L /\
  (encoder_dims self + speaker_embedding_size self)%nat = E /\
  exists postnet_dims : nat,
    Linear.built (post_proj self) postnet_dims (n_mels self) /\
    Linear.bias (post_proj self) = None /\
    forall (m : tensor3) (frames : nat),
      (1 <= frames)%nat ->
      shape3 m (length x) (n_mels self) frames ->
      shape3 (postnet self m) (length x) frames postnet_dims.

(** [l[k]] *)
Definition item_at {A : Type} (l : list A) (k : Z) : py.result A :=
  let i := if (k <? 0)%Z then (Z.of_nat (length l) + k)%Z else k in
  if (i <? 0)%Z then
    py.Raise (py.IndexError "index is out of bounds"%string)
  else
    match nth_error l (Z.to_nat i) with
    | Some a => py.Return a
    | None => py.Raise (py.IndexError "index is out of bounds"%string)
    end.

(** [m[:, :, k]] *)
Definition frame_at (m : tensor3) (k : Z) : py.result tensor2 :=
  py.comprehension (py.comprehension (fun row => item_at row k)) m.

(** [m.size()[2]] *)
Definition size2 (m : tensor3) : nat :=
  match m with
  | (row :: _) :: _ => length row
  | _ => O
  end.

(** The decoder loop of [forward], over the values [ts] that remain of
    [range(0, steps, self.r)]: every step is fed a frame of the target
    spectrogram [m], and no step ends the loop. *)
Fixpoint forward_loop (rng : Z -> noise)
         (encoder_seq encoder_seq_proj : tensor3) (go_frame : tensor2)
         (x : list (list Z)) (m : tensor3) (ts : list Z)
         (dec : Decoder.instance)
         (hidden_states : Decoder.states) (cell_states : Decoder.cells)
         (context_vec : tensor2)
         (mel_outputs attn_scores : list tensor3)
         (stop_outputs : list tensor2)
  : py.result (list tensor3 * list tensor3 * list tensor2
               * Decoder.instance) :=
  match ts with
  | [] => py.Return (mel_outputs, attn_scores, stop_outputs, dec)
  | t :: ts' =>
      (prenet_in <- (if (t >? 0)%Z then frame_at m (t - 1)
                     else py.Return go_frame) ;;
       '(mel_frames, scores, hidden_states, cell_states, context_vec,
         stop_tokens, dec) <-
          Decoder.forward dec (rng t) encoder_seq encoder_seq_proj
                          prenet_in hidden_states cell_states
                          context_vec t x ;;
       let mel_outputs := mel_outputs ++ [mel_frames] in
       let attn_scores := attn_scores ++ [scores] in
       let stop_outputs :=
         stop_outputs ++ repeat stop_tokens (Z.to_nat (Decoder.r dec)) in
       forward_loop rng encoder_seq encoder_seq_proj go_frame x m ts'
                    dec hidden_states cell_states context_vec
                    mel_outputs attn_scores stop_outputs)%py
  end.

Definition set_step_decoder (self : instance) (step' : Z)
           (dec : Decoder.instance) : instance :=
  {| n_mels := n_mels self; lstm_dims := lstm_dims self;
     encoder_dims := encoder_dims self; decoder_dims := decoder_dims self;
     speaker_embedding_size := speaker_embedding_size self;
     encoder := encoder self; encoder_proj := encoder_proj self;
     decoder := dec; postnet := postnet self; post_proj := post_proj self;
     step := step'; stop_threshold := stop_threshold self |}.

(** [forward]: the four tensors it returns and the module it leaves,
    with its step counter and the attention state of its decoder. *)
Definition forward (self : instance) (rng : Z -> noise)
           (x : list (list Z)) (m : tensor3)
           (speaker_embedding : option tensor2)
  : py.result ((tensor3 * tensor3 * tensor3 * tensor2) * instance) :=
  (let step' := (step self + 1)%Z in
   let batch_size := length m in
   let steps := Z.of_nat (size2 m) in
   let attn_hidden := zeros2 batch_size (decoder_dims self) in
   let rnn1_hidden := zeros2 batch_size (lstm_dims self) in
   let rnn2_hidden := zeros2 batch_size (lstm_dims self) in
   let hidden_states := (attn_hidden, rnn1_hidden, rnn2_hidden) in
   let rnn1_cell := zeros2 batch_size (lstm_dims self) in
   let rnn2_cell := zeros2 batch_size (lstm_dims self) in
   let cell_states := (rnn1_cell, rnn2_cell) in
   let go_frame := zeros2 batch_size (n_mels self) in
   let context_vec :=
     zeros2 batch_size (encoder_dims self + speaker_embedding_size self) in
   let encoder_seq := encoder self x speaker_embedding in
   let encoder_seq_proj :=
     map (map (Linear.forward (encoder_proj self))) encoder_seq in
   ts <- py.range 0 steps (r self) ;;
   '(mel_outputs, attn_scores, stop_outputs, dec) <-
      forward_loop rng encoder_seq encoder_seq_proj go_frame x m ts
                   (decoder self) hidden_states cell_states context_vec
                   [] [] [] ;;
   mel_outputs <- torch_cat cat_dim2 mel_outputs ;;
   let postnet_out := postnet self mel_outputs in
   let linear := map (map (Linear.forward (post_proj self))) postnet_out in
   let linear := map transpose linear in
   attn_scores <- torch_cat cat_dim1 attn_scores ;;
   stop_outputs <- torch_cat cat stop_outputs ;;
   py.Return ((mel_outputs, linear, attn_scores, stop_outputs),
              set_step_decoder self step' dec))%py.

End Tacotron.

(** A smallest model, for running the code on concrete inputs: one mel
    channel, layers of width one, all weights zero, an encoder whose
    output is all zero and a stop projection of bias 1, so that every
    stop probability is [sigmoid 1]. *)
Module tiny.

Definition quiet : noise :=
  {| drop1 := fun _ _ => 1; drop2 := fun _ _ => 1;
     zone1 := fun _ _ => 0; zone2 := fun _ _ => 0 |}.

Definition decoder (r : Z) : Decoder.instance :=
  {| Decoder.r := r;
     Decoder.n_mels := 1;
     Decoder.training := true;
     Decoder.prenet :=
       {| PreNet.fc1 := {| Linear.weight := [[0]]; Linear.bias := Some [0] |};
          PreNet.fc2 := {| Linear.weight := [[0]]; Linear.bias := Some [0] |};
          PreNet.p := 0.5 |};
     Decoder.attn_net :=
       {| LSA.energy := fun enc_proj _ _ => map (fun _ => 0) enc_proj;
          LSA.cumulative := None;
          LSA.attention := None |};
     Decoder.attn_rnn := fun _ h => h;
     Decoder.rnn_input :=
       {| Linear.weight := [[0; 0]]; Linear.bias := Some [0] |};
     Decoder.res_rnn1 := fun _ hc => hc;
     Decoder.res_rnn2 := fun _ hc => hc;
     Decoder.mel_proj :=
       {| Linear.weight := repeat [0] (1 * Decoder.max_r);
          Linear.bias := None |};
     Decoder.stop_proj :=
       {| Linear.weight := [[0; 0]]; Linear.bias := Some [1] |} |}.

Definition model (r : Z) (stop_threshold : R) : Tacotron.instance :=
  {| Tacotron.n_mels := 1;
     Tacotron.lstm_dims := 1;
     Tacotron.encoder_dims := 1;
     Tacotron.decoder_dims := 1;
     Tacotron.speaker_embedding_size := 0;
     Tacotron.encoder := fun x _ => map (map (fun _ => [0])) x;
     Tacotron.encoder_proj :=
       {| Linear.weight := [[0]]; Linear.bias := None |};
     Tacotron.decoder := decoder r;
     Tacotron.postnet := fun m => m;
     Tacotron.post_proj := {| Linear.weight := [[0]]; Linear.bias := None |};
     Tacotron.step := 0;
     Tacotron.stop_threshold := stop_threshold |}.

(** The same model with a post-network that, like the one of the code,
    returns its frames first, here with the mel channel as their one
    value. *)
Definition full_model (r : Z) : Tacotron.instance :=
  {| Tacotron.n_mels := 1;
     Tacotron.lstm_dims := 1;
     Tacotron.encoder_dims := 1;
     Tacotron.decoder_dims := 1;
     Tacotron.speaker_embedding_size := 0;
     Tacotron.encoder := fun x _ => map (map (fun _ => [0])) x;
     Tacotron.encoder_proj :=
       {| Linear.weight := [[0]]; Linear.bias := None |};
     Tacotron.decoder := decoder r;
     Tacotron.postnet := map transpose;
     Tacotron.post_proj := {| Linear.weight := [[0]]; Linear.bias := None |};
     Tacotron.step := 0;
     Tacotron.stop_threshold := 0.5 |}.

End tiny.

End tacotron.

(** ** synthesizer/utils/torch_utils.py *)

Module torch_utils.

Local Open Scope Q_scope.

(** [l[k:]] *)
Definition slice_from {A : Type} (k : Z) (l : list A) : list A :=
  if (k <? 0)%Z then skipn (Z.to_nat (Z.of_nat (length l) + k)) l
  else skipn (Z.to_nat k) l.

Module ValueWindow.

Record instance : Type := mk {
  _window_size : Z;
  _values : list Q
}.

Definition __init__ (window_size : Z) : instance :=
  {| _window_size := window_size; _values := [] |}.

Definition append (self : instance) (x : Q) : instance :=
  {| _window_size := _window_size self;
     _values := slice_from (- (_window_size self - 1)) (_values self) ++ [x] |}.

Definition sum (self : instance) : Q := fold_left Qplus (_values self) 0.

Definition count (self : instance) : Z := Z.of_nat (length (_values self)).

Definition average (self : instance) : Q :=
  sum self / inject_Z (Z.max 1 (count self)).

Definition reset (self : instance) : instance :=
  {| _window_size := _window_size self; _values := [] |}.

(** The values a window holds after [xs] were appended to it in turn. *)
Definition appended (self : instance) (xs : list Q) : instance :=
  fold_left append xs self.

End ValueWindow.

End torch_utils.

(** * Properties *)

(** ** The fair cyclic sampler *)

Section RandomCyclerFacts.

Import random_cycler.

Context {A : Type}.
Variable A_eq_dec : forall x y : A, {x = y} + {x <> y}.
Variable tape : nat -> list nat.
Variable pool : list A.

Hypothesis pool_nonempty : pool <> [].
Hypothesis tape_fair : fair_tape tape (length pool).

Lemma shuffle_seq (l : list A) : shuffle (seq 0 (length l)) l = l.
Proof.
  unfold shuffle.
  induction l as [|a l IH] using rev_ind; [reflexivity|].
  rewrite length_app, Nat.add_comm. cbn [length plus].
  rewrite seq_S, flat_map_app. cbn [plus flat_map].
  rewrite nth_error_app2, Nat.sub_diag by lia. cbn.
  f_equal.
  rewrite <- IH at 2. rewrite !flat_map_concat_map. f_equal.
  apply map_ext_in. intros i Hi. apply in_seq in Hi.
  rewrite nth_error_app1 by lia. reflexivity.
Qed.

Lemma shuffle_Permutation (choice : list nat) (l : list A) :
  Permutation choice (seq 0 (length l)) -> Permutation (shuffle choice l) l.
Proof.
  intros H. rewrite <- (shuffle_seq l) at 2.
  unfold shuffle. rewrite H. apply Permutation_refl.
Qed.

Lemma shuffle_pool k : Permutation (shuffle (tape k) pool) pool.
Proof. apply shuffle_Permutation, tape_fair. Qed.

Lemma cycler_inv_init : cycler_inv A_eq_dec pool 0 [] [].
Proof.
  repeat split; try reflexivity.
  exists pool. rewrite app_nil_r. apply Permutation_refl.
Qed.

Lemma cycler_inv_full q hist next p :
  Permutation p pool ->
  cycler_inv A_eq_dec pool q hist next -> cycler_inv A_eq_dec pool (S q) (hist ++ p) next.
Proof.
  intros Hp (Hc & Hl & Hpre). repeat split; [| |exact Hpre].
  - intros x. rewrite count_occ_app, (proj1 (Permutation_count_occ A_eq_dec _ _) Hp x).
    specialize (Hc x). lia.
  - rewrite length_app, (Permutation_length Hp). lia.
Qed.

Lemma cycler_inv_take q hist next n :
  cycler_inv A_eq_dec pool q hist next ->
  cycler_inv A_eq_dec pool q (hist ++ firstn n next) (skipn n next).
Proof.
  intros (Hc & Hl & pre & Hpre). repeat split.
  - intros x. rewrite count_occ_app, <- Nat.add_assoc, <- count_occ_app.
    rewrite firstn_skipn. apply Hc.
  - rewrite length_app, <- Nat.add_assoc, <- length_app.
    rewrite firstn_skipn. exact Hl.
  - exists (pre ++ firstn n next).
    rewrite <- app_assoc, firstn_skipn. exact Hpre.
Qed.

Lemma cycler_inv_refill q hist p :
  Permutation p pool ->
  cycler_inv A_eq_dec pool q hist [] -> cycler_inv A_eq_dec pool (S q) hist p.
Proof.
  intros Hp (Hc & Hl & _). repeat split.
  - intros x. rewrite (proj1 (Permutation_count_occ A_eq_dec _ _) Hp x).
    specialize (Hc x). cbn in Hc. lia.
  - rewrite (Permutation_length Hp). cbn in Hl. lia.
  - exists []. exact Hp.
Qed.

Lemma length_zero_nil {B : Type} (l : list B) : (length l =? 0) = true -> l = [].
Proof. destruct l; [reflexivity|discriminate]. Qed.

(** One run of the loop keeps the invariant and hands out exactly the
    number of items that was asked for. *)
Lemma sample_loop_inv fuel :
  forall self k count out prev q out' self' k',
    all_items self = pool ->
    cycler_inv A_eq_dec pool q (prev ++ out) (next_items self) ->
    sample_loop tape fuel self k count out = Some (out', self', k') ->
    all_items self' = pool /\
    (exists q', cycler_inv A_eq_dec pool q' (prev ++ out') (next_items self')) /\
    Z.of_nat (length out') = (Z.of_nat (length out) + Z.max 0 count)%Z.
Proof.
  induction fuel as [|fuel IH]; intros self k count out prev q out' self' k'
    Hall Hinv Hrun; [discriminate|].
  cbn [sample_loop] in Hrun.
  destruct (count >? 0)%Z eqn:Hpos.
  2:{ injection Hrun as Ho Hs Hk. rewrite <- Ho, <- Hs.
      split; [exact Hall|]. split; [exists q; exact Hinv|]. lia. }
  rewrite Hall in Hrun.
  destruct (count >=? Z.of_nat (length pool))%Z eqn:Hfull.
  - apply IH with (prev := prev) (q := S q) in Hrun; [|exact Hall|].
    + destruct Hrun as (Ha & Hq & Hlen). repeat split; [exact Ha|exact Hq|].
      rewrite Hlen, length_app, (Permutation_length (shuffle_pool k)). lia.
    + rewrite app_assoc. apply cycler_inv_full; [apply shuffle_pool|exact Hinv].
  - set (n := Z.min count (Z.of_nat (length (next_items self)))) in *.
    assert (Htake : cycler_inv A_eq_dec pool q
              (prev ++ out ++ firstn (Z.to_nat n) (next_items self))
              (skipn (Z.to_nat n) (next_items self))).
    { rewrite app_assoc. apply cycler_inv_take. exact Hinv. }
    assert (Hn : length (firstn (Z.to_nat n) (next_items self)) = Z.to_nat n).
    { apply firstn_length_le. lia. }
    destruct (length (skipn (Z.to_nat n) (next_items self)) =? 0) eqn:Hrest.
    + apply length_zero_nil in Hrest. rewrite Hrest in Htake.
      apply IH with (prev := prev) (q := S q) in Hrun; [|reflexivity|].
      * destruct Hrun as (Ha & Hq & Hlen). repeat split; [exact Ha|exact Hq|].
        rewrite Hlen, length_app, Hn. lia.
      * cbn [next_items]. apply cycler_inv_refill;
          [apply shuffle_pool|exact Htake].
    + apply IH with (prev := prev) (q := q) in Hrun; [|reflexivity|].
      * destruct Hrun as (Ha & Hq & Hlen). repeat split; [exact Ha|exact Hq|].
        rewrite Hlen, length_app, Hn. lia.
      * cbn [next_items]. exact Htake.
Qed.

Lemma pool_length_pos : 0 < length pool.
Proof. destruct pool; [contradiction|cbn; lia]. Qed.

Lemma shuffle_pool_length k : length (shuffle (tape k) pool) = length pool.
Proof. apply Permutation_length, shuffle_pool. Qed.

(** The loop ends: every iteration either hands out an item or refills
    an empty buffer. *)
Lemma sample_loop_total fuel :
  forall self k count out,
    all_items self = pool ->
    2 * Z.to_nat count + (if length (next_items self) =? 0 then 1 else 0)
      < fuel ->
    exists res, sample_loop tape fuel self k count out = Some res.
Proof.
  pose proof pool_length_pos as Hpool.
  induction fuel as [|fuel IH]; intros self k count out Hall Hfuel; [lia|].
  cbn [sample_loop].
  destruct (count >? 0)%Z eqn:Hpos; [|eexists; reflexivity].
  rewrite Hall.
  destruct (count >=? Z.of_nat (length pool))%Z eqn:Hfull.
  - apply IH; [exact Hall|].
    destruct (length (next_items self) =? 0); lia.
  - set (n := Z.min count (Z.of_nat (length (next_items self)))) in *.
    pose proof (length_skipn (Z.to_nat n) (next_items self)) as Hskip.
    destruct (length (skipn (Z.to_nat n) (next_items self)) =? 0) eqn:Hrest.
    + apply IH; [reflexivity|]. cbn [next_items].
      rewrite shuffle_pool_length.
      destruct (length pool =? 0) eqn:Hp0; [apply Nat.eqb_eq in Hp0; lia|].
      destruct (length (next_items self) =? 0) eqn:Hn0.
      * apply Nat.eqb_eq in Hn0. lia.
      * apply Nat.eqb_neq in Hn0. lia.
    + apply IH; [reflexivity|]. cbn [next_items]. rewrite Hrest.
      apply Nat.eqb_neq in Hrest.
      destruct (length (next_items self) =? 0) eqn:Hn0.
      * apply Nat.eqb_eq in Hn0. lia.
      * apply Nat.eqb_neq in Hn0. lia.
Qed.

Lemma sample_total self k count :
  all_items self = pool -> exists res, sample tape self k count = Some res.
Proof.
  intros Hall. apply sample_loop_total; [exact Hall|].
  unfold sample_fuel. destruct (length (next_items self) =? 0); lia.
Qed.

(** A sequence of calls keeps the invariant over the concatenated
    output and hands out as many items as were requested. *)
Lemma sample_calls_inv counts :
  forall self k prev q,
    all_items self = pool ->
    cycler_inv A_eq_dec pool q prev (next_items self) ->
    exists out self' k',
      sample_calls tape self k counts = Some (out, self', k') /\
      all_items self' = pool /\
      (exists q', cycler_inv A_eq_dec pool q' (prev ++ out) (next_items self')) /\
      Z.of_nat (length out) = total_draws counts.
Proof.
  induction counts as [|c counts IH]; intros self k prev q Hall Hinv.
  - exists [], self, k. rewrite app_nil_r.
    repeat split; [exact Hall|exists q; exact Hinv].
  - cbn [sample_calls].
    destruct (sample_total self k c Hall) as [[[out self1] k1] Hrun].
    rewrite Hrun.
    apply sample_loop_inv with (prev := prev) (q := q) in Hrun;
      [|exact Hall|rewrite app_nil_r; exact Hinv].
    destruct Hrun as (Hall1 & [q1 Hinv1] & Hlen1).
    destruct (IH self1 k1 (prev ++ out) q1 Hall1 Hinv1)
      as (outs & self2 & k2 & Hcalls & Hall2 & Hinv2 & Hlen2).
    rewrite Hcalls. exists (out ++ outs), self2, k2.
    repeat split; [exact Hall2|rewrite app_assoc; exact Hinv2|].
    rewrite length_app. cbn [total_draws fold_right].
    fold (total_draws counts). cbn [length] in Hlen1. lia.
Qed.

(** The bounds on the number of appearances that the invariant gives. *)
Lemma cycler_inv_bounds q hist next x :
  NoDup pool -> In x pool ->
  cycler_inv A_eq_dec pool q hist next ->
  let m := Z.of_nat (length hist) in
  let n := Z.of_nat (length pool) in
  (m / n <= Z.of_nat (count_occ A_eq_dec hist x) <= (m - 1) / n + 1)%Z.
Proof.
  intros Hnd Hin (Hc & Hl & pre & Hpre) m n.
  pose proof pool_length_pos as Hpool.
  specialize (Hc x).
  rewrite (proj1 (NoDup_count_occ' A_eq_dec pool) Hnd x Hin) in Hc.
  pose proof (proj1 (Permutation_count_occ A_eq_dec _ _) Hpre x) as Hsub.
  rewrite count_occ_app,
    (proj1 (NoDup_count_occ' A_eq_dec pool) Hnd x Hin) in Hsub.
  pose proof (Permutation_length Hpre) as Hlen. rewrite length_app in Hlen.
  assert (Hfull : length next = length pool -> count_occ A_eq_dec next x = 1).
  { intros E. assert (pre = []) by (destruct pre; [reflexivity|cbn in Hlen; lia]).
    subst pre. cbn in Hsub. exact Hsub. }
  assert (Hnone : length next = 0 -> count_occ A_eq_dec next x = 0).
  { intros E. destruct next; [reflexivity|discriminate]. }
  assert (Hd : count_occ A_eq_dec next x = 0 \/ count_occ A_eq_dec next x = 1)
    by lia.
  subst m n. split.
  - apply Z.lt_succ_r, Z.div_lt_upper_bound; [lia|].
    destruct Hd as [Hd|Hd]; rewrite Hd in *; nia.
  - apply Z.le_sub_le_add_r, Z.div_le_lower_bound; [lia|].
    destruct Hd as [Hd|Hd]; rewrite Hd in *; nia.
Qed.

End RandomCyclerFacts.

(** C5. For a pool of [n >= 1] distinct items, any fair random generator
    and any sequence of [sample] calls that asks for [m] items in total,
    the calls return, hand out [m] items, and every item of the pool
    appears between [m // n] and [(m - 1) // n + 1] times in the
    concatenated output. *)
Theorem RandomCycler_occurrence_bounds :
  forall (A : Type) (A_eq_dec : forall x y : A, {x = y} + {x <> y})
         (tape : nat -> list nat) (pool : list A)
         (self : random_cycler.RandomCycler) (k : nat) (counts : list Z),
    NoDup pool ->
    random_cycler.__init__ pool = py.Return self ->
    random_cycler.fair_tape tape (length pool) ->
    exists out self' k',
      random_cycler.sample_calls tape self k counts = Some (out, self', k') /\
      Z.of_nat (length out) = random_cycler.total_draws counts /\
      forall x, In x pool ->
        let m := random_cycler.total_draws counts in
        let n := Z.of_nat (length pool) in
        (m / n <= Z.of_nat (count_occ A_eq_dec out x) <= (m - 1) / n + 1)%Z.
Proof.
  intros A A_eq_dec tape pool self k counts Hnd Hinit Hfair.
  assert (Hne : pool <> []).
  { intros E. subst pool. discriminate Hinit. }
  assert (Hself : self = {| random_cycler.all_items := pool;
                            random_cycler.next_items := [] |}).
  { unfold random_cycler.__init__ in Hinit.
    destruct pool; [contradiction|]. cbn in Hinit. congruence. }
  subst self.
  destruct (sample_calls_inv Hne Hfair counts
              {| random_cycler.all_items := pool;
                 random_cycler.next_items := [] |} k
              eq_refl (cycler_inv_init A_eq_dec pool))
    as (out & self' & k' & Hrun & _ & [q' Hinv] & Hlen).
  exists out, self', k'. split; [exact Hrun|]. split; [exact Hlen|].
  intros x Hin. cbn zeta. rewrite <- Hlen.
  exact (cycler_inv_bounds Hne Hfair x Hnd Hin Hinv).
Qed.

Lemma RandomCycler_occurrence_bounds_witness :
  exists out self' k',
    random_cycler.sample_calls (fun _ => [0; 1; 2])
      {| random_cycler.all_items := [1; 2; 3];
         random_cycler.next_items := [] |} 0 [7%Z]
    = Some (out, self', k') /\
    Z.of_nat (length out) = random_cycler.total_draws [7%Z] /\
    forall x, In x [1; 2; 3] ->
      let m := random_cycler.total_draws [7%Z] in
      let n := Z.of_nat (length [1; 2; 3]) in
      (m / n <= Z.of_nat (count_occ Nat.eq_dec out x) <= (m - 1) / n + 1)%Z.
Proof.
  apply (@RandomCycler_occurrence_bounds nat Nat.eq_dec (fun _ => [0; 1; 2])
           [1; 2; 3]).
  - repeat constructor; cbn; intuition discriminate.
  - reflexivity.
  - intros k. apply Permutation_refl.
Defined.

(** The pool and the random orders of the run that breaks the gap bound:
    the first shuffle yields C, A, B and the later ones A, B, C. *)
Example RandomCycler_gap_run :
  random_cycler.sample_calls
    (fun k => match k with O => [2; 0; 1] | _ => [0; 1; 2] end)
    {| random_cycler.all_items := ["A"; "B"; "C"]%string;
       random_cycler.next_items := [] |} 0 [1; 2; 2; 3]%Z
  = Some (["C"; "A"; "B"; "A"; "B"; "A"; "B"; "C"]%string,
          {| random_cycler.all_items := ["A"; "B"; "C"]%string;
             random_cycler.next_items := ["C"]%string |}, 3).
Proof. reflexivity. Qed.

(** C4. On the pool A, B, C ([n = 3]) the calls [sample(1)], [sample(2)],
    [sample(2)], [sample(3)] can return C, A, B, A, B, A, B, C: six other
    items lie between the two consecutive appearances of C, more than
    [2 * (n - 1) = 4]. *)
Theorem RandomCycler_gap_exceeds_bound :
  let tape := fun k => match k with O => [2; 0; 1] | _ => [0; 1; 2] end in
  let pool := ["A"; "B"; "C"]%string in
  random_cycler.fair_tape tape (length pool) /\
  exists self out self' k' mid,
    random_cycler.__init__ pool = py.Return self /\
    random_cycler.sample_calls tape self 0 [1; 2; 2; 3]%Z
    = Some (out, self', k') /\
    random_cycler.between_appearances "C"%string mid out /\
    length mid = 6 /\
    2 * (length pool - 1) < length mid.
Proof.
  cbn zeta. split.
  - intros [|k]; [|apply Permutation_refl].
    change [2; 0; 1] with ([2] ++ [0; 1]).
    change (seq 0 _) with ([0; 1] ++ [2]). apply Permutation_app_comm.
  - eexists _, _, _, _, ["A"; "B"; "A"; "B"; "A"; "B"]%string.
    split; [reflexivity|]. split; [reflexivity|]. split.
    + exists [], []. split; [reflexivity|].
      cbn. intuition discriminate.
    + cbn. split; [reflexivity|lia].
Qed.

(** C8 as the code has it: an empty pool makes the constructor raise a
    plain [Exception] with its message, and a non-empty pool yields a
    cycler that holds the pool and an empty pending buffer. *)
Theorem RandomCycler_init_result :
  forall (A : Type),
    random_cycler.__init__ (@nil A)
    = py.Raise (py.mk_exception "Exception"%string
                  "RandomCycler was provided an empty collection."%string) /\
    forall (a : A) (source : list A),
      random_cycler.__init__ (a :: source)
      = py.Return {| random_cycler.all_items := a :: source;
                     random_cycler.next_items := [] |}.
Proof. intros A. split; reflexivity. Qed.

(** C8 as stated fails: the exception raised for an empty pool is not an
    [EmptyPoolError]. *)
Lemma RandomCycler_init_not_EmptyPoolError :
  ~ py.raises (random_cycler.__init__ (@nil nat)) "EmptyPoolError"%string.
Proof. intros [msg H]. discriminate H. Qed.

(** ** Normalisation of decibel spectrograms *)

Section NormalizeFacts.

Import audio_utils.
Local Open Scope Q_scope.

Variable hp : hparams.
Hypothesis max_abs_pos : 0 < max_abs_value hp.
Hypothesis min_db_neg : min_level_db hp < 0.

Lemma clip_inside (x lo hi : Q) :
  lo <= x -> x <= hi -> Qmin hi (Qmax x lo) == x.
Proof.
  intros Hlo Hhi. rewrite (Q.max_l x lo Hlo). apply Q.min_r. exact Hhi.
Qed.

Lemma symmetric_in_range (s : Q) :
  min_level_db hp <= s -> s <= 0 ->
  - max_abs_value hp
    <= (2 * max_abs_value hp) * ((s - min_level_db hp) / (- min_level_db hp))
       - max_abs_value hp
    <= max_abs_value hp.
Proof.
  intros Hlo Hhi.
  generalize dependent (max_abs_value hp). intros M HM.
  generalize dependent (min_level_db hp). intros l Hl Hlo.
  assert (H0 : 0 <= (s - l) / (- l)).
  { apply Qle_shift_div_l; lra. }
  assert (H1 : (s - l) / (- l) <= 1).
  { apply Qle_shift_div_r; lra. }
  split; nra.
Qed.

Lemma asymmetric_in_range (s : Q) :
  min_level_db hp <= s -> s <= 0 ->
  0 <= max_abs_value hp * ((s - min_level_db hp) / (- min_level_db hp))
    <= max_abs_value hp.
Proof.
  intros Hlo Hhi.
  generalize dependent (max_abs_value hp). intros M HM.
  generalize dependent (min_level_db hp). intros l Hl Hlo.
  assert (H0 : 0 <= (s - l) / (- l)).
  { apply Qle_shift_div_l; lra. }
  assert (H1 : (s - l) / (- l) <= 1).
  { apply Qle_shift_div_r; lra. }
  split; nra.
Qed.

Lemma symmetric_inverse (s d : Q) :
  d == (2 * max_abs_value hp) * ((s - min_level_db hp) / (- min_level_db hp))
       - max_abs_value hp ->
  ((d + max_abs_value hp) * - min_level_db hp / (2 * max_abs_value hp))
  + min_level_db hp == s.
Proof. intros ->. field. split; lra. Qed.

Lemma asymmetric_inverse (s d : Q) :
  d == max_abs_value hp * ((s - min_level_db hp) / (- min_level_db hp)) ->
  (d * - min_level_db hp / max_abs_value hp) + min_level_db hp == s.
Proof. intros ->. field. split; lra. Qed.

Lemma ndarray_max_le (x : Q) (l : list Q) (b : Q) :
  Forall (fun s => s <= b) (x :: l) -> fold_left Qmax l x <= b.
Proof.
  revert x. induction l as [|y l IH]; intros x H; inversion H; subst.
  - assumption.
  - cbn. apply IH. inversion H3; subst. constructor; [|assumption].
    apply Q.max_lub; assumption.
Qed.

Lemma ndarray_min_ge (x : Q) (l : list Q) (b : Q) :
  Forall (fun s => b <= s) (x :: l) -> b <= fold_left Qmin l x.
Proof.
  revert x. induction l as [|y l IH]; intros x H; inversion H; subst.
  - assumption.
  - cbn. apply IH. inversion H3; subst. constructor; [|assumption].
    apply Q.min_glb; assumption.
Qed.

Lemma roundtrip_clipped_symmetric (S : ndarray) :
  in_db_range hp S ->
  same_values
    (map (fun d => ((d + max_abs_value hp) * - min_level_db hp
                    / (2 * max_abs_value hp)) + min_level_db hp)
       (np_clip
          (np_clip
             (map (fun s => (2 * max_abs_value hp)
                            * ((s - min_level_db hp) / (- min_level_db hp))
                            - max_abs_value hp) S)
             (- max_abs_value hp) (max_abs_value hp))
          (- max_abs_value hp) (max_abs_value hp)))
    S.
Proof.
  induction 1 as [|s S [Hlo Hhi] _ IH]; [constructor|].
  constructor; [|exact IH].
  destruct (symmetric_in_range Hlo Hhi) as [Ha Hb].
  apply symmetric_inverse.
  rewrite (clip_inside Ha Hb). apply (clip_inside Ha Hb).
Qed.

Lemma roundtrip_clipped_asymmetric (S : ndarray) :
  in_db_range hp S ->
  same_values
    (map (fun d => (d * - min_level_db hp / max_abs_value hp)
                   + min_level_db hp)
       (np_clip
          (np_clip
             (map (fun s => max_abs_value hp
                            * ((s - min_level_db hp) / (- min_level_db hp))) S)
             0 (max_abs_value hp))
          0 (max_abs_value hp)))
    S.
Proof.
  induction 1 as [|s S [Hlo Hhi] _ IH]; [constructor|].
  constructor; [|exact IH].
  destruct (asymmetric_in_range Hlo Hhi) as [Ha Hb].
  apply asymmetric_inverse.
  rewrite (clip_inside Ha Hb). apply (clip_inside Ha Hb).
Qed.

Lemma roundtrip_plain_symmetric (S : ndarray) :
  same_values
    (map (fun d => ((d + max_abs_value hp) * - min_level_db hp
                    / (2 * max_abs_value hp)) + min_level_db hp)
       (map (fun s => (2 * max_abs_value hp)
                      * ((s - min_level_db hp) / (- min_level_db hp))
                      - max_abs_value hp) S))
    S.
Proof.
  induction S as [|s S IH]; constructor; [|exact IH].
  apply symmetric_inverse. reflexivity.
Qed.

Lemma roundtrip_plain_asymmetric (S : ndarray) :
  same_values
    (map (fun d => (d * - min_level_db hp / max_abs_value hp)
                   + min_level_db hp)
       (map (fun s => max_abs_value hp
                      * ((s - min_level_db hp) / (- min_level_db hp))) S))
    S.
Proof.
  induction S as [|s S IH]; constructor; [|exact IH].
  apply asymmetric_inverse. reflexivity.
Qed.

(** In range, the assertion of the unclipped branch passes. *)
Lemma normalize_assertion (S : ndarray) :
  S <> [] -> in_db_range hp S ->
  exists hi lo,
    ndarray_max S = py.Return hi /\ Qle_bool hi 0 = true /\
    ndarray_min S = py.Return lo /\
    Qle_bool 0 (lo - min_level_db hp) = true.
Proof.
  intros Hne Hin. destruct S as [|x l]; [contradiction|].
  exists (fold_left Qmax l x), (fold_left Qmin l x).
  split; [reflexivity|]. split.
  - apply Qle_bool_iff, ndarray_max_le.
    eapply Forall_impl; [|exact Hin]. cbn. intros a [_ H]. exact H.
  - split; [reflexivity|]. apply Qle_bool_iff.
    assert (min_level_db hp <= fold_left Qmin l x); [|lra].
    apply ndarray_min_ge.
    eapply Forall_impl; [|exact Hin]. cbn. intros a [H _]. exact H.
Qed.

End NormalizeFacts.

(** C7. With [max_abs_value > 0] and [min_level_db < 0], in each of the
    four modes (symmetric or not, clipping allowed or not), normalising a
    spectrogram whose values lie in [[min_level_db, 0]] succeeds and
    denormalising the result gives back the same values. Without
    clipping the array must hold at least one value, since the
    assertion takes its maximum. *)
Theorem normalize_denormalize_roundtrip :
  forall (hp : audio_utils.hparams) (S : audio_utils.ndarray),
    (0 < audio_utils.max_abs_value hp)%Q ->
    (audio_utils.min_level_db hp < 0)%Q ->
    audio_utils.in_db_range hp S ->
    audio_utils.allow_clipping_in_normalization hp = true \/ S <> [] ->
    exists D,
      audio_utils._normalize S hp = py.Return D /\
      audio_utils.same_values (audio_utils._denormalize D hp) S.
Proof.
  intros hp S HM Hl Hin Hmode.
  unfold audio_utils._normalize, audio_utils._denormalize.
  destruct (audio_utils.allow_clipping_in_normalization hp) eqn:Hclip.
  - destruct (audio_utils.symmetric_mels hp); eexists; (split; [reflexivity|]).
    + apply roundtrip_clipped_symmetric; assumption.
    + apply roundtrip_clipped_asymmetric; assumption.
  - destruct Hmode as [Hmode|Hne]; [discriminate|].
    destruct (normalize_assertion Hne Hin) as (hi & lo & -> & Hhi & -> & Hlo).
    cbn [py.bind]. rewrite Hhi, Hlo. cbn [negb].
    destruct (audio_utils.symmetric_mels hp); eexists; (split; [reflexivity|]).
    + apply roundtrip_plain_symmetric; assumption.
    + apply roundtrip_plain_asymmetric; assumption.
Qed.

Lemma normalize_denormalize_roundtrip_witness :
  let hp := {| audio_utils.allow_clipping_in_normalization := false;
               audio_utils.symmetric_mels := true;
               audio_utils.max_abs_value := 4%Q;
               audio_utils.min_level_db := (-100)%Q |} in
  let S := [(-50)%Q; 0%Q; (-100)%Q] in
  exists D,
    audio_utils._normalize S hp = py.Return D /\
    audio_utils.same_values (audio_utils._denormalize D hp) S.
Proof.
  cbn zeta. apply normalize_denormalize_roundtrip.
  - reflexivity.
  - reflexivity.
  - repeat constructor; cbn; discriminate.
  - right. discriminate.
Defined.

(** Outside the range and without clipping the assertion fails. *)
Example normalize_asserts_range :
  audio_utils._normalize [1%Q]
    {| audio_utils.allow_clipping_in_normalization := false;
       audio_utils.symmetric_mels := true;
       audio_utils.max_abs_value := 4%Q;
       audio_utils.min_level_db := (-100)%Q |}
  = py.Raise py.AssertionError.
Proof. reflexivity. Qed.

(** ** Collation of a batch *)

Lemma py_max_upper (l : list Z) :
  l <> [] ->
  exists m, py.max l = py.Return m /\ Forall (fun x => (x <= m)%Z) l.
Proof.
  destruct l as [|x l]; [contradiction|]. intros _.
  exists (fold_left Z.max l x). split; [reflexivity|].
  assert (G : forall l x, (x <= fold_left Z.max l x)%Z /\
                          Forall (fun y => (y <= fold_left Z.max l x)%Z) l).
  { clear. induction l as [|y l IH]; intros x; cbn.
    - split; [lia|constructor].
    - destruct (IH (Z.max x y)) as [H1 H2]. split; [lia|].
      constructor; [lia|exact H2]. }
  destruct (G l x) as [H1 H2]. constructor; assumption.
Qed.

Lemma comprehension_Forall2 {A B : Type} (f : A -> py.result B)
      (P : A -> B -> Prop) (l : list A) :
  Forall (fun a => exists b, f a = py.Return b /\ P a b) l ->
  exists bs, py.comprehension f l = py.Return bs /\ Forall2 P l bs.
Proof.
  induction 1 as [|a l (b & Hb & HP) _ (bs & Hbs & HF)].
  - exists []. split; [reflexivity|constructor].
  - exists (b :: bs). cbn. rewrite Hb. cbn. rewrite Hbs. cbn.
    split; [reflexivity|constructor; assumption].
Qed.

Lemma np_stack_same {T : Type} (same_shape : T -> T -> bool) (arrays : list T) :
  arrays <> [] ->
  (forall a b, In a arrays -> In b arrays -> same_shape a b = true) ->
  synthesizer_dataset.np_stack same_shape arrays = py.Return arrays.
Proof.
  destruct arrays as [|a rest]; [contradiction|]. intros _ H. cbn.
  replace (forallb (same_shape a) rest) with true; [reflexivity|].
  symmetry. apply forallb_forall. intros b Hb.
  apply H; [left; reflexivity|right; exact Hb].
Qed.

Lemma np_array_same (e : nat) (arrays : list (list Q)) :
  Forall (fun a => length a = e) arrays ->
  synthesizer_dataset.np_array arrays = py.Return arrays.
Proof.
  destruct arrays as [|a rest]; [reflexivity|]. intros H.
  inversion H as [|? ? Ha Hrest]; subst. cbn.
  replace (forallb (fun c => length a =? length c) rest) with true;
    [reflexivity|].
  symmetry. apply forallb_forall. intros c Hc.
  rewrite Forall_forall in Hrest. apply Nat.eqb_eq. symmetry.
  apply Hrest, Hc.
Qed.

Lemma dataset_batch_embeds (n_mels e : nat) (batch : list synthesizer_dataset.item) :
  synthesizer_dataset.dataset_batch n_mels e batch ->
  synthesizer_dataset.np_array (map synthesizer_dataset.item_embed batch)
  = py.Return (map synthesizer_dataset.item_embed batch).
Proof.
  intros (_ & _ & H). apply (np_array_same (e := e)).
  apply Forall_map. eapply Forall_impl; [|exact H].
  cbn. intros x [_ Hx]. exact Hx.
Qed.

Lemma Forall2_length_nonempty {A B : Type} (P : A -> B -> Prop) l bs :
  Forall2 P l bs -> l <> [] -> bs <> [].
Proof. destruct 1; [contradiction|discriminate]. Qed.

Lemma Forall2_right {A B : Type} (P : A -> B -> Prop) (Q : B -> Prop) l bs :
  Forall2 P l bs -> (forall a b, P a b -> Q b) -> Forall Q bs.
Proof. induction 1; intros HPQ; constructor; eauto. Qed.

Lemma pad1d_length (x : list Z) (max_len : Z) :
  (Z.of_nat (length x) <= max_len)%Z ->
  exists y, synthesizer_dataset.pad1d x max_len 0 = py.Return y /\
            Z.of_nat (length y) = max_len.
Proof.
  intros H. unfold synthesizer_dataset.pad1d.
  destruct (max_len - Z.of_nat (length x) <? 0)%Z eqn:E; [lia|].
  eexists. split; [reflexivity|]. rewrite length_app, repeat_length. lia.
Qed.

Lemma pad2d_shape (x : synthesizer_dataset.array2) (max_len : Z) (v : Q) :
  synthesizer_dataset.rectangular x ->
  (Z.of_nat (synthesizer_dataset.shape_last x) <= max_len)%Z ->
  exists y, synthesizer_dataset.pad2d x max_len v = py.Return y /\
            length y = length x /\
            Forall (fun row => Z.of_nat (length row) = max_len) y.
Proof.
  intros Hrect H. unfold synthesizer_dataset.pad2d.
  destruct (max_len - Z.of_nat (synthesizer_dataset.shape_last x) <? 0)%Z
    eqn:E; [lia|].
  eexists. split; [reflexivity|]. split; [apply length_map|].
  apply Forall_map. eapply Forall_impl; [|exact Hrect].
  cbn. intros row Hrow. rewrite length_app, repeat_length. lia.
Qed.

(** The padded length: the least multiple of [r] above the longest
    spectrogram. *)
Lemma padded_length (longest r : Z) :
  (1 <= r)%Z ->
  exists L,
    (if (r =? 0)%Z then py.Raise py.ZeroDivisionError
     else if negb ((longest + 1) mod r =? 0)%Z
          then py.Return (longest + 1 + (r - (longest + 1) mod r))%Z
          else py.Return (longest + 1)%Z) = py.Return L /\
    (L mod r = 0)%Z /\ (longest < L)%Z.
Proof.
  intros Hr. destruct (r =? 0)%Z eqn:E0; [lia|].
  pose proof (Z.mod_pos_bound (longest + 1) r ltac:(lia)) as Hb.
  destruct ((longest + 1) mod r =? 0)%Z eqn:E; cbn [negb].
  - exists (longest + 1)%Z. repeat split; lia.
  - eexists. split; [reflexivity|]. split; [|lia].
    pose proof (Z.div_mod (longest + 1) r ltac:(lia)) as Hdm.
    replace (longest + 1 + (r - (longest + 1) mod r))%Z
      with (((longest + 1) / r + 1) * r)%Z by lia.
    apply Z_mod_mult.
Qed.

(** Decides [dataset_batch] on a batch that is written out. *)
Ltac dataset_batch_by_computation :=
  repeat first [ apply Forall_nil | apply Forall_cons | reflexivity
               | split | (unfold synthesizer_dataset.int32; lia) ].

(** C10. For a non-empty batch of items of the dataset (spectrograms of
    [n_mels >= 1] channels, embeddings of one size) and [r >= 1],
    [collate_synthesizer] returns; the padded mel tensor holds one
    spectrogram of [n_mels] channels per item, all of one time length,
    which is a multiple of [r] and exceeds the length of every
    spectrogram of the batch. *)
Theorem collate_synthesizer_mel_length :
  forall (batch : list synthesizer_dataset.item) (r : Z)
         (hp : audio_utils.hparams) (n_mels embed_size : nat),
    batch <> [] ->
    (1 <= r)%Z ->
    synthesizer_dataset.dataset_batch n_mels embed_size batch ->
    exists chars mel embeds indices L,
      synthesizer_dataset.collate_synthesizer batch r hp
      = py.Return (chars, mel, embeds, indices) /\
      length mel = length batch /\
      Forall (fun y => length y = n_mels) mel /\
      synthesizer_dataset.time_length mel L /\
      (L mod r = 0)%Z /\
      Forall (fun x =>
                (Z.of_nat (synthesizer_dataset.shape_last
                             (synthesizer_dataset.item_mel x)) < L)%Z) batch.
Proof.
  intros batch r hp n_mels embed_size Hne Hr Hds.
  pose proof (dataset_batch_embeds Hds) as Hembeds.
  destruct Hds as (_ & Hwf & _).
  unfold synthesizer_dataset.collate_synthesizer.
  (* the text *)
  destruct (py_max_upper
              (l := map (fun x => Z.of_nat
                           (length (synthesizer_dataset.item_text x))) batch))
    as (max_x_len & -> & Hx).
  { destruct batch; [contradiction|discriminate]. }
  cbn [py.bind].
  destruct (comprehension_Forall2
              (fun x => synthesizer_dataset.pad1d
                          (synthesizer_dataset.item_text x) max_x_len 0)
              (fun _ y => Z.of_nat (length y) = max_x_len) (l := batch))
    as (chars & -> & Hchars).
  { apply Forall_forall. intros x Hin. apply pad1d_length.
    rewrite Forall_map in Hx. rewrite Forall_forall in Hx. apply Hx, Hin. }
  cbn [py.bind].
  assert (Hcl : Forall (fun y => Z.of_nat (length y) = max_x_len) chars).
  { eapply Forall2_right; [exact Hchars|]. cbn. auto. }
  rewrite np_stack_same.
  2:{ eapply Forall2_length_nonempty; eassumption. }
  2:{ rewrite Forall_forall in Hcl. intros a b Ha Hb.
      apply Nat.eqb_eq. apply Hcl in Ha, Hb. lia. }
  cbn [py.bind].
  (* the spectrograms *)
  destruct (py_max_upper
              (l := map (fun x => Z.of_nat
                           (synthesizer_dataset.shape_last
                              (synthesizer_dataset.item_mel x))) batch))
    as (longest & -> & Hs).
  { destruct batch; [contradiction|discriminate]. }
  cbn [py.bind].
  destruct (padded_length longest Hr) as (L & -> & Hmod & Hlong).
  cbn [py.bind].
  rewrite Forall_map in Hs.
  set (pad_value := if audio_utils.symmetric_mels hp
                    then (-1 * audio_utils.max_abs_value hp)%Q else 0%Q).
  destruct (comprehension_Forall2
              (fun x => synthesizer_dataset.pad2d
                          (synthesizer_dataset.item_mel x) L pad_value)
              (fun _ y => length y = n_mels /\
                          Forall (fun row => Z.of_nat (length row) = L) y)
              (l := batch))
    as (mel & -> & Hmel).
  { unfold synthesizer_dataset.well_formed_batch in Hwf.
    rewrite Forall_forall in *. intros x Hin.
    destruct (Hwf x Hin) as [Hn Hrect]. specialize (Hs x Hin). cbn in Hs.
    destruct (pad2d_shape pad_value Hrect (max_len := L)) as (y & Hy & Hlen & Hrows);
      [lia|].
    exists y. repeat split; [exact Hy|lia|exact Hrows]. }
  cbn [py.bind].
  assert (Hml : Forall (fun y => length y = n_mels /\
                          Forall (fun row => Z.of_nat (length row) = L) y) mel).
  { eapply Forall2_right; [exact Hmel|]. cbn. auto. }
  rewrite np_stack_same.
  2:{ eapply Forall2_length_nonempty; eassumption. }
  2:{ rewrite Forall_forall in Hml. intros a b Ha Hb.
      destruct (Hml a Ha) as [Han Har]. destruct (Hml b Hb) as [Hbn Hbr].
      unfold synthesizer_dataset.same_shape2.
      apply andb_true_iff. split; apply Nat.eqb_eq; [lia|].
      destruct a as [|ra a], b as [|rb b]; cbn in *; try lia.
      inversion Har; inversion Hbr; subst. lia. }
  cbn [py.bind]. rewrite Hembeds. cbn [py.bind].
  eexists _, _, _, _, L. split; [reflexivity|].
  split; [symmetry; eapply Forall2_length; exact Hmel|].
  split; [eapply Forall_impl; [|exact Hml]; cbn; intros y [H _]; exact H|].
  split; [|split; [exact Hmod|]].
  - unfold synthesizer_dataset.time_length.
    eapply Forall_impl; [|exact Hml]. cbn. intros y [_ H]. exact H.
  - eapply Forall_impl; [|exact Hs]. cbn. intros x H. lia.
Qed.

Lemma collate_synthesizer_mel_length_witness :
  let batch := [([1; 2]%Z, [[1%Q; 2%Q; 3%Q]; [4%Q; 5%Q; 6%Q]],
                 [1%Q; 2%Q], 0%Z);
                ([5]%Z, [[7%Q]; [8%Q]], [3%Q; 4%Q], 1%Z)] in
  let hp := {| audio_utils.allow_clipping_in_normalization := true;
               audio_utils.symmetric_mels := true;
               audio_utils.max_abs_value := 4%Q;
               audio_utils.min_level_db := (-100)%Q |} in
  exists chars mel embeds indices L,
    synthesizer_dataset.collate_synthesizer batch 2 hp
    = py.Return (chars, mel, embeds, indices) /\
    length mel = length batch /\
    Forall (fun y => length y = 2%nat) mel /\
    synthesizer_dataset.time_length mel L /\
    (L mod 2 = 0)%Z /\
    Forall (fun x =>
              (Z.of_nat (synthesizer_dataset.shape_last
                           (synthesizer_dataset.item_mel x)) < L)%Z) batch.
Proof.
  cbn zeta. apply (@collate_synthesizer_mel_length _ 2%Z _ 2 2).
  - discriminate.
  - lia.
  - dataset_batch_by_computation.
Defined.

(** ** Lengths of zipped tensors *)

Section TensorFacts.

Import tensor.

Lemma length_map2 {A B C : Type} (f : A -> B -> C) l1 l2 :
  length (map2 f l1 l2) = Nat.min (length l1) (length l2).
Proof. unfold map2. rewrite length_map. apply length_combine. Qed.

Lemma length_map3 {A B C D : Type} (f : A -> B -> C -> D) l1 l2 l3 :
  length (map3 f l1 l2 l3)
  = Nat.min (Nat.min (length l1) (length l2)) (length l3).
Proof. unfold map3. rewrite length_map2, length_combine. reflexivity. Qed.

Lemma length_imap {A B : Type} (f : nat -> A -> B) l :
  length (imap f l) = length l.
Proof. unfold imap. rewrite length_map2, length_seq. apply Nat.min_id. Qed.

Lemma length_zeros2 b n : length (zeros2 b n) = b.
Proof. apply repeat_length. Qed.

Lemma length_concat_rows {A : Type} (k : nat) (rows : list (list A)) :
  Forall (fun row => length row = k) rows ->
  length (concat rows) = length rows * k.
Proof.
  induction 1 as [|row rows Hrow _ IH]; [reflexivity|].
  cbn. rewrite length_app, IH, Hrow. reflexivity.
Qed.

Lemma chunks_shape {A : Type} (n k : nat) :
  forall l : list A,
    length l = n * k ->
    length (chunks n k l) = n /\
    Forall (fun c => length c = k) (chunks n k l).
Proof.
  induction n as [|n IH]; intros l Hl; cbn.
  - split; [reflexivity|constructor].
  - rewrite Nat.mul_succ_l in Hl.
    destruct (IH (skipn k l)) as [H1 H2].
    { rewrite length_skipn. lia. }
    split; [lia|]. constructor; [|exact H2].
    apply firstn_length_le. lia.
Qed.

Lemma Forall_map2 {A B C : Type} (P : A -> Prop) (Q : B -> Prop)
      (S : C -> Prop) (f : A -> B -> C) :
  (forall a b, P a -> Q b -> S (f a b)) ->
  forall l1 l2, Forall P l1 -> Forall Q l2 -> Forall S (map2 f l1 l2).
Proof.
  intros Hf. induction l1 as [|a l1 IH]; intros l2 H1 H2; [constructor|].
  destruct l2 as [|b l2]; [constructor|].
  inversion H1; subst. inversion H2; subst. cbn.
  constructor; [apply Hf; assumption|]. apply IH; assumption.
Qed.

Lemma Forall_combine {A B : Type} (P : A -> Prop) (Q : B -> Prop) :
  forall l1 l2, Forall P l1 -> Forall Q l2 ->
                Forall (fun ab => P (fst ab) /\ Q (snd ab)) (combine l1 l2).
Proof.
  induction l1 as [|a l1 IH]; intros l2 H1 H2; [constructor|].
  destruct l2 as [|b l2]; [constructor|].
  inversion H1; subst. inversion H2; subst. cbn.
  constructor; [split; assumption|]. apply IH; assumption.
Qed.

Lemma Forall_map3 {A B C D : Type} (P : A -> Prop) (Q : B -> Prop)
      (S : C -> Prop) (U : D -> Prop) (f : A -> B -> C -> D) :
  (forall a b c, P a -> Q b -> S c -> U (f a b c)) ->
  forall l1 l2 l3, Forall P l1 -> Forall Q l2 -> Forall S l3 ->
                   Forall U (map3 f l1 l2 l3).
Proof.
  intros Hf l1 l2 l3 H1 H2 H3. unfold map3.
  eapply Forall_map2; [|exact (Forall_combine H1 H2)|exact H3].
  cbn. intros [a b] c [Ha Hb] Hc. apply Hf; assumption.
Qed.

Lemma nth_map2 {A B C : Type} (f : A -> B -> C) (da : A) (db : B) (dc : C) :
  forall l1 l2 i,
    (i < length l1)%nat -> (i < length l2)%nat ->
    nth i (map2 f l1 l2) dc = f (nth i l1 da) (nth i l2 db).
Proof.
  unfold map2. induction l1 as [|a l1 IH]; intros l2 i H1 H2; [cbn in H1; lia|].
  destruct l2 as [|b l2]; [cbn in H2; lia|].
  destruct i as [|i]; [reflexivity|]. cbn in *. apply IH; lia.
Qed.

Local Open Scope R_scope.

Lemma shape2_add2 (a c : tensor2) (b n : nat) :
  shape2 a b n -> shape2 c b n -> shape2 (add2 a c) b n.
Proof.
  intros [Ha Hra] [Hc Hrc]. unfold add2, vadd. split.
  - rewrite length_map2. unfold tensor2, vec in *. lia.
  - eapply Forall_map2; [|exact Hra|exact Hrc].
    cbn. intros u v Hu Hv. rewrite length_map2. unfold vec in *. lia.
Qed.

(** Tensor addition adds position by position. *)
Lemma entry_add2 (a c : tensor2) (b n i j : nat) :
  shape2 a b n -> shape2 c b n -> (i < b)%nat -> (j < n)%nat ->
  entry (add2 a c) i j = entry a i j + entry c i j.
Proof.
  intros [Ha Hra] [Hc Hrc] Hi Hj. unfold entry, add2, vadd.
  rewrite (@nth_map2 vec vec vec (fun v w : vec => map2 Rplus v w)
             [] [] [] a c i)
    by (unfold tensor2, vec in *; lia).
  rewrite Forall_forall in Hra, Hrc.
  assert (H1 : length (nth i a []) = n)
    by (apply Hra, nth_In; unfold tensor2, vec in *; lia).
  assert (H2 : length (nth i c []) = n)
    by (apply Hrc, nth_In; unfold tensor2, vec in *; lia).
  apply (@nth_map2 R R R Rplus 0 0 0 (nth i a []) (nth i c []) j);
    unfold vec in *; lia.
Qed.

Lemma entry_fold_add2 (b n i j : nat) (ws : list tensor2) :
  forall c : tensor2,
    shape2 c b n -> Forall (fun w => shape2 w b n) ws ->
    (i < b)%nat -> (j < n)%nat ->
    entry (fold_left add2 ws c) i j
    = fold_left (fun s w => s + entry w i j) ws (entry c i j).
Proof.
  induction ws as [|w ws IH]; intros c Hc Hws Hi Hj; [reflexivity|].
  inversion Hws; subst. cbn [fold_left].
  rewrite IH by (try apply shape2_add2; assumption).
  rewrite (@entry_add2 c w b n) by assumption. reflexivity.
Qed.

Lemma shape2_fold_add2 (b n : nat) (ws : list tensor2) :
  forall c : tensor2,
    shape2 c b n -> Forall (fun w => shape2 w b n) ws ->
    shape2 (fold_left add2 ws c) b n.
Proof.
  induction ws as [|w ws IH]; intros c Hc Hws; [exact Hc|].
  inversion Hws; subst. cbn [fold_left].
  apply IH; [apply shape2_add2|]; assumption.
Qed.

Lemma sum_exp_pos (u : vec) : u <> [] -> 0 < sum (map exp u).
Proof.
  unfold sum.
  assert (G : forall v, 0 <= fold_right Rplus 0 (map exp v)).
  { induction v as [|x v IH]; cbn; [lra|].
    pose proof (exp_pos x). lra. }
  destruct u as [|x u]; [contradiction|]. intros _. cbn.
  pose proof (exp_pos x). specialize (G u). lra.
Qed.

Lemma softmax_positive (u : vec) (w : R) : In w (softmax u) -> 0 < w.
Proof.
  unfold softmax. intros H. apply in_map_iff in H.
  destruct H as (x & <- & Hx).
  apply Rdiv_lt_0_compat; [apply exp_pos|].
  apply sum_exp_pos. intros ->. contradiction.
Qed.

Lemma sum_map_div (f : R -> R) (s : R) (u : vec) :
  sum (map (fun x => f x / s) u) = sum (map f u) / s.
Proof.
  unfold sum. induction u as [|x u IH]; cbn; [unfold Rdiv; ring|].
  rewrite IH. unfold Rdiv. ring.
Qed.

Lemma softmax_sum (u : vec) : u <> [] -> sum (softmax u) = 1.
Proof.
  intros Hu. unfold softmax. rewrite sum_map_div.
  pose proof (sum_exp_pos Hu). field. lra.
Qed.

End TensorFacts.

(** ** Location-sensitive attention *)

Section AttentionFacts.

Import tensor tacotron.
Local Open Scope R_scope.

Lemma weights_unsqueeze (ws : tensor2) :
  LSA.weights (map (fun row => [row]) ws) = ws.
Proof.
  unfold LSA.weights. rewrite map_map. cbn.
  rewrite <- (map_id ws) at 2. apply map_ext. intros row. apply app_nil_r.
Qed.

(** What one call computes, from the accumulator it starts with. *)
Lemma LSA_forward_spec self enc query t chars scores self' :
  LSA.forward self enc query t chars = py.Return (scores, self') ->
  exists location,
    (if (t =? 0)%Z then location = LSA.zero_state enc
     else LSA.cumulative self = Some location) /\
    LSA.weights scores
    = map softmax (mul2 (map3 (LSA.energy self) enc query location)
                        (LSA.valid_mask chars)) /\
    LSA.cumulative self' = Some (add2 location (LSA.weights scores)) /\
    LSA.attention self' = Some (LSA.weights scores) /\
    LSA.energy self' = LSA.energy self.
Proof.
  unfold LSA.forward. destruct (t =? 0)%Z.
  - cbn. intros H. injection H as <- <-. rewrite weights_unsqueeze.
    exists (LSA.zero_state enc). repeat split.
  - destruct (LSA.cumulative self) as [location|] eqn:Hc; [|discriminate].
    intros H. injection H as <- <-. rewrite weights_unsqueeze.
    exists location. repeat split.
Qed.

(** A call succeeds as soon as the accumulator exists. *)
Lemma LSA_forward_total self enc query t chars :
  t = 0%Z \/ LSA.cumulative self <> None ->
  exists scores self',
    LSA.forward self enc query t chars = py.Return (scores, self').
Proof.
  unfold LSA.forward. intros [-> | Hc].
  - cbn. eexists _, _. reflexivity.
  - destruct (t =? 0)%Z; cbn; [eexists _, _; reflexivity|].
    destruct (LSA.cumulative self); [eexists _, _; reflexivity|contradiction].
Qed.

(** Every weight a call returns is positive, padding or not, and the
    weights of a batch element add up to 1 over all its positions. *)
Lemma LSA_forward_weights_positive self enc query t chars scores self' :
  LSA.forward self enc query t chars = py.Return (scores, self') ->
  forall i j w, LSA.weight_at scores i j w -> 0 < w.
Proof.
  intros H i j w (row & Hrow & Hw).
  destruct (LSA_forward_spec _ _ _ _ _ H) as (loc & _ & Hws & _).
  rewrite Hws in Hrow. apply nth_error_In in Hrow, Hw.
  apply in_map_iff in Hrow. destruct Hrow as (u & <- & _).
  exact (softmax_positive _ _ Hw).
Qed.

Lemma LSA_forward_weights_sum self enc query t chars scores self' :
  LSA.forward self enc query t chars = py.Return (scores, self') ->
  forall row, In row (LSA.weights scores) -> row <> [] -> sum row = 1.
Proof.
  intros H row Hrow Hne.
  destruct (LSA_forward_spec _ _ _ _ _ H) as (loc & _ & Hws & _).
  rewrite Hws in Hrow. apply in_map_iff in Hrow.
  destruct Hrow as (u & <- & _). apply softmax_sum.
  intros ->. apply Hne. reflexivity.
Qed.

End AttentionFacts.

(** C1. A sequence of one character followed by one padding position,
    scored with all-zero energies: the call returns weight 1/2 for the
    character and weight 1/2 for the padding position, so the padding
    weight is not 0 and the weights over the valid positions do not add
    up to 1. *)
Theorem LSA_forward_padding_weight :
  let self := {| tacotron.LSA.energy := fun _ _ _ => [0; 0]%R;
                 tacotron.LSA.cumulative := None;
                 tacotron.LSA.attention := None |} in
  let chars := [[7; 0]%Z] in
  exists scores self',
    tacotron.LSA.forward self [[[0]; [0]]]%R [[0]]%R 0 chars
    = py.Return (scores, self') /\
    tacotron.LSA.is_padding chars 0 1 /\
    tacotron.LSA.weight_at scores 0 0 (1 / 2)%R /\
    tacotron.LSA.weight_at scores 0 1 (1 / 2)%R.
Proof.
  cbn zeta. eexists _, _. split; [reflexivity|]. split.
  - exists [7; 0]%Z. split; reflexivity.
  - split; (eexists; split; [reflexivity|]); cbn; f_equal;
      unfold tensor.sum; cbn;
      rewrite ?Rmult_0_l, ?Rmult_0_r, exp_0; lra.
Qed.

Section AccumulatorFacts.

Import tensor tacotron.
Local Open Scope R_scope.

Variables b T d : nat.
Variable enc : tensor3.
Variable chars : list (list Z).

Hypothesis enc_shape : shape3 enc b T d.
Hypothesis chars_batch : length chars = b.
Hypothesis chars_rows : Forall (fun row => length row = T) chars.

Lemma shape2_zero_state : shape2 (LSA.zero_state enc) b T.
Proof.
  destruct enc_shape as [Hb Hrows]. unfold LSA.zero_state, zeros2, zeros.
  split; [rewrite repeat_length; exact Hb|].
  destruct enc as [|m rest]; [constructor|].
  apply Forall_forall. intros row Hrow. apply repeat_spec in Hrow. subst row.
  rewrite repeat_length. inversion Hrows as [|? ? [Hm _] _]. exact Hm.
Qed.

Lemma entry_zero_state (i j : nat) :
  (i < b)%nat -> (j < T)%nat -> entry (LSA.zero_state enc) i j = 0.
Proof.
  intros Hi Hj. destruct enc_shape as [Hb _].
  unfold entry, LSA.zero_state, zeros2, zeros.
  rewrite nth_repeat_lt by (unfold tensor3, tensor2, vec in Hb |- *; lia).
  apply nth_repeat.
Qed.

(** A call on fitting arguments returns weights of shape [(b, T)] and
    leaves the accumulator it started from plus these weights. *)
Lemma LSA_forward_shaped self query t :
  LSA.built self d -> shape2 query b d ->
  (t = 0%Z \/ exists c, LSA.cumulative self = Some c /\ shape2 c b T) ->
  exists scores self' loc,
    LSA.forward self enc query t chars = py.Return (scores, self') /\
    (if (t =? 0)%Z then loc = LSA.zero_state enc
     else LSA.cumulative self = Some loc) /\
    shape2 loc b T /\
    shape2 (LSA.weights scores) b T /\
    LSA.cumulative self' = Some (add2 loc (LSA.weights scores)) /\
    LSA.built self' d.
Proof.
  intros Hbuilt [Hq Hqrows] Hfit.
  destruct (@LSA_forward_total self enc query t chars) as (scores & self' & H).
  { destruct Hfit as [Ht | (c & Hc & _)]; [left; exact Ht|].
    right. rewrite Hc. discriminate. }
  destruct (LSA_forward_spec _ _ _ _ _ H)
    as (loc & Hloc & Hws & Hcum & _ & Hen).
  exists scores, self', loc. split; [exact H|]. split; [exact Hloc|].
  assert (Hl : shape2 loc b T).
  { destruct (t =? 0)%Z eqn:E.
    - subst loc. exact shape2_zero_state.
    - destruct Hfit as [Ht | (c & Hc & Hshape)]; [lia|].
      assert (c = loc) by congruence. subst c. exact Hshape. }
  split; [exact Hl|]. destruct Hl as [Hlb Hlrows].
  destruct enc_shape as [Heb Herows].
  split; [|split; [exact Hcum|]].
  - rewrite Hws. split.
    + rewrite length_map. unfold mul2, LSA.valid_mask.
      rewrite length_map2, length_map3, length_map.
      unfold tensor3, tensor2, vec in *. lia.
    + apply Forall_map. unfold mul2.
      eapply Forall_impl;
        [|eapply (@Forall_map2 _ _ _ (fun u : vec => length u = T)
                    (fun v : vec => length v = T)
                    (fun w : vec => length w = T))].
      * cbn. intros u Hu. unfold softmax. rewrite length_map. exact Hu.
      * intros u v Hu Hv. rewrite length_map2. unfold vec in *. lia.
      * eapply (@Forall_map3 _ _ _ _
                  (fun e : tensor2 =>
                     length e = T /\ Forall (fun row => length row = d) e)
                  (fun q : vec => length q = d)
                  (fun l : vec => length l = T));
          [|exact Herows|exact Hqrows|exact Hlrows].
        intros e q l [He Hed] Hql Hll. rewrite Hbuilt; try assumption.
        unfold vec in *. lia.
      * unfold LSA.valid_mask. apply Forall_map.
        eapply Forall_impl; [|exact chars_rows].
        cbn. intros row Hrow. rewrite length_map. exact Hrow.
  - unfold LSA.built. rewrite Hen. exact Hbuilt.
Qed.

(** The calls of a sequence after its first one add their weights to
    the accumulator, one after the other. *)
Lemma forward_steps_accumulate calls :
  forall self c,
    LSA.built self d ->
    LSA.cumulative self = Some c -> shape2 c b T ->
    Forall (fun call => shape2 (fst call) b d /\ snd call <> 0%Z) calls ->
    exists ws self',
      LSA.forward_steps self enc chars calls = py.Return (ws, self') /\
      length ws = length calls /\
      Forall (fun w => shape2 w b T) ws /\
      LSA.cumulative self' = Some (fold_left add2 ws c).
Proof.
  induction calls as [|[query t] calls IH]; intros self c Hbuilt Hc Hshape Hts.
  - exists [], self. repeat split; [constructor|exact Hc].
  - apply Forall_cons_iff in Hts. destruct Hts as [[Hq Ht] Hts'].
    cbn in Hq, Ht.
    destruct (@LSA_forward_shaped self query t Hbuilt Hq)
      as (scores & self1 & loc & Hrun & Hloc & Hl & Hw & Hc1 & Hb1).
    { right. exists c. split; assumption. }
    destruct (t =? 0)%Z eqn:E; [lia|].
    assert (loc = c) by congruence. subst loc.
    destruct (IH self1 _ Hb1 Hc1 (shape2_add2 Hshape Hw) Hts')
      as (ws & self2 & Hruns & Hlen & Hws & Hc2).
    exists (LSA.weights scores :: ws), self2.
    cbn [LSA.forward_steps]. rewrite Hrun. cbn [py.bind]. rewrite Hruns.
    cbn [py.bind]. split; [reflexivity|]. split; [cbn; lia|].
    split; [constructor; assumption|exact Hc2].
Qed.

End AccumulatorFacts.

(** C6. An attention module built for projections of width [d] processes
    the steps of a sequence of [b >= 1] batch elements and [T >= 1]
    positions, a
    first call with step index 0 and later calls with other step indices,
    on queries that fit. Every call returns weights of shape [(b, T)],
    and the accumulator ends as a tensor of shape [(b, T)] whose every
    entry is the sum of the weights of all these steps at that position,
    added to zero in step order. A call whose step index is not 0 adds
    its weights, position by position, to what the accumulator held; a
    call with step index 0 starts again from zero. *)
Theorem LSA_cumulative_is_sum :
  forall (b T d : nat) (enc : tensor.tensor3) (chars : list (list Z))
         (self : tacotron.LSA.instance) (query0 : tensor.tensor2)
         (calls : list (tensor.tensor2 * Z)),
    (1 <= b)%nat -> (1 <= T)%nat ->
    tensor.shape3 enc b T d ->
    length chars = b -> Forall (fun row => length row = T) chars ->
    tacotron.LSA.built self d ->
    tensor.shape2 query0 b d ->
    Forall (fun call => tensor.shape2 (fst call) b d /\ snd call <> 0%Z)
           calls ->
    (exists ws self' acc,
        tacotron.LSA.forward_steps self enc chars ((query0, 0%Z) :: calls)
        = py.Return (ws, self') /\
        length ws = S (length calls) /\
        Forall (fun w => tensor.shape2 w b T) ws /\
        tacotron.LSA.cumulative self' = Some acc /\
        tensor.shape2 acc b T /\
        acc = fold_left tensor.add2 ws (tacotron.LSA.zero_state enc) /\
        forall i j, (i < b)%nat -> (j < T)%nat ->
          tensor.entry acc i j
          = fold_left (fun s w => (s + tensor.entry w i j)%R) ws 0%R) /\
    (forall self c query t,
        tacotron.LSA.built self d -> tensor.shape2 query b d ->
        tacotron.LSA.cumulative self = Some c -> tensor.shape2 c b T ->
        t <> 0%Z ->
        exists scores self',
          tacotron.LSA.forward self enc query t chars
          = py.Return (scores, self') /\
          tensor.shape2 (tacotron.LSA.weights scores) b T /\
          tacotron.LSA.cumulative self'
          = Some (tensor.add2 c (tacotron.LSA.weights scores)) /\
          forall i j, (i < b)%nat -> (j < T)%nat ->
            tensor.entry (tensor.add2 c (tacotron.LSA.weights scores)) i j
            = (tensor.entry c i j
               + tensor.entry (tacotron.LSA.weights scores) i j)%R) /\
    (forall self query,
        tacotron.LSA.built self d -> tensor.shape2 query b d ->
        exists scores self',
          tacotron.LSA.forward self enc query 0 chars
          = py.Return (scores, self') /\
          tensor.shape2 (tacotron.LSA.weights scores) b T /\
          tacotron.LSA.cumulative self'
          = Some (tensor.add2 (tacotron.LSA.zero_state enc)
                              (tacotron.LSA.weights scores)) /\
          forall i j, (i < b)%nat -> (j < T)%nat ->
            tensor.entry (tensor.add2 (tacotron.LSA.zero_state enc)
                                      (tacotron.LSA.weights scores)) i j
            = tensor.entry (tacotron.LSA.weights scores) i j).
Proof.
  intros b T d enc chars self query0 calls _ _ Henc Hcb Hcr Hbuilt Hq0
         Hcalls.
  pose proof (shape2_zero_state Henc) as Hzero.
  split; [|split].
  - destruct (@LSA_forward_shaped b T d enc chars Henc Hcb Hcr self query0 0%Z
                Hbuilt Hq0 ltac:(left; reflexivity))
      as (scores & self1 & loc & Hrun & Hloc & Hl & Hw & Hc1 & Hb1).
    cbn in Hloc. subst loc.
    destruct (@forward_steps_accumulate b T d enc chars Henc Hcb Hcr calls
                self1 _ Hb1 Hc1 (shape2_add2 Hzero Hw) Hcalls)
      as (ws & self2 & Hruns & Hlen & Hws & Hc2).
    exists (tacotron.LSA.weights scores :: ws), self2,
           (fold_left tensor.add2 (tacotron.LSA.weights scores :: ws)
                      (tacotron.LSA.zero_state enc)).
    assert (Hall : Forall (fun w => tensor.shape2 w b T)
                          (tacotron.LSA.weights scores :: ws))
      by (constructor; assumption).
    cbn [tacotron.LSA.forward_steps]. rewrite Hrun. cbn [py.bind].
    rewrite Hruns. cbn [py.bind].
    split; [reflexivity|]. split; [cbn; lia|]. split; [exact Hall|].
    split; [exact Hc2|].
    split; [apply shape2_fold_add2; assumption|]. split; [reflexivity|].
    intros i j Hi Hj.
    rewrite (@entry_fold_add2 b T i j) by assumption.
    rewrite (entry_zero_state chars Henc Hcb) by assumption. reflexivity.
  - intros self0 c query t Hb0 Hq Hc Hshape Ht.
    destruct (@LSA_forward_shaped b T d enc chars Henc Hcb Hcr self0 query t
                Hb0 Hq ltac:(right; exists c; split; assumption))
      as (scores & self1 & loc & Hrun & Hloc & Hl & Hw & Hc1 & _).
    destruct (t =? 0)%Z eqn:E; [lia|].
    assert (loc = c) by congruence. subst loc.
    exists scores, self1. split; [exact Hrun|]. split; [exact Hw|].
    split; [exact Hc1|].
    intros i j Hi Hj. apply (@entry_add2 _ _ b T); assumption.
  - intros self0 query Hb0 Hq.
    destruct (@LSA_forward_shaped b T d enc chars Henc Hcb Hcr self0 query 0%Z
                Hb0 Hq ltac:(left; reflexivity))
      as (scores & self1 & loc & Hrun & Hloc & Hl & Hw & Hc1 & _).
    cbn in Hloc. subst loc.
    exists scores, self1. split; [exact Hrun|]. split; [exact Hw|].
    split; [exact Hc1|].
    intros i j Hi Hj. rewrite (@entry_add2 _ _ b T) by assumption.
    rewrite (entry_zero_state chars Henc Hcb) by assumption. apply Rplus_0_l.
Qed.

Lemma LSA_cumulative_is_sum_witness :
  let self := {| tacotron.LSA.energy :=
                   fun enc_proj _ _ => map (fun _ => 0%R) enc_proj;
                 tacotron.LSA.cumulative := None;
                 tacotron.LSA.attention := None |} in
  exists ws self' acc,
    tacotron.LSA.forward_steps self [[[0]; [0]]]%R [[7; 0]%Z]
      [([[0]]%R, 0%Z); ([[0]]%R, 5%Z)]
    = py.Return (ws, self') /\
    length ws = 2%nat /\
    Forall (fun w => tensor.shape2 w 1 2) ws /\
    tacotron.LSA.cumulative self' = Some acc /\
    tensor.shape2 acc 1 2 /\
    acc = fold_left tensor.add2 ws
            (tacotron.LSA.zero_state [[[0]; [0]]]%R) /\
    forall i j, (i < 1)%nat -> (j < 2)%nat ->
      tensor.entry acc i j
      = fold_left (fun s w => (s + tensor.entry w i j)%R) ws 0%R.
Proof.
  cbn zeta.
  refine (proj1 (@LSA_cumulative_is_sum 1 2 1 [[[0]; [0]]]%R [[7; 0]%Z] _
                   [[0]]%R [([[0]]%R, 5%Z)] _ _ _ _ _ _ _ _)).
  - lia.
  - lia.
  - repeat constructor.
  - reflexivity.
  - repeat constructor.
  - intros e q l _ _ _. apply length_map.
  - repeat constructor.
  - constructor; [|constructor]. split; [repeat constructor|discriminate].
Defined.

(** ** One decoder step *)

Section DecoderFacts.

Import tensor tacotron.

Lemma Linear_forward_length (l : Linear.instance) (x : vec) :
  Linear.bias l = None ->
  length (Linear.forward l x) = length (Linear.weight l).
Proof. unfold Linear.forward. intros ->. apply length_map. Qed.

Lemma length_slice_to {A : Type} (r : Z) (l : list A) :
  (0 <= r)%Z -> length (slice_to r l) = Nat.min (Z.to_nat r) (length l).
Proof.
  intros Hr. unfold slice_to.
  destruct (r >=? 0)%Z eqn:E; [apply length_firstn|lia].
Qed.

Lemma view3_shape (m : tensor2) (b n k : nat) :
  length m = b -> Forall (fun row => length row = n * k) m ->
  exists v, view3 m b n k = py.Return v /\ shape3 v b n k.
Proof.
  intros Hb Hrows. unfold view3.
  pose proof (length_concat_rows Hrows) as Hflat. subst b.
  replace (length (concat m) =? length m * n * k) with true
    by (symmetry; apply Nat.eqb_eq; rewrite <- Nat.mul_assoc; exact Hflat).
  eexists. split; [reflexivity|].
  destruct (chunks_shape (length m) (n * k) (concat m) Hflat)
    as [Hlen Hchunks].
  split; [rewrite length_map; exact Hlen|].
  apply Forall_map. eapply Forall_impl; [|exact Hchunks].
  cbn. intros c Hc. apply chunks_shape. exact Hc.
Qed.

Lemma shape3_slice (v : tensor3) (b n k : nat) (r : Z) :
  (0 <= r)%Z -> shape3 v b n k ->
  shape3 (map (map (slice_to r)) v) b n (Nat.min (Z.to_nat r) k).
Proof.
  intros Hr [Hlen Hv]. split; [rewrite length_map; exact Hlen|].
  apply Forall_map. eapply Forall_impl; [|exact Hv].
  cbn. intros m [Hm Hrows]. split; [rewrite length_map; exact Hm|].
  apply Forall_map. eapply Forall_impl; [|exact Hrows].
  cbn. intros row Hrow. rewrite length_slice_to, Hrow by exact Hr.
  reflexivity.
Qed.

Lemma length_zero_state (enc : tensor3) :
  length (LSA.zero_state enc) = length enc.
Proof. apply length_zeros2. Qed.

(** On [b] batch elements the attention returns [b] rows of weights and
    leaves an accumulator of [b] rows. *)
Lemma LSA_forward_length self encp query t chars b :
  length encp = b -> length query = b -> length chars = b ->
  (t = 0%Z \/ exists c, LSA.cumulative self = Some c /\ length c = b) ->
  exists scores self',
    LSA.forward self encp query t chars = py.Return (scores, self') /\
    length scores = b /\
    exists c', LSA.cumulative self' = Some c' /\ length c' = b.
Proof.
  intros He Hq Hch Hfit.
  destruct (@LSA_forward_total self encp query t chars)
    as (scores & self' & H).
  { destruct Hfit as [Ht | (c & Hc & _)]; [left; exact Ht|].
    right. rewrite Hc. discriminate. }
  exists scores, self'. split; [exact H|].
  destruct (LSA_forward_spec _ _ _ _ _ H) as (loc & Hloc & Hws & Hcum & _).
  assert (Hl : length loc = b).
  { destruct (t =? 0)%Z eqn:E.
    - subst loc. rewrite length_zero_state. exact He.
    - destruct Hfit as [Ht | (c & Hc & Hlen)]; [lia|]. congruence. }
  assert (Hs : length (LSA.weights scores) = b).
  { rewrite Hws, length_map. unfold mul2, LSA.valid_mask.
    rewrite length_map2, length_map3, length_map. lia. }
  split.
  - unfold LSA.weights in Hs. rewrite length_map in Hs. exact Hs.
  - eexists. split; [exact Hcum|]. unfold add2. rewrite length_map2. lia.
Qed.

Ltac tensor_length :=
  unfold cat, add2, mul2, PreNet.forward, dropout, Decoder.zoneout,
         LSA.weights, LSA.valid_mask in *;
  repeat rewrite ?length_map, ?length_map2, ?length_map3, ?length_imap,
                 ?length_combine, ?length_zeros2 in *;
  unfold tensor3, tensor2, vec in *;
  try lia.

(** One decoder step on [b] batch elements returns, and every tensor it
    returns again holds [b] batch elements. *)
Lemma Decoder_forward_shapes self rng enc encp prenet_in hs cs ctx t chars b :
  Decoder.batch_of b enc encp prenet_in hs cs ctx chars ->
  Decoder.mel_proj_built self ->
  Decoder.attention_fits self b t ->
  (0 <= Decoder.r self)%Z ->
  exists mels scores hs' cs' ctx' stop self',
    Decoder.forward self rng enc encp prenet_in hs cs ctx t chars
    = py.Return ((mels, scores, hs', cs', ctx', stop), self') /\
    shape3 mels b (Decoder.n_mels self)
           (Nat.min (Z.to_nat (Decoder.r self)) Decoder.max_r) /\
    length scores = b /\
    (length (fst (fst hs')) = b /\ length (snd (fst hs')) = b /\
     length (snd hs') = b /\ length (fst cs') = b /\ length (snd cs') = b /\
     length ctx' = b) /\
    (exists S, length S = b /\
               stop = map (fun s => map sigmoid
                                        (Linear.forward (Decoder.stop_proj self) s))
                          S) /\
    (exists a c, self' = Decoder.set_attn_net self a /\
                 LSA.cumulative a = Some c /\ length c = b).
Proof.
  destruct hs as [[attn_hidden rnn1_hidden] rnn2_hidden].
  destruct cs as [rnn1_cell rnn2_cell].
  unfold Decoder.batch_of. cbn [fst snd].
  intros (He & Hep & Hp & Hah & Hh1 & Hh2 & Hc1 & Hc2 & Hctx & Hch)
         [Hbias Hweight] Hfit Hr.
  unfold Decoder.forward.
  set (query := map2 (Decoder.attn_rnn self)
                     (cat ctx (PreNet.forward (Decoder.prenet self) rng prenet_in))
                     attn_hidden).
  assert (Hq : length query = b) by (subst query; tensor_length).
  destruct (@LSA_forward_length (Decoder.attn_net self) encp query t chars b
              Hep Hq Hch Hfit)
    as (scores & a & Hlsa & Hsl & c' & Hc' & Hcl).
  rewrite Hlsa. cbn [py.bind].
  set (context := map (@concat R) (map2 matmul scores enc)).
  assert (Hcontext : length context = b) by (subst context; tensor_length).
  set (x0 := map (Linear.forward (Decoder.rnn_input self)) (cat context query)).
  assert (Hx0 : length x0 = b) by (subst x0; tensor_length).
  set (hc1 := map3 (fun xi h c => Decoder.res_rnn1 self xi (h, c))
                   x0 rnn1_hidden rnn1_cell).
  assert (Hhc1 : length hc1 = b) by (subst hc1; tensor_length).
  set (h1 := if Decoder.training self
             then Decoder.zoneout (zone1 rng) rnn1_hidden (map fst hc1)
             else map fst hc1).
  assert (Hh1' : length h1 = b)
    by (subst h1; destruct (Decoder.training self); tensor_length).
  set (x1 := add2 x0 h1).
  assert (Hx1 : length x1 = b) by (subst x1; tensor_length).
  set (hc2 := map3 (fun xi h c => Decoder.res_rnn2 self xi (h, c))
                   x1 rnn2_hidden rnn2_cell).
  assert (Hhc2 : length hc2 = b) by (subst hc2; tensor_length).
  set (h2 := if Decoder.training self
             then Decoder.zoneout (zone2 rng) rnn2_hidden (map fst hc2)
             else map fst hc2).
  assert (Hh2' : length h2 = b)
    by (subst h2; destruct (Decoder.training self); tensor_length).
  set (x2 := add2 x1 h2).
  assert (Hx2 : length x2 = b) by (subst x2; tensor_length).
  destruct (@view3_shape (map (Linear.forward (Decoder.mel_proj self)) x2)
              (length enc) (Decoder.n_mels self) Decoder.max_r)
    as (v & Hv & Hshape).
  { rewrite length_map. lia. }
  { apply Forall_map, Forall_forall. intros row _.
    rewrite Linear_forward_length by exact Hbias. exact Hweight. }
  rewrite Hv. cbn [py.bind].
  eexists _, _, _, _, _, _, _. split; [reflexivity|].
  split; [rewrite <- He; apply shape3_slice; assumption|].
  split; [exact Hsl|]. cbn [fst snd].
  split; [repeat split; tensor_length|].
  split.
  - exists (cat x2 context). split; [tensor_length|].
    rewrite map_map. reflexivity.
  - exists a, c'. repeat split; assumption.
Qed.

End DecoderFacts.

(** ** The decoder loop of [generate] *)

Section GenerateFacts.

Import tensor tacotron.

Lemma last_item_app {A : Type} (l : list A) (a : A) :
  last_item (l ++ [a]) = py.Return a.
Proof. unfold last_item. rewrite rev_app_distr. reflexivity. Qed.

Lemma last_item_nonempty {A : Type} (l : list A) :
  (1 <= length l)%nat -> exists a, last_item l = py.Return a.
Proof.
  destruct l as [|x l] using rev_ind; cbn; [lia|].
  intros _. exists x. apply last_item_app.
Qed.

Lemma last_frame_length (b n k : nat) (earlier : list tensor3) (last : tensor3) :
  (1 <= k)%nat -> shape3 last b n k ->
  exists frame,
    Tacotron.last_frame (earlier ++ [last]) = py.Return frame /\
    length frame = b.
Proof.
  intros Hk [Hb Hshape]. unfold Tacotron.last_frame.
  rewrite last_item_app. cbn [py.bind].
  destruct (comprehension_Forall2
              (py.comprehension (@last_item R))
              (fun (_ : tensor2) (_ : vec) => True) (l := last))
    as (frame & Hframe & Hlen).
  { eapply Forall_impl; [|exact Hshape]. cbn. intros m [_ Hrows].
    destruct (comprehension_Forall2 (@last_item R)
                (fun (_ : vec) (_ : R) => True) (l := m)) as (v & Hv & _).
    - eapply Forall_impl; [|exact Hrows]. cbn. intros row Hrow.
      destruct (@last_item_nonempty R row) as [a Ha]; [lia|].
      exists a. split; [exact Ha|exact I].
    - exists v. split; [exact Hv|exact I]. }
  exists frame. split; [exact Hframe|].
  apply Forall2_length in Hlen. unfold tensor3, tensor2, vec in *. lia.
Qed.

Variable rng : Z -> noise.
Variables enc encp : tensor3.
Variable go_frame : tensor2.
Variable x : list (list Z).
Variable b : nat.
Variable r0 : Z.
Variable sp : Linear.instance.
Variable n : nat.

Hypothesis enc_batch : length enc = b.
Hypothesis encp_batch : length encp = b.
Hypothesis go_batch : length go_frame = b.
Hypothesis x_batch : length x = b.
Hypothesis r_pos : (1 <= r0)%Z.

(** One more step of a started loop leaves it started. *)
Lemma same_decoder_set_attn_net dec a :
  Tacotron.same_decoder r0 sp n dec ->
  Tacotron.same_decoder r0 sp n (Decoder.set_attn_net dec a).
Proof. intros (Hr & Hsp & Hn & Hb & Hw). repeat split; assumption. Qed.

Lemma generate_loop_run ts :
  forall dec hs cs ctx mels0 attn0 stops0,
    Tacotron.same_decoder r0 sp n dec ->
    Tacotron.state_of b hs cs ctx ->
    match ts with
    | [] => True
    | t :: _ => t = 0%Z \/ Tacotron.loop_started b dec mels0
    end ->
    exists mels attn stops dec' toks,
      Tacotron.generate_loop rng enc encp go_frame x ts dec hs cs ctx
                             mels0 attn0 stops0
      = py.Return (mels, attn, stops, dec') /\
      length mels = length mels0 + length toks /\
      stops = stops0 ++ flat_map (fun tok => repeat tok (Z.to_nat r0)) toks /\
      Forall (Tacotron.stop_tokens_of sp) toks /\
      Tacotron.stopped_at_first ts toks.
Proof.
  induction ts as [|t ts IH];
    intros dec hs cs ctx mels0 attn0 stops0 Hdec Hst Hstart.
  - exists mels0, attn0, stops0, dec, []. cbn.
    repeat split; try reflexivity; try lia; try constructor.
    + rewrite app_nil_r. reflexivity.
    + intros H. contradiction H. reflexivity.
    + cbn. lia.
  - destruct Hdec as (Hr & Hsp & Hn & Hmel).
    cbn [Tacotron.generate_loop].
    (* the frame fed to the pre-network *)
    assert (Hin : exists prenet_in,
               (if (t >? 0)%Z then Tacotron.last_frame mels0
                else py.Return go_frame) = py.Return prenet_in /\
               length prenet_in = b).
    { destruct (t >? 0)%Z eqn:Ht.
      - destruct Hstart as [-> | (_ & earlier & last & -> & Hshape)];
          [discriminate|].
        apply (last_frame_length earlier (k := Nat.min (Z.to_nat (Decoder.r dec))
                                                 Decoder.max_r)
                 (n := Decoder.n_mels dec)); [|exact Hshape].
        unfold Decoder.max_r. lia.
      - exists go_frame. split; [reflexivity|exact go_batch]. }
    destruct Hin as (prenet_in & -> & Hp). cbn [py.bind].
    (* the decoder step *)
    destruct Hst as (H1 & H2 & H3 & H4 & H5 & H6).
    destruct (@Decoder_forward_shapes dec (rng t) enc encp prenet_in hs cs ctx
                t x b)
      as (mel_frames & scores & hs' & cs' & ctx' & stop & dec' & Hfw & Hshape
          & _ & Hst' & HS & a & c & Hdec' & Hc & Hcl).
    { repeat split; assumption. }
    { exact Hmel. }
    { destruct Hstart as [-> | ((c & Hc & Hcl) & _)];
        [left; reflexivity|right; exists c; split; assumption]. }
    { lia. }
    rewrite Hfw. cbn [py.bind].
    assert (Hdr : Decoder.r dec' = r0) by (subst dec'; exact Hr).
    rewrite Hdr.
    assert (Htok : Tacotron.stop_tokens_of sp stop).
    { destruct HS as (S & _ & HS). exists S. rewrite <- Hsp. exact HS. }
    destruct (Tacotron.stop_condition stop t) eqn:Hstop.
    + eexists _, _, _, _, [stop]. split; [reflexivity|].
      split; [rewrite length_app; reflexivity|].
      split; [cbn; rewrite app_nil_r; reflexivity|].
      split; [constructor; [exact Htok|constructor]|].
      split; [cbn; lia|]. split; [discriminate|].
      split; [destruct ts; constructor|].
      intros _. destruct ts; exists [], (t, stop); split;
        solve [reflexivity | exact Hstop].
    + destruct (IH dec' hs' cs' ctx' (mels0 ++ [mel_frames])
                  (attn0 ++ [scores])
                  (stops0 ++ repeat stop (Z.to_nat r0)))
        as (mels & attn & stops & dec'' & toks & Hrun & Hlen & Hstops
            & Htoks & Hle & Hne & Hpre & Hlast).
      { subst dec'. apply same_decoder_set_attn_net.
        exact (conj Hr (conj Hsp (conj Hn Hmel))). }
      { exact Hst'. }
      { destruct ts; [exact I|]. right. split.
        - exists c. subst dec'. split; assumption.
        - exists mels0, mel_frames. split; [reflexivity|].
          subst dec'. exact Hshape. }
      exists mels, attn, stops, dec'', (stop :: toks).
      split; [exact Hrun|].
      split; [rewrite Hlen, length_app; cbn; lia|].
      split; [rewrite Hstops, <- app_assoc; reflexivity|].
      split; [constructor; assumption|].
      split; [cbn; lia|]. split; [discriminate|].
      split.
      * cbn [combine]. destruct (combine ts toks) as [|q l] eqn:Hcomb;
          [constructor|].
        change (removelast ((t, stop) :: q :: l))
          with ((t, stop) :: removelast (q :: l)).
        constructor; [exact Hstop|exact Hpre].
      * intros Hlt. cbn in Hlt.
        destruct Hlast as (run & p & Hcomb & Hp'); [lia|].
        exists ((t, stop) :: run), p. cbn [combine]. rewrite Hcomb.
        split; [reflexivity|exact Hp'].
Qed.

End GenerateFacts.

Section WellFormedFacts.

Import tensor tacotron.
Local Open Scope R_scope.

(** Arguments that fit hold [b] batch elements each, and a module that
    is built has the mel projection of [__init__]. *)
Lemma Decoder_fits_batch_of self b T E D L enc encp prenet_in hs cs ctx t
      chars :
  Decoder.fits self b T E D L enc encp prenet_in hs cs ctx t chars ->
  Decoder.batch_of b enc encp prenet_in hs cs ctx chars /\
  Decoder.attention_fits self b t.
Proof.
  intros (_ & _ & [He _] & ([Hep _] & Hch & _ & Hacc) & [Hp _] & [H1 _]
          & [H2 _] & [H3 _] & [H4 _] & [H5 _] & [H6 _]).
  split; [repeat split; assumption|].
  destruct Hacc as [Ht | (c & Hc & [Hlen _])]; [left; exact Ht|].
  right. exists c. split; assumption.
Qed.

Lemma Decoder_built_mel_proj self E D L :
  Decoder.built self E D L -> Decoder.mel_proj_built self.
Proof.
  intros (_ & _ & _ & _ & _ & _ & _ & [[Hlen _] _] & Hbias & _).
  split; assumption.
Qed.

Lemma tiny_decoder_built (r : Z) : Decoder.built (tiny.decoder r) 1 1 1.
Proof.
  split; [cbn; lia|]. split; [cbn; lra|].
  split; [exists 1%nat, 1%nat; repeat split; try (repeat constructor)|].
  { intros x h _ Hh. exact Hh. }
  split; [intros e q l _ _ _; apply length_map|].
  split; [repeat split; repeat constructor|].
  split; [intros x h c _ Hh Hc; split; assumption|].
  split; [intros x h c _ Hh Hc; split; assumption|].
  split; [repeat split; repeat constructor|].
  split; [reflexivity|]. repeat split; repeat constructor.
Qed.

End WellFormedFacts.

(** C9. On well-formed inputs and with a reduction factor [r] between 1
    and [max_r = 20], one decoder step returns a frame group of shape
    [(b, n_mels, r)]. Well-formed: the decoder has the layers [__init__]
    builds for its dimensions, and the arguments of the call hold
    [b >= 1] batch elements of [T >= 1] positions, of the widths these
    layers take, with an attention state that fits the step. *)
Theorem Decoder_forward_frame_group :
  forall (self : tacotron.Decoder.instance) (rng : tacotron.noise)
         (encoder_seq encoder_seq_proj : tensor.tensor3)
         (prenet_in : tensor.tensor2)
         (hidden_states : tacotron.Decoder.states)
         (cell_states : tacotron.Decoder.cells)
         (context_vec : tensor.tensor2) (t : Z) (chars : list (list Z))
         (b T E D L : nat),
    tacotron.Decoder.built self E D L ->
    tacotron.Decoder.fits self b T E D L encoder_seq encoder_seq_proj
                          prenet_in hidden_states cell_states context_vec
                          t chars ->
    (1 <= tacotron.Decoder.r self <= Z.of_nat tacotron.Decoder.max_r)%Z ->
    exists mels scores hs' cs' ctx' stop self',
      tacotron.Decoder.forward self rng encoder_seq encoder_seq_proj prenet_in
                               hidden_states cell_states context_vec t chars
      = py.Return ((mels, scores, hs', cs', ctx', stop), self') /\
      tensor.shape3 mels b (tacotron.Decoder.n_mels self)
                    (Z.to_nat (tacotron.Decoder.r self)).
Proof.
  intros self rng enc encp prenet_in hs cs ctx t chars b T E D L
         Hbuilt Hfits Hr.
  destruct (Decoder_fits_batch_of Hfits) as [Hb Hfit].
  pose proof (Decoder_built_mel_proj Hbuilt) as Hmel.
  destruct (@Decoder_forward_shapes self rng enc encp prenet_in hs cs ctx
              t chars b Hb Hmel Hfit ltac:(lia))
    as (mels & scores & hs' & cs' & ctx' & stop & self' & Hfw & Hshape & _).
  exists mels, scores, hs', cs', ctx', stop, self'. split; [exact Hfw|].
  replace (Z.to_nat (tacotron.Decoder.r self))
    with (Nat.min (Z.to_nat (tacotron.Decoder.r self)) tacotron.Decoder.max_r)
    by lia.
  exact Hshape.
Qed.

Lemma Decoder_forward_frame_group_witness :
  exists mels scores hs' cs' ctx' stop self',
    tacotron.Decoder.forward (tacotron.tiny.decoder 5) tacotron.tiny.quiet
      [[[0]]]%R [[[0]]]%R [[0]]%R ([[0]], [[0]], [[0]])%R ([[0]], [[0]])%R
      [[0]]%R 0 [[1%Z]]
    = py.Return ((mels, scores, hs', cs', ctx', stop), self') /\
    tensor.shape3 mels 1 1 5.
Proof.
  apply (@Decoder_forward_frame_group (tacotron.tiny.decoder 5)
           tacotron.tiny.quiet [[[0]]]%R [[[0]]]%R [[0]]%R
           ([[0]], [[0]], [[0]])%R ([[0]], [[0]])%R [[0]]%R 0%Z [[1%Z]]
           1 1 1 1 1).
  - apply tiny_decoder_built.
  - split; [lia|]. split; [lia|]. split; [repeat constructor|].
    split; [split; [repeat constructor|];
            split; [reflexivity|]; split; [repeat constructor|];
            left; reflexivity|].
    repeat split; repeat constructor.
  - cbn. lia.
Defined.

Section DecodeFacts.

Import tensor tacotron.

Lemma range_from_zero (steps r : Z) :
  (1 <= r)%Z ->
  py.range 0 steps r
  = py.Return (map (fun i => (Z.of_nat i * r)%Z)
                   (seq 0 (py.range_len 0 steps r))) /\
  (Z.of_nat (py.range_len 0 steps r) <= Z.max 0 steps)%Z.
Proof.
  intros Hr. unfold py.range, py.range_len.
  destruct (r =? 0)%Z eqn:E0; [lia|].
  destruct (r >? 0)%Z eqn:E1; [|lia]. split; [reflexivity|].
  destruct (Z.le_gt_cases steps 0) as [Hs|Hs].
  - assert ((steps - 0 + r - 1) / r <= 0)%Z; [|lia].
    apply Z.lt_succ_r, Z.div_lt_upper_bound; lia.
  - assert ((steps - 0 + r - 1) / r <= steps)%Z; [|lia].
    apply Z.lt_succ_r, Z.div_lt_upper_bound; nia.
Qed.

(** [generate] runs its loop to the end on a well-formed model. *)
Lemma decode_run self rng x spk steps :
  Tacotron.well_formed self x spk ->
  exists mels attn stops dec' toks,
    Tacotron.decode self rng x spk steps
    = py.Return (mels, attn, stops, dec') /\
    length mels = length toks /\
    stops = flat_map (fun tok => repeat tok (Z.to_nat (Tacotron.r self))) toks /\
    Forall (Tacotron.stop_tokens_of (Decoder.stop_proj (Tacotron.decoder self)))
           toks /\
    Tacotron.stopped_at_first
      (map (fun i => (Z.of_nat i * Tacotron.r self)%Z)
           (seq 0 (py.range_len 0 steps (Tacotron.r self))))
      toks.
Proof.
  intros (Hr & Hmel & Henc). unfold Tacotron.decode.
  change (Decoder.r (Decoder.set_training (Tacotron.decoder self) false))
    with (Tacotron.r self).
  destruct (range_from_zero steps Hr) as [-> _]. cbn [py.bind].
  set (ts := map (fun i => (Z.of_nat i * Tacotron.r self)%Z)
                 (seq 0 (py.range_len 0 steps (Tacotron.r self)))).
  destruct (@generate_loop_run rng
              (Tacotron.encoder self x spk)
              (map (map (Linear.forward (Tacotron.encoder_proj self)))
                   (Tacotron.encoder self x spk))
              (zeros2 (length x) (Tacotron.n_mels self)) x (length x)
              (Tacotron.r self)
              (Decoder.stop_proj (Tacotron.decoder self))
              (Decoder.n_mels (Tacotron.decoder self))
              Henc ltac:(rewrite length_map; exact Henc)
              ltac:(apply length_zeros2) eq_refl Hr ts
              (Decoder.set_training (Tacotron.decoder self) false)
              (zeros2 (length x) (Tacotron.decoder_dims self),
               zeros2 (length x) (Tacotron.lstm_dims self),
               zeros2 (length x) (Tacotron.lstm_dims self))
              (zeros2 (length x) (Tacotron.lstm_dims self),
               zeros2 (length x) (Tacotron.lstm_dims self))
              (zeros2 (length x)
                 (Tacotron.encoder_dims self
                  + Tacotron.speaker_embedding_size self))
              [] [] [])
    as (mels & attn & stops & dec' & toks & Hrun & Hlen & Hstops & Htoks & Hfirst).
  - destruct Hmel as [Hb Hw]. repeat split; assumption.
  - repeat split; apply length_zeros2.
  - subst ts. destruct (py.range_len 0 steps (Tacotron.r self)); cbn;
      [exact I|left; reflexivity].
  - exists mels, attn, stops, dec', toks.
    split; [exact Hrun|]. split; [exact Hlen|].
    split; [exact Hstops|]. split; assumption.
Qed.

End DecodeFacts.

Section StopFacts.

Import tensor tacotron.

(** The first step of a run either ended it, or did not meet the stop
    condition and the rest is a run over the remaining values. *)
Lemma stopped_at_first_cons t ts tok toks :
  Tacotron.stopped_at_first (t :: ts) (tok :: toks) ->
  (toks = [] /\ (ts <> [] -> Tacotron.stop_condition tok t = true)) \/
  (toks <> [] /\ Tacotron.stop_condition tok t = false /\
   Tacotron.stopped_at_first ts toks).
Proof.
  intros (Hle & Hne & Hpre & Hlast). destruct toks as [|tok2 toks].
  - left. split; [reflexivity|]. intros Hts.
    destruct Hlast as (run & p & Hcomb & Hp).
    { destruct ts; [contradiction|cbn; lia]. }
    cbn in Hcomb. rewrite combine_nil in Hcomb. destruct run as [|q run].
    + injection Hcomb as <-. exact Hp.
    + destruct run; discriminate.
  - right. split; [discriminate|].
    destruct ts as [|t2 ts]; [cbn in Hle; lia|].
    change (removelast (combine (t :: t2 :: ts) (tok :: tok2 :: toks)))
      with ((t, tok) :: removelast (combine (t2 :: ts) (tok2 :: toks))) in Hpre.
    inversion Hpre as [|? ? Hhead Htail]; subst. split; [exact Hhead|].
    split; [cbn in *; lia|]. split; [discriminate|]. split; [exact Htail|].
    intros Hlt. destruct Hlast as (run & p & Hcomb & Hp); [cbn in *; lia|].
    destruct run as [|q run]; [discriminate|].
    cbn [combine app] in Hcomb. injection Hcomb as Hq Hrest.
    exists run, p. split; [exact Hrest|exact Hp].
Qed.

Lemma stopped_at_first_nil_toks t ts :
  ~ Tacotron.stopped_at_first (t :: ts) [].
Proof.
  intros (_ & Hne & _). apply Hne; [discriminate|reflexivity].
Qed.

(** A run over [f n0, f (n0 + 1), ...] read step by step. *)
Lemma stopped_at_first_steps (f : nat -> Z) (len : nat) :
  forall n0 toks,
    Tacotron.stopped_at_first (map f (seq n0 len)) toks ->
    (length toks <= len)%nat /\
    (len <> O -> toks <> []) /\
    (forall i tok, (i + 1 < length toks)%nat -> nth_error toks i = Some tok ->
                   Tacotron.stop_condition tok (f (n0 + i)%nat) = false) /\
    ((length toks < len)%nat ->
     exists tok, nth_error toks (length toks - 1) = Some tok /\
                 Tacotron.stop_condition tok (f (n0 + (length toks - 1))%nat)
                 = true).
Proof.
  induction len as [|len IH]; intros n0 toks Hrun.
  - destruct Hrun as (Hle & _). cbn in Hle.
    destruct toks; [|cbn in Hle; lia].
    repeat split; cbn; try lia.
  - cbn [seq map] in Hrun. destruct toks as [|tok toks].
    { exfalso. exact (stopped_at_first_nil_toks Hrun). }
    destruct (stopped_at_first_cons Hrun)
      as [[-> Hend] | (Hne & Hfalse & Hrest)].
    + repeat split; cbn; try lia; try discriminate.
      intros Hlt. exists tok. split; [reflexivity|].
      rewrite Nat.add_0_r. apply Hend.
      destruct len; [lia|discriminate].
    + destruct (IH (S n0) toks Hrest) as (Hle & _ & Hsteps & Hlast).
      split; [cbn; lia|]. split; [discriminate|]. split.
      * intros [|i] tok' Hi Hnth.
        -- cbn in Hnth. injection Hnth as <-. rewrite Nat.add_0_r.
           exact Hfalse.
        -- replace (n0 + S i)%nat with (S n0 + i)%nat by lia.
           apply Hsteps; [cbn in Hi; lia|exact Hnth].
      * intros Hlt. destruct Hlast as (tok' & Hnth & Htrue); [cbn in Hlt; lia|].
        exists tok'. destruct toks as [|tok2 toks]; [contradiction|].
        cbn [length] in *.
        replace (S (S (length toks)) - 1)%nat with (S (length toks)) by lia.
        replace (S (length toks) - 1)%nat with (length toks) in * by lia.
        split; [exact Hnth|].
        replace (n0 + S (length toks))%nat with (S n0 + length toks)%nat by lia.
        exact Htrue.
Qed.

Lemma stop_condition_true tok t :
  Tacotron.stop_condition tok t = true ->
  Tacotron.all_exceed tok 0.5 = true /\ (10 < t)%Z.
Proof.
  unfold Tacotron.stop_condition. intros H.
  apply andb_true_iff in H. destruct H as [H1 H2]. split; [exact H1|lia].
Qed.

End StopFacts.

(** C2 as the code has it. On a well-formed model [generate] runs its
    decoder loop to an end; step [i] has frame index [t = i * r]. The
    loop ends before the range is used up exactly at the first step where
    every stop probability exceeds the constant 0.5 and the frame index
    exceeds 10: no earlier step met this test, and when values of the
    range were left over the last step met it. *)
Theorem Tacotron_decode_stops_at_first :
  forall (self : tacotron.Tacotron.instance) (rng : Z -> tacotron.noise)
         (x : list (list Z)) (speaker_embedding : option tensor.tensor2)
         (steps : Z),
    tacotron.Tacotron.well_formed self x speaker_embedding ->
    exists mels attn stops dec' toks,
      tacotron.Tacotron.decode self rng x speaker_embedding steps
      = py.Return (mels, attn, stops, dec') /\
      length mels = length toks /\
      stops = flat_map (fun tok =>
                          repeat tok (Z.to_nat (tacotron.Tacotron.r self)))
                       toks /\
      (forall i tok,
          i + 1 < length toks -> nth_error toks i = Some tok ->
          tacotron.Tacotron.all_exceed tok 0.5
          && (Z.of_nat i * tacotron.Tacotron.r self >? 10)%Z = false) /\
      (length toks < py.range_len 0 steps (tacotron.Tacotron.r self) ->
       exists tok,
         nth_error toks (length toks - 1) = Some tok /\
         tacotron.Tacotron.all_exceed tok 0.5 = true /\
         (10 < Z.of_nat (length toks - 1) * tacotron.Tacotron.r self)%Z).
Proof.
  intros self rng x spk steps Hwf.
  destruct (decode_run rng steps Hwf)
    as (mels & attn & stops & dec' & toks & Hrun & Hlen & Hstops & _ & Hfirst).
  apply stopped_at_first_steps in Hfirst.
  destruct Hfirst as (_ & _ & Hsteps & Hlast).
  exists mels, attn, stops, dec', toks.
  split; [exact Hrun|]. split; [exact Hlen|]. split; [exact Hstops|]. split.
  - intros i tok Hi Hnth. exact (Hsteps i tok Hi Hnth).
  - intros Hlt. destruct (Hlast Hlt) as (tok & Hnth & Htrue).
    exists tok. split; [exact Hnth|].
    apply stop_condition_true in Htrue. exact Htrue.
Qed.

(** C3 as the code has it. On a well-formed model [generate] runs at most
    [len(range(0, steps, r))] decoder steps, which is at most [steps], and
    when it ends before the range is used up the frame index [t] of its
    last step, [r] times the number of earlier steps, exceeds 10. *)
Theorem Tacotron_decode_step_bounds :
  forall (self : tacotron.Tacotron.instance) (rng : Z -> tacotron.noise)
         (x : list (list Z)) (speaker_embedding : option tensor.tensor2)
         (steps : Z),
    tacotron.Tacotron.well_formed self x speaker_embedding ->
    exists res,
      tacotron.Tacotron.decode self rng x speaker_embedding steps
      = py.Return res /\
      tacotron.Tacotron.steps_run res
      <= py.range_len 0 steps (tacotron.Tacotron.r self) /\
      (Z.of_nat (tacotron.Tacotron.steps_run res) <= Z.max 0 steps)%Z /\
      (tacotron.Tacotron.steps_run res
       < py.range_len 0 steps (tacotron.Tacotron.r self) ->
       (10 < (Z.of_nat (tacotron.Tacotron.steps_run res) - 1)
             * tacotron.Tacotron.r self)%Z).
Proof.
  intros self rng x spk steps Hwf.
  destruct (decode_run rng steps Hwf)
    as (mels & attn & stops & dec' & toks & Hrun & Hlen & _ & _ & Hfirst).
  apply stopped_at_first_steps in Hfirst.
  destruct Hfirst as (Hle & Hne & _ & Hlast).
  destruct Hwf as (Hr & _).
  destruct (range_from_zero steps Hr) as [_ Hmax].
  exists (mels, attn, stops, dec'). split; [exact Hrun|].
  unfold tacotron.Tacotron.steps_run. cbn [fst]. rewrite Hlen.
  split; [exact Hle|]. split; [lia|].
  intros Hlt. destruct (Hlast Hlt) as (tok & Hnth & Htrue).
  apply stop_condition_true in Htrue. destruct Htrue as [_ Ht].
  assert (toks <> []) by (apply Hne; lia).
  destruct toks; [contradiction|]. cbn [length] in *.
  replace (Z.of_nat (S (length toks)) - 1)%Z
    with (Z.of_nat (0 + (S (length toks) - 1))) by lia.
  exact Ht.
Qed.

Section TinyModelFacts.

Import tensor tacotron.
Local Open Scope R_scope.

Lemma tiny_well_formed (r : Z) (threshold : R) (x : list (list Z)) :
  (1 <= r)%Z -> Tacotron.well_formed (tiny.model r threshold) x None.
Proof.
  intros Hr. split; [exact Hr|]. split; [split; reflexivity|].
  cbn. apply length_map.
Qed.

Lemma sigmoid_one_bounds : 0.5 < sigmoid 1 < 0.9.
Proof.
  unfold sigmoid. rewrite exp_Ropp.
  pose proof exp_le_3 as Hle.
  assert (Hgt : 1 < exp 1).
  { rewrite <- exp_0 at 1. apply exp_increasing. lra. }
  assert (Hpos : 0 < / exp 1) by (apply Rinv_0_lt_compat; lra).
  assert (Hinv : / 3 <= / exp 1).
  { apply Rinv_le_contravar; lra. }
  assert (Hone : / exp 1 < 1).
  { apply (Rmult_lt_reg_l (exp 1)); [lra|]. rewrite Rinv_r; lra. }
  generalize dependent (/ exp 1). intros y Hy0 Hy3 Hy1.
  assert (Hz : / (1 + y) * (1 + y) = 1) by (apply Rinv_l; lra).
  assert (Hzp : 0 < / (1 + y)) by (apply Rinv_0_lt_compat; lra).
  unfold Rdiv. rewrite Rmult_1_l. split; nra.
Qed.

(** Every stop probability of the tiny model is [sigmoid 1]. *)
Lemma tiny_stop_tokens (r : Z) (tok : tensor2) :
  Tacotron.stop_tokens_of (Decoder.stop_proj (tiny.decoder r)) tok ->
  Forall (Forall (fun p => p = sigmoid 1)) tok.
Proof.
  intros [S ->]. apply Forall_map, Forall_forall. intros s _.
  cbn. constructor; [|constructor]. f_equal.
  unfold dot, sum, map2. destruct s as [|a [|c s]]; cbn; lra.
Qed.

Lemma tiny_all_exceed (r : Z) (tok : tensor2) :
  Tacotron.stop_tokens_of (Decoder.stop_proj (tiny.decoder r)) tok ->
  Tacotron.all_exceed tok 0.5 = true.
Proof.
  intros H. apply tiny_stop_tokens in H. unfold Tacotron.all_exceed.
  apply forallb_forall. intros row Hrow.
  rewrite Forall_forall in H. specialize (H row Hrow).
  apply forallb_forall. intros p Hp.
  rewrite Forall_forall in H. rewrite (H p Hp).
  unfold gtb. destruct (Rgt_dec (sigmoid 1) 0.5) as [_|Hn]; [reflexivity|].
  exfalso. apply Hn. apply sigmoid_one_bounds.
Qed.

(** When every step's stop probabilities exceed 0.5, the loop runs up to
    and including the first step [k0] whose frame index exceeds 10. *)
Lemma run_length_when_all_exceed (r : Z) (len k0 : nat) (toks : list tensor2) :
  Forall (fun tok => Tacotron.all_exceed tok 0.5 = true) toks ->
  (forall i, (i < k0)%nat -> (Z.of_nat i * r <= 10)%Z) ->
  (10 < Z.of_nat k0 * r)%Z ->
  (k0 < len)%nat ->
  Tacotron.stopped_at_first
    (map (fun i => (Z.of_nat i * r)%Z) (seq 0 len)) toks ->
  length toks = S k0.
Proof.
  intros Hall Hbefore Hk0 Hlen Hrun.
  apply stopped_at_first_steps in Hrun.
  destruct Hrun as (Hle & Hne & Hsteps & Hlast).
  assert (Hnz : toks <> []) by (apply Hne; lia).
  assert (H1 : (1 <= length toks)%nat).
  { destruct toks; [contradiction|cbn; lia]. }
  destruct (Nat.lt_trichotomy (length toks) (S k0)) as [Hlt | [Heq | Hgt]];
    [|exact Heq|].
  - destruct Hlast as (tok & Hnth & Htrue); [lia|].
    apply stop_condition_true in Htrue. destruct Htrue as [_ Ht].
    cbn [plus] in Ht. specialize (Hbefore (length toks - 1)%nat). lia.
  - destruct (nth_error toks k0) as [tok|] eqn:Hnth.
    + specialize (Hsteps k0 tok ltac:(lia) Hnth).
      rewrite Forall_forall in Hall.
      specialize (Hall tok (nth_error_In _ _ Hnth)).
      unfold Tacotron.stop_condition in Hsteps. rewrite Hall in Hsteps.
      cbn [plus andb] in Hsteps. lia.
    + apply nth_error_None in Hnth. lia.
Qed.

End TinyModelFacts.

Lemma Tacotron_decode_stops_at_first_witness :
  let self := tacotron.tiny.model 1 0.5 in
  exists mels attn stops dec' toks,
    tacotron.Tacotron.decode self (fun _ => tacotron.tiny.quiet)
                             [[1%Z]] None 2000
    = py.Return (mels, attn, stops, dec') /\
    length mels = length toks /\
    stops = flat_map (fun tok =>
                        repeat tok (Z.to_nat (tacotron.Tacotron.r self)))
                     toks /\
    (forall i tok,
        i + 1 < length toks -> nth_error toks i = Some tok ->
        tacotron.Tacotron.all_exceed tok 0.5
        && (Z.of_nat i * tacotron.Tacotron.r self >? 10)%Z = false) /\
    (length toks < py.range_len 0 2000 (tacotron.Tacotron.r self) ->
     exists tok,
       nth_error toks (length toks - 1) = Some tok /\
       tacotron.Tacotron.all_exceed tok 0.5 = true /\
       (10 < Z.of_nat (length toks - 1) * tacotron.Tacotron.r self)%Z).
Proof.
  cbn zeta. apply Tacotron_decode_stops_at_first.
  split; [cbn; lia|]. split; [split; reflexivity|reflexivity].
Defined.

Lemma Tacotron_decode_step_bounds_witness :
  let self := tacotron.tiny.model 1 0.5 in
  exists res,
    tacotron.Tacotron.decode self (fun _ => tacotron.tiny.quiet)
                             [[1%Z]] None 2000
    = py.Return res /\
    tacotron.Tacotron.steps_run res
    <= py.range_len 0 2000 (tacotron.Tacotron.r self) /\
    (Z.of_nat (tacotron.Tacotron.steps_run res) <= Z.max 0 2000)%Z /\
    (tacotron.Tacotron.steps_run res
     < py.range_len 0 2000 (tacotron.Tacotron.r self) ->
     (10 < (Z.of_nat (tacotron.Tacotron.steps_run res) - 1)
           * tacotron.Tacotron.r self)%Z).
Proof.
  cbn zeta. apply Tacotron_decode_step_bounds.
  split; [cbn; lia|]. split; [split; reflexivity|reflexivity].
Defined.

(** C2 as stated fails: with [r = 20], a configured stop threshold of 0.9
    and stop probabilities that are all [sigmoid 1] (about 0.73), the loop
    over 100 range values ends after two decoder steps, although only two
    steps have elapsed and no stop probability exceeds the configured
    threshold. *)
Lemma Tacotron_decode_stops_after_two_steps :
  exists mels attn stops dec',
    tacotron.Tacotron.decode (tacotron.tiny.model 20 0.9)
                             (fun _ => tacotron.tiny.quiet) [[1%Z]] None 2000
    = py.Return (mels, attn, stops, dec') /\
    length mels = 2 /\
    2 < py.range_len 0 2000 (tacotron.Tacotron.r (tacotron.tiny.model 20 0.9)) /\
    ~ 10 < length mels /\
    Forall (Forall (Forall
              (fun p => ~ (p > tacotron.Tacotron.stop_threshold
                                 (tacotron.tiny.model 20 0.9))%R)))
           stops.
Proof.
  destruct (@decode_run (tacotron.tiny.model 20 0.9)
              (fun _ => tacotron.tiny.quiet) [[1%Z]] None 2000
              (@tiny_well_formed 20 0.9%R [[1%Z]] ltac:(lia)))
    as (mels & attn & stops & dec' & toks & Hrun & Hlen & Hstops & Htoks
        & Hfirst).
  assert (Hk : length toks = 2).
  { apply (@run_length_when_all_exceed 20 100 1 toks).
    - eapply Forall_impl; [|exact Htoks]. intros tok. apply tiny_all_exceed.
    - intros i Hi. lia.
    - lia.
    - lia.
    - exact Hfirst. }
  exists mels, attn, stops, dec'. split; [exact Hrun|].
  split; [lia|]. split; [vm_compute; lia|]. split; [lia|].
  rewrite Hstops. apply Forall_flat_map.
  eapply Forall_impl; [|exact Htoks]. intros tok Htok.
  apply Forall_forall. intros tok' Hin. apply repeat_spec in Hin. subst tok'.
  apply tiny_stop_tokens in Htok.
  eapply Forall_impl; [|exact Htok]. cbn. intros row Hrow.
  eapply Forall_impl; [|exact Hrow]. cbn. intros p ->.
  pose proof sigmoid_one_bounds. lra.
Qed.

(** C3 as stated fails: with [r = 2] and stop probabilities above 0.5 at
    every step, the loop over 1000 range values ends after seven decoder
    steps, at frame index 12, before decoder step 10. *)
Lemma Tacotron_decode_stops_at_seventh_step :
  exists res,
    tacotron.Tacotron.decode (tacotron.tiny.model 2 0.5)
                             (fun _ => tacotron.tiny.quiet) [[1%Z]] None 2000
    = py.Return res /\
    tacotron.Tacotron.steps_run res = 7 /\
    7 < py.range_len 0 2000 (tacotron.Tacotron.r (tacotron.tiny.model 2 0.5)) /\
    ~ 10 <= tacotron.Tacotron.steps_run res.
Proof.
  destruct (@decode_run (tacotron.tiny.model 2 0.5)
              (fun _ => tacotron.tiny.quiet) [[1%Z]] None 2000
              (@tiny_well_formed 2 0.5%R [[1%Z]] ltac:(lia)))
    as (mels & attn & stops & dec' & toks & Hrun & Hlen & Hstops & Htoks
        & Hfirst).
  assert (Hk : length toks = 7).
  { apply (@run_length_when_all_exceed 2 1000 6 toks).
    - eapply Forall_impl; [|exact Htoks]. intros tok. apply tiny_all_exceed.
    - intros i Hi. lia.
    - lia.
    - lia.
    - exact Hfirst. }
  exists (mels, attn, stops, dec'). split; [exact Hrun|].
  unfold tacotron.Tacotron.steps_run. cbn [fst].
  split; [lia|]. split; [vm_compute; lia|lia].
Qed.

(** ** [generate] as a whole *)

Section GenerateReturns.

Import tensor tacotron.

(** The lists of frame groups and of attention scores grow together. *)
Lemma generate_loop_lengths rng enc encp go_frame x ts :
  forall dec hs cs ctx mels0 attn0 stops0 mels attn stops dec',
    Tacotron.generate_loop rng enc encp go_frame x ts dec hs cs ctx
                           mels0 attn0 stops0
    = py.Return (mels, attn, stops, dec') ->
    length attn + length mels0 = length attn0 + length mels.
Proof.
  induction ts as [|t ts IH];
    intros dec hs cs ctx mels0 attn0 stops0 mels attn stops dec' Hrun.
  - cbn in Hrun. injection Hrun as <- <- _ _. lia.
  - cbn [Tacotron.generate_loop] in Hrun.
    destruct (if (t >? 0)%Z then Tacotron.last_frame mels0
              else py.Return go_frame) as [prenet_in|]; [|discriminate].
    cbn [py.bind] in Hrun.
    destruct (Decoder.forward dec (rng t) enc encp prenet_in hs cs ctx t x)
      as [[[[[[[mel_frames scores] hs'] cs'] ctx'] stop] dec1]|];
      [|discriminate].
    cbn [py.bind] in Hrun.
    destruct (Tacotron.stop_condition stop t).
    + injection Hrun as <- <- _ _. rewrite !length_app. cbn. lia.
    + apply IH in Hrun. rewrite !length_app in Hrun. cbn in Hrun. lia.
Qed.

(** With at least one step to run, [generate] returns its three
    tensors. *)
Lemma Tacotron_generate_returns self rng x spk steps :
  Tacotron.well_formed self x spk -> (1 <= steps)%Z ->
  exists out, Tacotron.generate self rng x spk steps = py.Return out.
Proof.
  intros Hwf Hsteps.
  destruct (decode_run rng steps Hwf)
    as (mels & attn & stops & dec' & toks & Hrun & Hlen & Hstops & _ & Hfirst).
  apply stopped_at_first_steps in Hfirst. destruct Hfirst as (_ & Hne & _).
  destruct Hwf as (Hr & _).
  assert (Hlen0 : py.range_len 0 steps (Tacotron.r self) <> O).
  { unfold py.range_len. destruct (Tacotron.r self >? 0)%Z eqn:E; [|lia].
    assert (1 <= (steps - 0 + Tacotron.r self - 1) / Tacotron.r self)%Z;
      [|lia].
    apply Z.div_le_lower_bound; lia. }
  specialize (Hne Hlen0).
  unfold Tacotron.generate. rewrite Hrun. cbn [py.bind].
  pose proof Hrun as Hattn. unfold Tacotron.decode in Hattn.
  destruct (py.range 0 steps
              (Decoder.r (Decoder.set_training (Tacotron.decoder self) false)))
    as [ts|]; [|discriminate].
  cbn [py.bind] in Hattn. apply generate_loop_lengths in Hattn.
  cbn [length] in Hattn.
  destruct toks as [|tok toks]; [contradiction|].
  destruct mels as [|m mels]; [discriminate|].
  destruct attn as [|a attn]; [cbn in Hattn; lia|].
  destruct stops as [|s stops].
  { cbn in Hstops. destruct (Z.to_nat (Tacotron.r self)) eqn:E; [lia|].
    discriminate. }
  cbn. eexists. reflexivity.
Qed.

(** Tensor addition adds position by position. *)
Lemma add2_entry (a c : tensor2) (i j : nat) (ra rc : vec) (u v : R) :
  nth_error a i = Some ra -> nth_error ra j = Some u ->
  nth_error c i = Some rc -> nth_error rc j = Some v ->
  exists row, nth_error (add2 a c) i = Some row /\
              nth_error row j = Some (u + v)%R.
Proof.
  assert (G : forall (A B C : Type) (f : A -> B -> C) l1 l2 k x y,
             nth_error l1 k = Some x -> nth_error l2 k = Some y ->
             nth_error (map2 f l1 l2) k = Some (f x y)).
  { intros A B C f. induction l1 as [|x1 l1 IH]; intros l2 k x y H1 H2.
    - destruct k; discriminate.
    - destruct l2 as [|y1 l2]; [destruct k; discriminate|].
      destruct k as [|k]; cbn in *.
      + injection H1 as <-. injection H2 as <-. reflexivity.
      + apply IH; assumption. }
  intros Ha Hu Hc Hv. exists (vadd ra rc). split.
  - apply G; assumption.
  - apply G; assumption.
Qed.

End GenerateReturns.

(** * Further properties of the code *)

(** ** The sampler, call by call *)

Section RandomCyclerCalls.

Import random_cycler.

Context {A : Type}.
Variable A_eq_dec : forall x y : A, {x = y} + {x <> y}.
Variable tape : nat -> list nat.
Variable pool : list A.

Hypothesis pool_nonempty : pool <> [].
Hypothesis tape_fair : fair_tape tape (length pool).

Lemma cycler_inv_from_pool q hist next x :
  cycler_inv A_eq_dec pool q hist next -> In x hist -> In x pool.
Proof.
  intros (Hc & _) Hin. specialize (Hc x).
  apply (count_occ_In A_eq_dec) in Hin.
  apply (count_occ_In A_eq_dec).
  destruct (count_occ A_eq_dec pool x); [|lia].
  rewrite Nat.mul_0_r in Hc. lia.
Qed.

Lemma cycler_inv_pending_from_pool q hist next x :
  cycler_inv A_eq_dec pool q hist next -> In x next -> In x pool.
Proof.
  intros (_ & _ & pre & Hpre) Hin.
  apply (Permutation_in x Hpre). apply in_or_app. right. exact Hin.
Qed.

(** The loop only ever appends to what it has collected. *)
Lemma sample_loop_extends fuel :
  forall self k count (out out' : list A) self' k',
    sample_loop tape fuel self k count out = Some (out', self', k') ->
    exists rest, out' = out ++ rest.
Proof.
  induction fuel as [|fuel IH]; intros self k count out out' self' k' Hrun;
    [discriminate|].
  cbn [sample_loop] in Hrun.
  destruct (count >? 0)%Z.
  2:{ injection Hrun as <- _ _. exists []. symmetry. apply app_nil_r. }
  destruct (count >=? Z.of_nat (length (all_items self)))%Z.
  - apply IH in Hrun. destruct Hrun as [rest ->].
    eexists. rewrite <- app_assoc. reflexivity.
  - destruct (length (skipn _ (next_items self)) =? 0);
      apply IH in Hrun; destruct Hrun as [rest ->];
      eexists; rewrite <- app_assoc; reflexivity.
Qed.

(** A request for [j] whole pools is served by the next [j] shuffles and
    leaves the cycler as it was. *)
Lemma sample_loop_whole_pools j :
  forall fuel self k (out : list A),
    all_items self = pool ->
    j < fuel ->
    sample_loop tape fuel self k (Z.of_nat j * Z.of_nat (length pool)) out
    = Some (out ++ concat (map (fun i => shuffle (tape (k + i)) pool) (seq 0 j)),
            self, k + j).
Proof.
  assert (Hpos : 0 < length pool).
  { clear tape_fair. destruct pool; [contradiction|cbn; lia]. }
  induction j as [|j IH]; intros fuel self k out Hall Hfuel.
  - destruct fuel; [lia|]. cbn. rewrite app_nil_r, Nat.add_0_r. reflexivity.
  - destruct fuel as [|fuel]; [lia|]. cbn [sample_loop]. rewrite Hall.
    replace (Z.of_nat (S j) * Z.of_nat (length pool) >? 0)%Z with true
      by (symmetry; apply Z.gtb_lt; nia).
    replace (Z.of_nat (S j) * Z.of_nat (length pool)
             >=? Z.of_nat (length pool))%Z with true
      by (symmetry; apply Z.geb_le; nia).
    replace (Z.of_nat (S j) * Z.of_nat (length pool) - Z.of_nat (length pool))%Z
      with (Z.of_nat j * Z.of_nat (length pool))%Z by nia.
    rewrite IH by (assumption || lia).
    f_equal. f_equal; [|lia]. f_equal.
    rewrite <- app_assoc. f_equal.
    cbn [seq map concat]. rewrite Nat.add_0_r. f_equal.
    rewrite <- seq_shift, map_map. f_equal. apply map_ext.
    intros i. f_equal. f_equal. lia.
Qed.

End RandomCyclerCalls.

(** X1. Whatever calls of [sample] are made on a freshly built cycler
    with a fair random generator, they return, the cycler still holds
    the same pool, and every item handed out is an item of the pool. *)
Theorem RandomCycler_outputs_from_pool :
  forall (A : Type) (A_eq_dec : forall x y : A, {x = y} + {x <> y})
         (tape : nat -> list nat) (pool : list A)
         (self : random_cycler.RandomCycler) (k : nat) (counts : list Z),
    random_cycler.__init__ pool = py.Return self ->
    random_cycler.fair_tape tape (length pool) ->
    exists out self' k',
      random_cycler.sample_calls tape self k counts = Some (out, self', k') /\
      random_cycler.all_items self' = pool /\
      forall x, In x out -> In x pool.
Proof.
  intros A A_eq_dec tape pool self k counts Hinit Hfair.
  assert (Hne : pool <> []) by (intros E; subst pool; discriminate Hinit).
  assert (Hself : self = {| random_cycler.all_items := pool;
                            random_cycler.next_items := [] |}).
  { unfold random_cycler.__init__ in Hinit.
    destruct pool; [contradiction|]. cbn in Hinit. congruence. }
  subst self.
  destruct (sample_calls_inv Hne Hfair counts
              {| random_cycler.all_items := pool;
                 random_cycler.next_items := [] |} k
              eq_refl (cycler_inv_init A_eq_dec pool))
    as (out & self' & k' & Hrun & Hall & [q' Hinv] & _).
  exists out, self', k'. split; [exact Hrun|]. split; [exact Hall|].
  intros x Hin. cbn [app] in Hinv.
  eapply cycler_inv_from_pool; eassumption.
Qed.

Lemma RandomCycler_outputs_from_pool_witness :
  exists out self' k',
    random_cycler.sample_calls (fun _ => [0; 1; 2])
      {| random_cycler.all_items := [1; 2; 3];
         random_cycler.next_items := [] |} 0 [2%Z; 5%Z]
    = Some (out, self', k') /\
    random_cycler.all_items self' = [1; 2; 3] /\
    forall x, In x out -> In x [1; 2; 3].
Proof.
  apply (@RandomCycler_outputs_from_pool nat Nat.eq_dec (fun _ => [0; 1; 2])
           [1; 2; 3]).
  - reflexivity.
  - intros k. apply Permutation_refl.
Defined.

(** X2. After any calls of [sample] on a freshly built cycler with a
    fair random generator, the pending buffer is the tail of a
    permutation of the pool: it holds at most as many items as the pool,
    all of them items of the pool, and none twice when the pool has no
    duplicates. *)
Theorem RandomCycler_pending_buffer :
  forall (A : Type) (A_eq_dec : forall x y : A, {x = y} + {x <> y})
         (tape : nat -> list nat) (pool : list A)
         (self : random_cycler.RandomCycler) (k : nat) (counts : list Z),
    random_cycler.__init__ pool = py.Return self ->
    random_cycler.fair_tape tape (length pool) ->
    exists out self' k',
      random_cycler.sample_calls tape self k counts = Some (out, self', k') /\
      (exists taken,
          Permutation (taken ++ random_cycler.next_items self') pool) /\
      length (random_cycler.next_items self') <= length pool /\
      (forall x, In x (random_cycler.next_items self') -> In x pool) /\
      (NoDup pool -> NoDup (random_cycler.next_items self')).
Proof.
  intros A A_eq_dec tape pool self k counts Hinit Hfair.
  assert (Hne : pool <> []) by (intros E; subst pool; discriminate Hinit).
  assert (Hself : self = {| random_cycler.all_items := pool;
                            random_cycler.next_items := [] |}).
  { unfold random_cycler.__init__ in Hinit.
    destruct pool; [contradiction|]. cbn in Hinit. congruence. }
  subst self.
  destruct (sample_calls_inv Hne Hfair counts
              {| random_cycler.all_items := pool;
                 random_cycler.next_items := [] |} k
              eq_refl (cycler_inv_init A_eq_dec pool))
    as (out & self' & k' & Hrun & Hall & [q' Hinv] & _).
  exists out, self', k'. split; [exact Hrun|].
  pose proof Hinv as (_ & _ & taken & Htaken).
  split; [exists taken; exact Htaken|]. split; [|split].
  - apply Permutation_length in Htaken. rewrite length_app in Htaken. lia.
  - intros x Hin. eapply cycler_inv_pending_from_pool; eassumption.
  - intros Hnd. apply (NoDup_app_remove_l taken).
    apply (Permutation_NoDup (Permutation_sym Htaken) Hnd).
Qed.

Lemma RandomCycler_pending_buffer_witness :
  exists out self' k',
    random_cycler.sample_calls (fun _ => [0; 1; 2])
      {| random_cycler.all_items := [1; 2; 3];
         random_cycler.next_items := [] |} 0 [2%Z; 5%Z]
    = Some (out, self', k') /\
    (exists taken,
        Permutation (taken ++ random_cycler.next_items self') [1; 2; 3]) /\
    length (random_cycler.next_items self') <= length [1; 2; 3] /\
    (forall x, In x (random_cycler.next_items self') -> In x [1; 2; 3]) /\
    (NoDup [1; 2; 3] -> NoDup (random_cycler.next_items self')).
Proof.
  apply (@RandomCycler_pending_buffer nat Nat.eq_dec (fun _ => [0; 1; 2])
           [1; 2; 3]).
  - reflexivity.
  - intros k. apply Permutation_refl.
Defined.

(** X3. A request for a whole number [j] of pools, [sample(j * n)], is
    served by the next [j] shuffles alone: the cycler, pending buffer
    included, is left as it was, and with a fair generator the output is
    [j] permutations of the pool in a row. *)
Theorem RandomCycler_sample_whole_pools :
  forall (A : Type) (tape : nat -> list nat) (pool : list A)
         (self : random_cycler.RandomCycler) (k j : nat),
    pool <> [] ->
    random_cycler.all_items self = pool ->
    random_cycler.fair_tape tape (length pool) ->
    random_cycler.sample tape self k (Z.of_nat j * Z.of_nat (length pool))
    = Some (concat (map (fun i => random_cycler.shuffle (tape (k + i)) pool)
                        (seq 0 j)),
            self, k + j) /\
    Forall (fun p => Permutation p pool)
           (map (fun i => random_cycler.shuffle (tape (k + i)) pool) (seq 0 j)).
Proof.
  intros A tape pool self k j Hne Hall Hfair. split.
  - unfold random_cycler.sample.
    rewrite (@sample_loop_whole_pools A tape pool Hne j) by
      (assumption || (unfold random_cycler.sample_fuel;
                      destruct pool; [contradiction|cbn [length]; nia])).
    reflexivity.
  - apply Forall_map, Forall_forall. intros i _.
    apply shuffle_Permutation, Hfair.
Qed.

Lemma RandomCycler_sample_whole_pools_witness :
  random_cycler.sample (fun _ => [2; 0; 1])
    {| random_cycler.all_items := [1; 2; 3];
       random_cycler.next_items := [3] |} 0
    (Z.of_nat 2 * Z.of_nat (length [1; 2; 3]))
  = Some (concat (map (fun i => random_cycler.shuffle [2; 0; 1] [1; 2; 3])
                      (seq 0 2)),
          {| random_cycler.all_items := [1; 2; 3];
             random_cycler.next_items := [3] |}, 0 + 2) /\
  Forall (fun p => Permutation p [1; 2; 3])
         (map (fun i => random_cycler.shuffle [2; 0; 1] [1; 2; 3]) (seq 0 2)).
Proof.
  apply (@RandomCycler_sample_whole_pools nat (fun _ => [2; 0; 1]) [1; 2; 3]).
  - discriminate.
  - reflexivity.
  - intros k. change [2; 0; 1] with ([2] ++ [0; 1]).
    change (seq 0 _) with ([0; 1] ++ [2]). apply Permutation_app_comm.
Defined.

(** X4. When at least a whole pool is asked for, [sample] returns and
    the first [n] items of its output are the next shuffle of the pool,
    hence a permutation of it, whatever the pending buffer holds. *)
Theorem RandomCycler_sample_first_items :
  forall (A : Type) (tape : nat -> list nat) (pool : list A)
         (self : random_cycler.RandomCycler) (k : nat) (count : Z),
    pool <> [] ->
    random_cycler.all_items self = pool ->
    random_cycler.fair_tape tape (length pool) ->
    (Z.of_nat (length pool) <= count)%Z ->
    exists out self' k',
      random_cycler.sample tape self k count = Some (out, self', k') /\
      firstn (length pool) out = random_cycler.shuffle (tape k) pool /\
      Permutation (firstn (length pool) out) pool.
Proof.
  intros A tape pool self k count Hne Hall Hfair Hcount.
  destruct (sample_total Hne Hfair self k count Hall)
    as [[[out self'] k'] Hrun].
  exists out, self', k'. split; [exact Hrun|].
  assert (Hpos : 0 < length pool) by (destruct pool; [contradiction|cbn; lia]).
  assert (Hfirst : firstn (length pool) out
                   = random_cycler.shuffle (tape k) pool).
  { unfold random_cycler.sample, random_cycler.sample_fuel in Hrun.
    destruct (2 * Z.to_nat count + 2) as [|fuel]; [discriminate|].
    cbn [random_cycler.sample_loop] in Hrun. rewrite Hall in Hrun.
    replace (count >? 0)%Z with true in Hrun by (symmetry; apply Z.gtb_lt; lia).
    replace (count >=? Z.of_nat (length pool))%Z with true in Hrun
      by (symmetry; apply Z.geb_le; lia).
    apply sample_loop_extends in Hrun. destruct Hrun as [rest ->].
    cbn [app]. rewrite firstn_app.
    rewrite (Permutation_length (shuffle_Permutation pool (Hfair k))).
    rewrite Nat.sub_diag, firstn_O, app_nil_r.
    apply firstn_all2.
    rewrite (Permutation_length (shuffle_Permutation pool (Hfair k))). lia. }
  split; [exact Hfirst|]. rewrite Hfirst.
  apply shuffle_Permutation, Hfair.
Qed.

Lemma RandomCycler_sample_first_items_witness :
  exists out self' k',
    random_cycler.sample (fun _ => [0; 1; 2])
      {| random_cycler.all_items := [1; 2; 3];
         random_cycler.next_items := [3] |} 0 7
    = Some (out, self', k') /\
    firstn (length [1; 2; 3]) out
    = random_cycler.shuffle [0; 1; 2] [1; 2; 3] /\
    Permutation (firstn (length [1; 2; 3]) out) [1; 2; 3].
Proof.
  apply (@RandomCycler_sample_first_items nat (fun _ => [0; 1; 2]) [1; 2; 3]).
  - discriminate.
  - reflexivity.
  - intros k. apply Permutation_refl.
  - cbn. lia.
Defined.

(** X5. On a cycler reached from a freshly built one by any calls of
    [sample], [__next__] returns, and what it returns is an item of the
    pool. *)
Theorem RandomCycler_next_from_pool :
  forall (A : Type) (A_eq_dec : forall x y : A, {x = y} + {x <> y})
         (tape : nat -> list nat) (pool : list A)
         (self0 : random_cycler.RandomCycler) (k : nat) (counts : list Z),
    random_cycler.__init__ pool = py.Return self0 ->
    random_cycler.fair_tape tape (length pool) ->
    exists out self k1,
      random_cycler.sample_calls tape self0 k counts = Some (out, self, k1) /\
      exists x self' k',
        random_cycler.__next__ tape self k1 = Some (x, self', k') /\
        In x pool.
Proof.
  intros A A_eq_dec tape pool self0 k counts Hinit Hfair.
  assert (Hne : pool <> []) by (intros E; subst pool; discriminate Hinit).
  assert (Hself : self0 = {| random_cycler.all_items := pool;
                             random_cycler.next_items := [] |}).
  { unfold random_cycler.__init__ in Hinit.
    destruct pool; [contradiction|]. cbn in Hinit. congruence. }
  subst self0.
  destruct (sample_calls_inv Hne Hfair counts
              {| random_cycler.all_items := pool;
                 random_cycler.next_items := [] |} k
              eq_refl (cycler_inv_init A_eq_dec pool))
    as (out & self & k1 & Hrun & Hall & [q Hinv] & _).
  exists out, self, k1. split; [exact Hrun|]. cbn [app] in Hinv.
  destruct (sample_total Hne Hfair self k1 1 Hall) as [[[o self'] k'] Hone].
  pose proof Hone as Hone'. unfold random_cycler.sample in Hone'.
  apply (sample_loop_inv (A_eq_dec := A_eq_dec) Hfair)
    with (prev := out) (q := q) in Hone';
    [|exact Hall|rewrite app_nil_r; exact Hinv].
  destruct Hone' as (_ & [q' Hinv'] & Hlen). cbn in Hlen.
  destruct o as [|x [|y o]]; cbn in Hlen; try lia.
  exists x, self', k'. unfold random_cycler.__next__. rewrite Hone.
  split; [reflexivity|].
  eapply cycler_inv_from_pool; [exact Hinv'|].
  apply in_or_app. right. left. reflexivity.
Qed.

Lemma RandomCycler_next_from_pool_witness :
  exists out self k1,
    random_cycler.sample_calls (fun _ => [0; 1; 2])
      {| random_cycler.all_items := [1; 2; 3];
         random_cycler.next_items := [] |} 0 [2%Z; 5%Z]
    = Some (out, self, k1) /\
    exists x self' k',
      random_cycler.__next__ (fun _ => [0; 1; 2]) self k1
      = Some (x, self', k') /\
      In x [1; 2; 3].
Proof.
  apply (@RandomCycler_next_from_pool nat Nat.eq_dec (fun _ => [0; 1; 2])
           [1; 2; 3]).
  - reflexivity.
  - intros k. apply Permutation_refl.
Defined.

(** ** Collation, tensor by tensor *)

Section CollateFacts.

Import audio_utils synthesizer_dataset.

Lemma comprehension_map {A B : Type} (f : A -> py.result B) (g : A -> B)
      (l : list A) :
  (forall a, In a l -> f a = py.Return (g a)) ->
  py.comprehension f l = py.Return (map g l).
Proof.
  induction l as [|a l IH]; intros H; [reflexivity|].
  cbn. rewrite (H a) by (left; reflexivity). cbn.
  rewrite IH by (intros b Hb; apply H; right; exact Hb). reflexivity.
Qed.

(** The text of an item, padded with the character 0. *)
Lemma pad1d_text (x : list Z) (max_len : Z) :
  (Z.of_nat (length x) <= max_len)%Z ->
  pad1d x max_len 0
  = py.Return (x ++ repeat 0%Z (Z.to_nat (max_len - Z.of_nat (length x)))).
Proof.
  intros H. unfold pad1d.
  destruct (max_len - Z.of_nat (length x) <? 0)%Z eqn:E; [lia|reflexivity].
Qed.

Lemma pad2d_rows (x : array2) (max_len : Z) (v : Q) :
  (Z.of_nat (shape_last x) <= max_len)%Z ->
  pad2d x max_len v
  = py.Return (map (fun row =>
                      row ++ repeat v (Z.to_nat (max_len
                                                 - Z.of_nat (shape_last x))))
                   x).
Proof.
  intros H. unfold pad2d.
  destruct (max_len - Z.of_nat (shape_last x) <? 0)%Z eqn:E; [lia|reflexivity].
Qed.

(** The characters of a non-empty batch are always collated. *)
Lemma collate_chars (batch : list item) :
  batch <> [] ->
  exists max_x_len,
    py.max (map (fun x => Z.of_nat (length (item_text x))) batch)
    = py.Return max_x_len /\
    Forall (fun x => (Z.of_nat (length (item_text x)) <= max_x_len)%Z) batch /\
    (chars <- py.comprehension
                (fun x => pad1d (item_text x) max_x_len 0) batch ;;
     np_stack same_shape1 chars)%py
    = py.Return
        (map (fun x =>
                item_text x
                ++ repeat 0%Z (Z.to_nat (max_x_len
                                         - Z.of_nat (length (item_text x)))))
             batch).
Proof.
  intros Hne.
  destruct (py_max_upper
              (l := map (fun x => Z.of_nat (length (item_text x))) batch))
    as (max_x_len & Hmax & Hx).
  { destruct batch; [contradiction|discriminate]. }
  rewrite Forall_map in Hx.
  exists max_x_len. split; [exact Hmax|]. split; [exact Hx|].
  rewrite (comprehension_map _
             (fun x => item_text x
                       ++ repeat 0%Z
                            (Z.to_nat (max_x_len
                                       - Z.of_nat (length (item_text x)))))).
  2:{ intros x Hin. apply pad1d_text.
      rewrite Forall_forall in Hx. apply Hx, Hin. }
  cbn [py.bind]. apply np_stack_same.
  - destruct batch; [contradiction|discriminate].
  - intros a c Ha Hc. apply in_map_iff in Ha, Hc.
    destruct Ha as (xa & <- & Hxa). destruct Hc as (xc & <- & Hxc).
    rewrite Forall_forall in Hx. pose proof (Hx xa Hxa). pose proof (Hx xc Hxc).
    apply Nat.eqb_eq. rewrite !length_app, !repeat_length. lia.
Qed.

(** What [collate_synthesizer] returns on a well-formed batch, tensor by
    tensor. *)
Lemma collate_synthesizer_result (batch : list item) (r : Z) (hp : hparams)
      (n_mels embed_size : nat) :
  batch <> [] -> (1 <= r)%Z -> dataset_batch n_mels embed_size batch ->
  exists max_x_len longest,
    py.max (map (fun x => Z.of_nat (length (item_text x))) batch)
    = py.Return max_x_len /\
    py.max (map (fun x => Z.of_nat (shape_last (item_mel x))) batch)
    = py.Return longest /\
    let L := (if ((longest + 1) mod r =? 0)%Z then longest + 1
              else longest + 1 + (r - (longest + 1) mod r))%Z in
    let pad_value := if symmetric_mels hp then (-1 * max_abs_value hp)%Q
                     else 0%Q in
    collate_synthesizer batch r hp
    = py.Return
        (map (fun x =>
                item_text x
                ++ repeat 0%Z (Z.to_nat (max_x_len
                                         - Z.of_nat (length (item_text x)))))
             batch,
         map (fun x =>
                map (fun row =>
                       row ++ repeat pad_value
                                (Z.to_nat (L - Z.of_nat
                                                 (shape_last (item_mel x)))))
                    (item_mel x))
             batch,
         map item_embed batch,
         map item_index batch).
Proof.
  intros Hne Hr Hds.
  pose proof (dataset_batch_embeds Hds) as Hembeds.
  destruct Hds as (_ & Hwf & _).
  destruct (collate_chars Hne) as (max_x_len & Hmax & _ & Hchars).
  destruct (py_max_upper
              (l := map (fun x => Z.of_nat (shape_last (item_mel x))) batch))
    as (longest & Hlong & Hs).
  { destruct batch; [contradiction|discriminate]. }
  rewrite Forall_map in Hs.
  exists max_x_len, longest. split; [exact Hmax|]. split; [exact Hlong|].
  cbn zeta. unfold collate_synthesizer. rewrite Hmax. cbn [py.bind].
  cbn [py.bind] in Hchars.
  destruct (py.comprehension (fun x => pad1d (item_text x) max_x_len 0) batch)
    as [padded|]; [|discriminate].
  cbn [py.bind] in Hchars |- *. rewrite Hchars. cbn [py.bind].
  rewrite Hlong. cbn [py.bind].
  destruct (r =? 0)%Z eqn:E0; [lia|].
  pose proof (Z.mod_pos_bound (longest + 1) r ltac:(lia)) as Hb.
  set (L := (if ((longest + 1) mod r =? 0)%Z then longest + 1
             else longest + 1 + (r - (longest + 1) mod r))%Z).
  assert (HL : (longest < L)%Z).
  { subst L. destruct ((longest + 1) mod r =? 0)%Z; lia. }
  replace (if negb ((longest + 1) mod r =? 0)%Z
           then py.Return (longest + 1 + (r - (longest + 1) mod r))%Z
           else py.Return (longest + 1)%Z) with (py.Return L)
    by (subst L; destruct ((longest + 1) mod r =? 0)%Z; reflexivity).
  cbn [py.bind].
  set (pad_value := if symmetric_mels hp then (-1 * max_abs_value hp)%Q
                    else 0%Q).
  rewrite (comprehension_map _
             (fun x => map (fun row =>
                              row ++ repeat pad_value
                                       (Z.to_nat
                                          (L - Z.of_nat
                                                 (shape_last (item_mel x)))))
                           (item_mel x))).
  2:{ intros x Hin. apply pad2d_rows.
      rewrite Forall_forall in Hs. specialize (Hs x Hin). cbn in Hs. lia. }
  cbn [py.bind].
  rewrite np_stack_same; [cbn [py.bind]; rewrite Hembeds; reflexivity| |].
  - destruct batch; [contradiction|discriminate].
  - unfold well_formed_batch in Hwf. rewrite Forall_forall in Hwf, Hs.
    intros a c Ha Hc. apply in_map_iff in Ha, Hc.
    destruct Ha as (xa & <- & Hxa). destruct Hc as (xc & <- & Hxc).
    destruct (Hwf xa Hxa) as [Hna Hra]. destruct (Hwf xc Hxc) as [Hnc Hrc].
    pose proof (Hs xa Hxa) as Hla. pose proof (Hs xc Hxc) as Hlc.
    cbn in Hla, Hlc.
    unfold same_shape2. rewrite !length_map.
    apply andb_true_iff. split; apply Nat.eqb_eq; [lia|].
    destruct (item_mel xa) as [|ra ma], (item_mel xc) as [|rc mc];
      cbn in *; try lia.
    rewrite !length_app, !repeat_length. lia.
Qed.

End CollateFacts.

(** X6. On a non-empty batch of items of the dataset ([int32] texts,
    spectrograms of [n_mels >= 1] channels, embeddings of one size) and
    with [r >= 1], the character tensor that [collate_synthesizer]
    returns holds, for every item in batch order, the item's text
    followed by the padding character 0 up to the length of the longest
    text; the embeddings and the indices are those of the items, in batch
    order. *)
Theorem collate_synthesizer_chars :
  forall (batch : list synthesizer_dataset.item) (r : Z)
         (hp : audio_utils.hparams) (n_mels embed_size : nat),
    batch <> [] ->
    (1 <= r)%Z ->
    synthesizer_dataset.dataset_batch n_mels embed_size batch ->
    exists chars mel embeds indices max_x_len,
      synthesizer_dataset.collate_synthesizer batch r hp
      = py.Return (chars, mel, embeds, indices) /\
      py.max (map (fun x => Z.of_nat
                              (length (synthesizer_dataset.item_text x)))
                  batch)
      = py.Return max_x_len /\
      chars = map (fun x =>
                     synthesizer_dataset.item_text x
                     ++ repeat 0%Z
                          (Z.to_nat
                             (max_x_len
                              - Z.of_nat
                                  (length (synthesizer_dataset.item_text x)))))
                  batch /\
      Forall (fun row => Z.of_nat (length row) = max_x_len) chars /\
      embeds = map synthesizer_dataset.item_embed batch /\
      indices = map synthesizer_dataset.item_index batch.
Proof.
  intros batch r hp n_mels embed_size Hne Hr Hwf.
  destruct (collate_synthesizer_result hp Hne Hr Hwf)
    as (max_x_len & longest & Hmax & _ & Hres).
  cbn zeta in Hres.
  eexists _, _, _, _, max_x_len. split; [exact Hres|].
  split; [exact Hmax|]. split; [reflexivity|]. split; [|split; reflexivity].
  destruct (collate_chars Hne) as (m & Hm & Hle & _).
  assert (m = max_x_len) by congruence. subst m.
  apply Forall_map. eapply Forall_impl; [|exact Hle].
  cbn. intros x Hx. rewrite length_app, repeat_length. lia.
Qed.

Lemma collate_synthesizer_chars_witness :
  exists chars mel embeds indices max_x_len,
    synthesizer_dataset.collate_synthesizer
      [([1; 2]%Z, [[1%Q; 2%Q; 3%Q]], [1%Q; 2%Q], 0%Z);
       ([5]%Z, [[4%Q]], [3%Q; 4%Q], 1%Z)] 2
      {| audio_utils.allow_clipping_in_normalization := true;
         audio_utils.symmetric_mels := true;
         audio_utils.max_abs_value := 4%Q;
         audio_utils.min_level_db := (-100)%Q |}
    = py.Return (chars, mel, embeds, indices) /\
    py.max (map (fun x => Z.of_nat
                            (length (synthesizer_dataset.item_text x)))
                [([1; 2]%Z, [[1%Q; 2%Q; 3%Q]], [1%Q; 2%Q], 0%Z);
                 ([5]%Z, [[4%Q]], [3%Q; 4%Q], 1%Z)])
    = py.Return max_x_len /\
    chars = map (fun x =>
                   synthesizer_dataset.item_text x
                   ++ repeat 0%Z
                        (Z.to_nat
                           (max_x_len
                            - Z.of_nat
                                (length (synthesizer_dataset.item_text x)))))
                [([1; 2]%Z, [[1%Q; 2%Q; 3%Q]], [1%Q; 2%Q], 0%Z);
                 ([5]%Z, [[4%Q]], [3%Q; 4%Q], 1%Z)] /\
    Forall (fun row => Z.of_nat (length row) = max_x_len) chars /\
    embeds = map synthesizer_dataset.item_embed
                 [([1; 2]%Z, [[1%Q; 2%Q; 3%Q]], [1%Q; 2%Q], 0%Z);
                  ([5]%Z, [[4%Q]], [3%Q; 4%Q], 1%Z)] /\
    indices = map synthesizer_dataset.item_index
                  [([1; 2]%Z, [[1%Q; 2%Q; 3%Q]], [1%Q; 2%Q], 0%Z);
                   ([5]%Z, [[4%Q]], [3%Q; 4%Q], 1%Z)].
Proof.
  apply (@collate_synthesizer_chars _ 2%Z _ 1 2).
  - discriminate.
  - lia.
  - dataset_batch_by_computation.
Defined.

(** X7. On a non-empty batch of items of the dataset ([int32] texts,
    spectrograms of [n_mels >= 1] channels, embeddings of one size) and
    with [r >= 1], every spectrogram that [collate_synthesizer] returns
    is the item's spectrogram with each mel channel followed by the pad
    value, [-max_abs_value] for symmetric mels and 0 otherwise: the
    frames of the item are kept as they are and only padding is added. *)
Theorem collate_synthesizer_mel_padding :
  forall (batch : list synthesizer_dataset.item) (r : Z)
         (hp : audio_utils.hparams) (n_mels embed_size : nat),
    batch <> [] ->
    (1 <= r)%Z ->
    synthesizer_dataset.dataset_batch n_mels embed_size batch ->
    exists chars mel embeds indices L,
      synthesizer_dataset.collate_synthesizer batch r hp
      = py.Return (chars, mel, embeds, indices) /\
      mel = map (fun x =>
                   map (fun row =>
                          row ++ repeat
                                   (if audio_utils.symmetric_mels hp
                                    then (-1 * audio_utils.max_abs_value hp)%Q
                                    else 0%Q)
                                   (Z.to_nat
                                      (L - Z.of_nat
                                             (synthesizer_dataset.shape_last
                                                (synthesizer_dataset.item_mel
                                                   x)))))
                       (synthesizer_dataset.item_mel x))
                batch.
Proof.
  intros batch r hp n_mels embed_size Hne Hr Hwf.
  destruct (collate_synthesizer_result hp Hne Hr Hwf)
    as (max_x_len & longest & _ & _ & Hres).
  cbn zeta in Hres. eexists _, _, _, _, _. split; [exact Hres|reflexivity].
Qed.

Lemma collate_synthesizer_mel_padding_witness :
  exists chars mel embeds indices L,
    synthesizer_dataset.collate_synthesizer
      [([1; 2]%Z, [[1%Q; 2%Q; 3%Q]], [1%Q; 2%Q], 0%Z);
       ([5]%Z, [[4%Q]], [3%Q; 4%Q], 1%Z)] 2
      {| audio_utils.allow_clipping_in_normalization := true;
         audio_utils.symmetric_mels := true;
         audio_utils.max_abs_value := 4%Q;
         audio_utils.min_level_db := (-100)%Q |}
    = py.Return (chars, mel, embeds, indices) /\
    mel = map (fun x =>
                 map (fun row =>
                        row ++ repeat (-1 * 4)%Q
                                 (Z.to_nat
                                    (L - Z.of_nat
                                           (synthesizer_dataset.shape_last
                                              (synthesizer_dataset.item_mel
                                                 x)))))
                     (synthesizer_dataset.item_mel x))
              [([1; 2]%Z, [[1%Q; 2%Q; 3%Q]], [1%Q; 2%Q], 0%Z);
               ([5]%Z, [[4%Q]], [3%Q; 4%Q], 1%Z)].
Proof.
  apply (@collate_synthesizer_mel_padding _ 2%Z
           {| audio_utils.allow_clipping_in_normalization := true;
              audio_utils.symmetric_mels := true;
              audio_utils.max_abs_value := 4%Q;
              audio_utils.min_level_db := (-100)%Q |} 1 2).
  - discriminate.
  - lia.
  - dataset_batch_by_computation.
Defined.

(** X8. [collate_synthesizer] raises [ValueError] on an empty batch,
    whatever [r] is, and [ZeroDivisionError] on a non-empty batch when
    [r = 0]. *)
Theorem collate_synthesizer_errors :
  forall (batch : list synthesizer_dataset.item) (r : Z)
         (hp : audio_utils.hparams),
    synthesizer_dataset.collate_synthesizer [] r hp
    = py.Raise (py.ValueError "max() arg is an empty sequence"%string) /\
    (batch <> [] ->
     synthesizer_dataset.collate_synthesizer batch 0 hp
     = py.Raise py.ZeroDivisionError).
Proof.
  intros batch r hp. split; [reflexivity|]. intros Hne.
  destruct (collate_chars Hne) as (max_x_len & Hmax & _ & Hchars).
  destruct (py_max_upper
              (l := map (fun x => Z.of_nat
                           (synthesizer_dataset.shape_last
                              (synthesizer_dataset.item_mel x))) batch))
    as (longest & Hlong & _).
  { destruct batch; [contradiction|discriminate]. }
  unfold synthesizer_dataset.collate_synthesizer.
  rewrite Hmax. cbn [py.bind]. cbn [py.bind] in Hchars.
  destruct (py.comprehension
              (fun x => synthesizer_dataset.pad1d
                          (synthesizer_dataset.item_text x) max_x_len 0) batch)
    as [padded|]; [|discriminate].
  cbn [py.bind] in Hchars |- *. rewrite Hchars. cbn [py.bind].
  rewrite Hlong. reflexivity.
Qed.

Lemma collate_synthesizer_errors_witness :
  synthesizer_dataset.collate_synthesizer [] 3
    {| audio_utils.allow_clipping_in_normalization := true;
       audio_utils.symmetric_mels := true;
       audio_utils.max_abs_value := 4%Q;
       audio_utils.min_level_db := (-100)%Q |}
  = py.Raise (py.ValueError "max() arg is an empty sequence"%string) /\
  synthesizer_dataset.collate_synthesizer
    [([1; 2]%Z, [[1%Q; 2%Q; 3%Q]], @nil Q, 0%Z)] 0
    {| audio_utils.allow_clipping_in_normalization := true;
       audio_utils.symmetric_mels := true;
       audio_utils.max_abs_value := 4%Q;
       audio_utils.min_level_db := (-100)%Q |}
  = py.Raise py.ZeroDivisionError.
Proof.
  destruct (@collate_synthesizer_errors
              [([1; 2]%Z, [[1%Q; 2%Q; 3%Q]], @nil Q, 0%Z)] 3
              {| audio_utils.allow_clipping_in_normalization := true;
                 audio_utils.symmetric_mels := true;
                 audio_utils.max_abs_value := 4%Q;
                 audio_utils.min_level_db := (-100)%Q |}) as [H1 H2].
  split; [exact H1|]. apply H2. discriminate.
Defined.

(** X9. On an [int32] array and with a pad value of that type, [pad1d]
    refuses a length shorter than the array with a [ValueError];
    otherwise it returns an [int32] array of exactly that length which
    begins with the given one and continues with the pad value. *)
Theorem pad1d_behaviour :
  forall (x : list Z) (max_len pad_value : Z),
    Forall synthesizer_dataset.int32 x ->
    synthesizer_dataset.int32 pad_value ->
    ((max_len < Z.of_nat (length x))%Z ->
     synthesizer_dataset.pad1d x max_len pad_value
     = py.Raise (py.ValueError "index can't contain negative values"%string))
    /\
    ((Z.of_nat (length x) <= max_len)%Z ->
     exists y,
       synthesizer_dataset.pad1d x max_len pad_value = py.Return y /\
       Z.of_nat (length y) = max_len /\
       Forall synthesizer_dataset.int32 y /\
       firstn (length x) y = x /\
       Forall (fun c => c = pad_value) (skipn (length x) y)).
Proof.
  intros x max_len pad_value Hx Hpad. unfold synthesizer_dataset.pad1d.
  split.
  - intros H.
    destruct (max_len - Z.of_nat (length x) <? 0)%Z eqn:E; [reflexivity|lia].
  - intros H.
    destruct (max_len - Z.of_nat (length x) <? 0)%Z eqn:E; [lia|].
    eexists. split; [reflexivity|]. split; [|split; [|split]].
    + rewrite length_app, repeat_length. lia.
    + apply Forall_app. split; [exact Hx|].
      apply Forall_forall. intros c Hc.
      rewrite (repeat_spec _ _ _ Hc). exact Hpad.
    + rewrite firstn_app, Nat.sub_diag, firstn_O, app_nil_r.
      apply firstn_all.
    + rewrite skipn_app, Nat.sub_diag, skipn_all. cbn.
      apply Forall_forall. intros c Hc. exact (repeat_spec _ _ _ Hc).
Qed.

Lemma pad1d_behaviour_witness :
  (synthesizer_dataset.pad1d [1; 2; 3]%Z 2 0
   = py.Raise (py.ValueError "index can't contain negative values"%string))
  /\
  exists y,
    synthesizer_dataset.pad1d [1; 2]%Z 4 0 = py.Return y /\
    Z.of_nat (length y) = 4%Z /\
    Forall synthesizer_dataset.int32 y /\
    firstn (length [1; 2]%Z) y = [1; 2]%Z /\
    Forall (fun c => c = 0%Z) (skipn (length [1; 2]%Z) y).
Proof.
  split.
  - apply (proj1 (@pad1d_behaviour [1; 2; 3]%Z 2 0
                    ltac:(dataset_batch_by_computation)
                    ltac:(dataset_batch_by_computation))).
    cbn. lia.
  - apply (proj2 (@pad1d_behaviour [1; 2]%Z 4 0
                    ltac:(dataset_batch_by_computation)
                    ltac:(dataset_batch_by_computation))).
    cbn. lia.
Defined.

(** ** Pre-emphasis *)

Section PreemphasisFacts.

Import audio_utils.
Local Open Scope Q_scope.

Variable k : Q.

Lemma taps_fir (xn : Q) (hx : list Q) :
  taps [1; - k] (xn :: hx) == xn - k * hd 0 hx.
Proof. unfold taps. destruct hx as [|p hx]; cbn; ring. Qed.

Lemma taps_last (yn : Q) (h : list Q) : taps [1] (yn :: h) == yn.
Proof. unfold taps. cbn. ring. Qed.

Lemma taps_feedback (hz : list Q) : taps [- k] hz == - k * hd 0 hz.
Proof. unfold taps. destruct hz as [|p hz]; cbn; ring. Qed.

Lemma taps_none (h : list Q) : taps [] h == 0.
Proof. reflexivity. Qed.

(** Filtering back what was filtered gives the signal, as long as the
    two filters remember the same last sample. *)
Lemma inverse_filter_from (x : ndarray) :
  forall hx hy hy' hz,
    hd 0 hz == hd 0 hx ->
    same_values
      (lfilter_from [1] 1 [- k] hy' hz (lfilter_from [1; - k] 1 [] hx hy x))
      x.
Proof.
  induction x as [|xn x IH]; intros hx hy hy' hz Hhead; [constructor|].
  cbn [lfilter_from]. constructor.
  - rewrite taps_last, taps_feedback, taps_fir, taps_none, Hhead. field.
  - apply IH. cbn [hd].
    rewrite taps_last, taps_feedback, taps_fir, taps_none, Hhead. field.
Qed.

End PreemphasisFacts.

(** X10. On a waveform of at least one sample, pre-emphasis followed by
    its inverse, with the same coefficient, gives the waveform back (in
    exact arithmetic); an empty waveform is refused by [preemphasis]
    with a [ValueError]; with the flag off each of the two returns its
    input unchanged. *)
Theorem preemphasis_roundtrip :
  forall (wav : audio_utils.ndarray) (k : Q),
    (wav <> [] ->
     exists y z,
       audio_utils.preemphasis wav k true = py.Return y /\
       y <> [] /\
       audio_utils.inv_preemphasis y k true = py.Return z /\
       audio_utils.same_values z wav) /\
    audio_utils.preemphasis [] k true
    = py.Raise (py.ValueError "v cannot be empty"%string) /\
    audio_utils.preemphasis wav k false = py.Return wav /\
    audio_utils.inv_preemphasis wav k false = py.Return wav.
Proof.
  intros wav k. split; [|repeat split].
  intros Hne. destruct wav as [|x wav]; [contradiction|].
  eexists _, _. split; [reflexivity|]. split; [discriminate|].
  split; [reflexivity|].
  apply inverse_filter_from. reflexivity.
Qed.

Lemma preemphasis_roundtrip_witness :
  exists y z,
    audio_utils.preemphasis [1; 2; 4]%Q (1 # 2) true = py.Return y /\
    y <> [] /\
    audio_utils.inv_preemphasis y (1 # 2) true = py.Return z /\
    audio_utils.same_values z [1; 2; 4]%Q.
Proof.
  apply (proj1 (preemphasis_roundtrip [1; 2; 4]%Q (1 # 2))). discriminate.
Defined.

(** Pre-emphasis subtracts [k] times the previous sample. *)
Example preemphasis_example :
  audio_utils.preemphasis [1; 2; 4]%Q (1 # 2) true
  = py.Return [(1 * 1 + 0 - 0) / 1;
               (1 * 2 + (- (1 # 2) * 1 + 0) - 0) / 1;
               (1 * 4 + (- (1 # 2) * 2 + 0) - 0) / 1]%Q.
Proof. reflexivity. Qed.

(** ** Frame arithmetic *)

Section FrameFacts.

Local Open Scope Z_scope.

(** With a frame size that is a multiple of the frame shift. *)
Lemma frames_quotient (len c fshift : Z) :
  0 < fshift ->
  (len + (c * fshift - fshift) * 2 - c * fshift) / fshift
  = len / fshift + c - 2.
Proof.
  intros Hf.
  replace (len + (c * fshift - fshift) * 2 - c * fshift)
    with (len + (c - 2) * fshift) by ring.
  rewrite Z.div_add by lia. ring.
Qed.

End FrameFacts.

(** X11. For a positive frame shift that divides the frame size,
    [num_frames] is the number of shifts needed to cover the signal,
    rounded up, plus the frames that overlap its start:
    [ceil(length / fshift) + fsize / fshift - 1]. A frame shift of 0
    raises [ZeroDivisionError]. *)
Theorem num_frames_closed_form :
  forall (length fsize fshift : Z),
    audio_utils.num_frames length fsize 0 = py.Raise py.ZeroDivisionError /\
    ((0 < fshift)%Z -> (fsize mod fshift = 0)%Z ->
     audio_utils.num_frames length fsize fshift
     = py.Return ((length + fshift - 1) / fshift + fsize / fshift - 1)%Z).
Proof.
  intros len fsize fshift. split; [reflexivity|]. intros Hf Hdiv.
  unfold audio_utils.num_frames.
  destruct (fshift =? 0)%Z eqn:E0; [lia|].
  apply Z.div_exact in Hdiv; [|lia].
  set (c := (fsize / fshift)%Z) in *.
  assert (Hfs : fsize = (c * fshift)%Z) by lia. rewrite Hfs.
  rewrite (frames_quotient len c Hf).
  pose proof (Z.div_mod len fshift ltac:(lia)) as Hlen.
  pose proof (Z.mod_pos_bound len fshift Hf) as Hm.
  assert (Hceil : ((len + fshift - 1) / fshift
                   = len / fshift + (if (len mod fshift =? 0)%Z then 0 else 1))%Z).
  { destruct (len mod fshift =? 0)%Z eqn:Em.
    - symmetry. apply (Z.div_unique _ _ _ (fshift - 1)); lia.
    - symmetry. apply (Z.div_unique _ _ _ (len mod fshift - 1)); lia. }
  rewrite Hceil. destruct (len mod fshift =? 0)%Z; f_equal; lia.
Qed.

Lemma num_frames_closed_form_witness :
  audio_utils.num_frames 1000 800 0 = py.Raise py.ZeroDivisionError /\
  audio_utils.num_frames 1000 800 200
  = py.Return ((1000 + 200 - 1) / 200 + 800 / 200 - 1)%Z.
Proof.
  destruct (num_frames_closed_form 1000 800 200) as [H0 H].
  split; [exact H0|]. apply H; [lia|reflexivity].
Defined.

(** X12. For a positive frame shift that divides the frame size,
    [pad_lr] pads [fsize - fshift] samples on the left and, on the right,
    the same plus the fewest samples [r], [0 <= r < fshift], that bring
    the signal length to a multiple of the frame shift; the padded
    signal then holds exactly [num_frames] frames. *)
Theorem pad_lr_fits_frames :
  forall (x : audio_utils.ndarray) (fsize fshift : Z),
    (0 < fshift)%Z -> (fsize mod fshift = 0)%Z ->
    exists left right M,
      audio_utils.pad_lr x fsize fshift = py.Return (left, right) /\
      audio_utils.num_frames (Z.of_nat (length x)) fsize fshift
      = py.Return M /\
      left = (fsize - fshift)%Z /\
      (0 <= right - left < fshift)%Z /\
      ((Z.of_nat (length x) + (right - left)) mod fshift = 0)%Z /\
      (left + Z.of_nat (length x) + right = (M - 1) * fshift + fsize)%Z.
Proof.
  intros x fsize fshift Hf Hdiv.
  destruct (num_frames_closed_form (Z.of_nat (length x)) fsize fshift)
    as [_ HM].
  specialize (HM Hf Hdiv). unfold audio_utils.pad_lr. rewrite HM.
  cbn [py.bind]. eexists _, _, _. split; [reflexivity|].
  split; [reflexivity|]. split; [reflexivity|].
  set (len := Z.of_nat (length x)).
  apply Z.div_exact in Hdiv; [|lia].
  set (c := (fsize / fshift)%Z) in *.
  pose proof (Z.div_mod len fshift ltac:(lia)) as Hlen.
  pose proof (Z.mod_pos_bound len fshift Hf) as Hm.
  assert (Hceil : ((len + fshift - 1) / fshift
                   = len / fshift + (if (len mod fshift =? 0)%Z then 0 else 1))%Z).
  { destruct (len mod fshift =? 0)%Z eqn:Em.
    - symmetry. apply (Z.div_unique _ _ _ (fshift - 1)); lia.
    - symmetry. apply (Z.div_unique _ _ _ (len mod fshift - 1)); lia. }
  rewrite Hceil.
  assert (Hr : (fsize - fshift
                + ((len / fshift
                    + (if (len mod fshift =? 0)%Z then 0 else 1) + c - 1 - 1)
                   * fshift + fsize - (len + 2 * (fsize - fshift)))
                - (fsize - fshift)
                = (if (len mod fshift =? 0)%Z then 0
                   else fshift - len mod fshift))%Z).
  { destruct (len mod fshift =? 0)%Z eqn:Em; nia. }
  split; [|split].
  - rewrite Hr. destruct (len mod fshift =? 0)%Z eqn:Em; lia.
  - rewrite Hr. destruct (len mod fshift =? 0)%Z eqn:Em.
    + rewrite Z.add_0_r. lia.
    + replace (len + (fshift - len mod fshift))%Z
        with ((len / fshift + 1) * fshift)%Z by lia.
      apply Z_mod_mult.
  - ring.
Qed.

Lemma pad_lr_fits_frames_witness :
  exists left right M,
    audio_utils.pad_lr [1%Q; 2%Q; 3%Q; 4%Q; 5%Q] 4 2
    = py.Return (left, right) /\
    audio_utils.num_frames (Z.of_nat (length [1%Q; 2%Q; 3%Q; 4%Q; 5%Q])) 4 2
    = py.Return M /\
    left = (4 - 2)%Z /\
    (0 <= right - left < 2)%Z /\
    ((Z.of_nat (length [1%Q; 2%Q; 3%Q; 4%Q; 5%Q]) + (right - left)) mod 2
     = 0)%Z /\
    (left + Z.of_nat (length [1%Q; 2%Q; 3%Q; 4%Q; 5%Q]) + right
     = (M - 1) * 2 + 4)%Z.
Proof.
  apply (@pad_lr_fits_frames [1%Q; 2%Q; 3%Q; 4%Q; 5%Q] 4 2);
    [lia|reflexivity].
Defined.

(** X13. For a positive frame shift, [librosa_pad_lr] pads nothing on
    the left and between 1 and [fshift] samples on the right, bringing
    the length to the next multiple of the frame shift above it; a
    signal whose length already is a multiple gets a whole shift more. A
    frame shift of 0 raises [ZeroDivisionError]. *)
Theorem librosa_pad_lr_next_multiple :
  forall (x : audio_utils.ndarray) (fsize fshift : Z),
    audio_utils.librosa_pad_lr x fsize 0 = py.Raise py.ZeroDivisionError /\
    ((0 < fshift)%Z ->
     exists right,
       audio_utils.librosa_pad_lr x fsize fshift = py.Return (0%Z, right) /\
       (0 < right <= fshift)%Z /\
       ((Z.of_nat (length x) + right) mod fshift = 0)%Z /\
       ((Z.of_nat (length x) mod fshift = 0)%Z -> right = fshift)).
Proof.
  intros x fsize fshift. split; [reflexivity|]. intros Hf.
  unfold audio_utils.librosa_pad_lr.
  destruct (fshift =? 0)%Z eqn:E0; [lia|].
  eexists. split; [reflexivity|].
  set (len := Z.of_nat (length x)).
  pose proof (Z.div_mod len fshift ltac:(lia)) as Hlen.
  pose proof (Z.mod_pos_bound len fshift Hf) as Hm.
  split; [nia|]. split.
  - replace (len + ((len / fshift + 1) * fshift - len))%Z
      with ((len / fshift + 1) * fshift)%Z by ring.
    apply Z_mod_mult.
  - intros H0. nia.
Qed.

Lemma librosa_pad_lr_next_multiple_witness :
  audio_utils.librosa_pad_lr [1%Q; 2%Q; 3%Q; 4%Q] 4 0
  = py.Raise py.ZeroDivisionError /\
  exists right,
    audio_utils.librosa_pad_lr [1%Q; 2%Q; 3%Q; 4%Q] 4 2
    = py.Return (0%Z, right) /\
    (0 < right <= 2)%Z /\
    ((Z.of_nat (length [1%Q; 2%Q; 3%Q; 4%Q]) + right) mod 2 = 0)%Z /\
    ((Z.of_nat (length [1%Q; 2%Q; 3%Q; 4%Q]) mod 2 = 0)%Z -> right = 2%Z).
Proof.
  destruct (librosa_pad_lr_next_multiple [1%Q; 2%Q; 3%Q; 4%Q] 4 2) as [H0 H].
  split; [exact H0|]. apply H. lia.
Defined.

(** ** Trimming silence *)

Section SilenceFacts.

Import audio_utils.

(** Where a loop with [break] leaves its variable. *)
Lemma for_break_spec (test : Z -> bool) (vals : list Z) (v : Z) :
  py.for_break test vals = Some v ->
  exists pre post,
    vals = pre ++ v :: post /\
    Forall (fun u => test u = false) pre /\
    (test v = true \/ post = []).
Proof.
  revert v. induction vals as [|u vals IH]; intros v H; [discriminate|].
  cbn in H. destruct (test u) eqn:Hu.
  - injection H as <-. exists [], vals. repeat split; [constructor|left; exact Hu].
  - destruct vals as [|w vals].
    + injection H as <-. exists [], []. repeat split; [constructor|right; reflexivity].
    + destruct (IH v H) as (pre & post & Hv & Hpre & Hlast).
      exists (u :: pre), post. split; [cbn; rewrite Hv; reflexivity|].
      split; [constructor; assumption|exact Hlast].
Qed.

Lemma for_break_bound (test : Z -> bool) (vals : list Z) :
  vals <> [] -> exists v, py.for_break test vals = Some v.
Proof.
  induction vals as [|u vals IH]; [contradiction|]. intros _. cbn.
  destruct (test u); [eexists; reflexivity|].
  destruct vals as [|w vals]; [eexists; reflexivity|].
  apply IH. discriminate.
Qed.

(** A loop that meets a value passing the test breaks at one. *)
Lemma for_break_found (test : Z -> bool) (vals : list Z) (u : Z) :
  In u vals -> test u = true ->
  exists v, py.for_break test vals = Some v /\ test v = true.
Proof.
  induction vals as [|w vals IH]; [contradiction|]. intros Hin Hu. cbn.
  destruct (test w) eqn:Hw; [exists w; split; [reflexivity|exact Hw]|].
  destruct Hin as [-> | Hin]; [congruence|].
  destruct vals as [|w' vals]; [contradiction|].
  apply IH; assumption.
Qed.

Lemma map_seq_split (f : nat -> Z) :
  forall n a pre v post,
    map f (seq a n) = pre ++ v :: post ->
    pre = map f (seq a (length pre)) /\ v = f (a + length pre)%nat /\
    (length pre < n)%nat.
Proof.
  induction n as [|n IH]; intros a pre v post H.
  - destruct pre; discriminate.
  - destruct pre as [|p pre]; cbn in H.
    + injection H as <- _. cbn. rewrite Nat.add_0_r.
      repeat split. lia.
    + injection H as <- H. destruct (IH _ _ _ _ H) as (Hpre & Hv & Hlt).
      cbn [length seq map]. split; [f_equal; exact Hpre|].
      split; [rewrite Hv; f_equal; lia|lia].
Qed.

Variable dt : dtype.
Variable quantized : list Z.
Variable threshold : Z.

Let size : Z := Z.of_nat (length quantized).

Lemma ascending_range :
  py.range 0 size 1
  = py.Return (map (fun i => (0 + Z.of_nat i * 1)%Z)
                   (seq 0 (length quantized))).
Proof.
  unfold py.range, py.range_len. cbn [Z.eqb Z.gtb Z.compare].
  f_equal. f_equal. f_equal. subst size.
  replace (Z.of_nat (length quantized) - 0 + 1 - 1)%Z
    with (Z.of_nat (length quantized)) by lia.
  rewrite Z.div_1_r. apply Nat2Z.id.
Qed.

Lemma descending_range :
  py.range (size - 1) 1 (-1)
  = py.Return (map (fun i => (size - 1 + Z.of_nat i * -1)%Z)
                   (seq 0 (length quantized - 2))).
Proof.
  unfold py.range, py.range_len. cbn [Z.eqb Z.gtb Z.compare Z.opp].
  f_equal. f_equal. f_equal. subst size.
  replace (Z.of_nat (length quantized) - 1 - 1 - -1 - 1)%Z
    with (Z.of_nat (length quantized) - 2)%Z by lia.
  rewrite Z.div_1_r. lia.
Qed.

(** What a returned pair of indices says about the signal. *)
Lemma start_and_end_sound (s e : Z) :
  start_and_end_indices dt quantized threshold = py.Return (s, e) ->
  (0 <= s <= e)%Z /\ (2 <= e < size)%Z /\
  loud dt quantized threshold s = true /\
  loud dt quantized threshold e = true /\
  (forall i, (0 <= i < s)%Z -> loud dt quantized threshold i = false) /\
  (forall i, (e < i < size)%Z -> loud dt quantized threshold i = false).
Proof.
  unfold start_and_end_indices. fold size.
  rewrite ascending_range, descending_range. cbn [py.bind].
  destruct (py.for_break _ (map _ (seq 0 (length quantized))))
    as [s'|] eqn:Hs; [|discriminate].
  destruct (loud dt quantized threshold s') eqn:Hls; [|discriminate].
  cbn [negb].
  destruct (py.for_break _ (map _ (seq 0 (length quantized - 2))))
    as [e'|] eqn:He; [|discriminate].
  destruct (loud dt quantized threshold e') eqn:Hle; [|discriminate].
  cbn [negb]. intros H. injection H as <- <-.
  apply for_break_spec in Hs, He.
  destruct Hs as (pre & post & Hvals & Hpre & _).
  destruct He as (pre' & post' & Hvals' & Hpre' & _).
  apply map_seq_split in Hvals, Hvals'.
  destruct Hvals as (Hp & Hsv & Hlt). destruct Hvals' as (Hp' & Hev & Hlt').
  cbn [plus] in Hsv, Hev.
  assert (Hbefore : forall i, (0 <= i < s')%Z ->
                              loud dt quantized threshold i = false).
  { intros i Hi. rewrite Forall_forall in Hpre. apply Hpre.
    rewrite Hp. apply in_map_iff. exists (Z.to_nat i).
    split; [lia|]. apply in_seq. lia. }
  assert (Hafter : forall i, (e' < i < size)%Z ->
                             loud dt quantized threshold i = false).
  { intros i Hi. rewrite Forall_forall in Hpre'. apply Hpre'.
    rewrite Hp'. apply in_map_iff. exists (Z.to_nat (size - 1 - i)).
    split; [lia|]. apply in_seq. lia. }
  assert (Hse : (s' <= e')%Z).
  { destruct (Z.le_gt_cases s' e') as [H|H]; [exact H|].
    rewrite Hbefore in Hle by lia. discriminate. }
  subst size. repeat split; try assumption; lia.
Qed.

(** The function returns exactly when a sample at index 2 or more is
    not silent. *)
Lemma start_and_end_returns :
  (exists s e, start_and_end_indices dt quantized threshold = py.Return (s, e))
  <-> exists i, (2 <= i < size)%Z /\ loud dt quantized threshold i = true.
Proof.
  split.
  - intros (s & e & H). apply start_and_end_sound in H.
    exists e. split; [apply H|apply H].
  - intros (i & Hi & Hloud).
    unfold start_and_end_indices. fold size.
    rewrite ascending_range, descending_range. cbn [py.bind].
    destruct (for_break_found (loud dt quantized threshold)
                (map (fun j => (0 + Z.of_nat j * 1)%Z)
                     (seq 0 (length quantized))) i)
      as (s & -> & Hs).
    { apply in_map_iff. exists (Z.to_nat i). split; [lia|].
      apply in_seq. subst size. lia. }
    { exact Hloud. }
    rewrite Hs. cbn [negb].
    destruct (for_break_found (loud dt quantized threshold)
                (map (fun j => (size - 1 + Z.of_nat j * -1)%Z)
                     (seq 0 (length quantized - 2))) i)
      as (e & -> & He).
    { apply in_map_iff. exists (Z.to_nat (size - 1 - i)). split; [lia|].
      apply in_seq. subst size. lia. }
    { exact Hloud. }
    rewrite He. cbn [negb]. exists s, e. reflexivity.
Qed.

(** Without wrap-around the test is the one on integers. *)
Lemma loud_plain (i : Z) :
  plain_samples dt quantized -> (0 <= i < size)%Z ->
  loud dt quantized threshold i
  = (Z.abs (nth (Z.to_nat i) quantized 0 - 127) >? threshold)%Z.
Proof.
  intros Hplain Hi. unfold loud, plain_samples in *.
  rewrite Forall_forall in Hplain.
  destruct (Hplain (nth (Z.to_nat i) quantized 0%Z)) as (_ & H1 & H2).
  { apply nth_In. subst size. lia. }
  unfold representable in H1, H2. rewrite H1, H2. reflexivity.
Qed.

End SilenceFacts.

(** Decides [plain_samples] on samples that are written out. *)
Ltac plain_samples_by_computation :=
  repeat first [ apply Forall_nil | apply Forall_cons
               | (vm_compute; reflexivity) | split ].

(** X14. On samples whose arithmetic does not wrap around in the type
    of the array: when [start_and_end_indices] returns [(start, end)],
    both samples are non-silent, [start] is the first non-silent sample
    of the signal, no sample after [end] is non-silent, and
    [0 <= start <= end < size] with [end >= 2]. *)
Theorem start_and_end_indices_sound :
  forall (dt : audio_utils.dtype) (quantized : list Z)
         (silence_threshold s e : Z),
    audio_utils.plain_samples dt quantized ->
    audio_utils.start_and_end_indices dt quantized silence_threshold
    = py.Return (s, e) ->
    (0 <= s <= e)%Z /\ (2 <= e < Z.of_nat (length quantized))%Z /\
    (silence_threshold < Z.abs (nth (Z.to_nat s) quantized 0 - 127))%Z /\
    (silence_threshold < Z.abs (nth (Z.to_nat e) quantized 0 - 127))%Z /\
    (forall i, (0 <= i < s)%Z ->
               (Z.abs (nth (Z.to_nat i) quantized 0 - 127)
                <= silence_threshold)%Z) /\
    (forall i, (e < i < Z.of_nat (length quantized))%Z ->
               (Z.abs (nth (Z.to_nat i) quantized 0 - 127)
                <= silence_threshold)%Z).
Proof.
  intros dt quantized thr s e Hplain H.
  destruct (start_and_end_sound _ _ _ H)
    as (Hse & He & Hs1 & He1 & Hbefore & Hafter).
  split; [exact Hse|]. split; [exact He|].
  rewrite (loud_plain thr Hplain) in Hs1 by lia.
  rewrite (loud_plain thr Hplain) in He1 by lia.
  split; [lia|]. split; [lia|]. split.
  - intros i Hi. specialize (Hbefore i Hi).
    rewrite (loud_plain thr Hplain) in Hbefore by lia. lia.
  - intros i Hi. specialize (Hafter i Hi).
    rewrite (loud_plain thr Hplain) in Hafter by lia. lia.
Qed.

Lemma start_and_end_indices_sound_witness :
  let q := [127; 127; 130; 127; 140; 127]%Z in
  (0 <= 2 <= 4)%Z /\ (2 <= 4 < Z.of_nat (length q))%Z /\
  (2 < Z.abs (nth (Z.to_nat 2) q 0 - 127))%Z /\
  (2 < Z.abs (nth (Z.to_nat 4) q 0 - 127))%Z /\
  (forall i, (0 <= i < 2)%Z ->
             (Z.abs (nth (Z.to_nat i) q 0 - 127) <= 2)%Z) /\
  (forall i, (4 < i < Z.of_nat (length q))%Z ->
             (Z.abs (nth (Z.to_nat i) q 0 - 127) <= 2)%Z).
Proof.
  intros q.
  apply (@start_and_end_indices_sound audio_utils.int64 q 2 2 4).
  - plain_samples_by_computation.
  - reflexivity.
Defined.

(** X15. On samples whose arithmetic does not wrap around in the type
    of the array, [start_and_end_indices] returns exactly when some
    sample at index 2 or above is non-silent: the backward search stops
    at index 2. A signal of fewer than three samples, or one whose only
    non-silent samples are its first two, makes it raise. *)
Theorem start_and_end_indices_returns_iff :
  forall (dt : audio_utils.dtype) (quantized : list Z)
         (silence_threshold : Z),
    audio_utils.plain_samples dt quantized ->
    ((exists s e,
         audio_utils.start_and_end_indices dt quantized silence_threshold
         = py.Return (s, e))
     <-> exists i, (2 <= i < Z.of_nat (length quantized))%Z /\
                   (silence_threshold
                    < Z.abs (nth (Z.to_nat i) quantized 0 - 127))%Z) /\
    (length quantized < 3 ->
     forall s e,
       audio_utils.start_and_end_indices dt quantized silence_threshold
       <> py.Return (s, e)).
Proof.
  intros dt quantized thr Hplain. split.
  - rewrite start_and_end_returns. split.
    + intros (i & Hi & Hloud). exists i. split; [exact Hi|].
      rewrite (loud_plain thr Hplain) in Hloud by lia. lia.
    + intros (i & Hi & Hloud). exists i. split; [exact Hi|].
      rewrite (loud_plain thr Hplain) by lia. lia.
  - intros Hlen s e H. apply start_and_end_sound in H. lia.
Qed.

Lemma start_and_end_indices_returns_iff_witness :
  (exists s e,
      audio_utils.start_and_end_indices
        audio_utils.int64 [127; 127; 130; 127; 140; 127]%Z 2
      = py.Return (s, e)) /\
  audio_utils.start_and_end_indices audio_utils.int64 [200; 127]%Z 2
  <> py.Return (0%Z, 1%Z).
Proof.
  split.
  - apply (proj1 (@start_and_end_indices_returns_iff
                    audio_utils.int64 [127; 127; 130; 127; 140; 127]%Z 2
                    ltac:(plain_samples_by_computation))).
    exists 2%Z. split; [cbn; lia|reflexivity].
  - apply (proj2 (@start_and_end_indices_returns_iff
                    audio_utils.int64 [200; 127]%Z 2
                    ltac:(plain_samples_by_computation))).
    cbn. lia.
Defined.

(** A non-silent first sample alone does not count. *)
Example start_and_end_indices_first_sample :
  audio_utils.start_and_end_indices audio_utils.int64
                                    [200; 127; 127; 127]%Z 2
  = py.Raise py.AssertionError /\
  audio_utils.start_and_end_indices audio_utils.int64 [200; 127]%Z 2
  = py.Raise (py.UnboundLocalError
                "local variable 'end' referenced before assignment"%string) /\
  audio_utils.start_and_end_indices audio_utils.int64 []%Z 2
  = py.Raise (py.UnboundLocalError
                "local variable 'start' referenced before assignment"%string).
Proof. repeat split. Qed.

(** On unsigned samples below 127 the difference wraps around: a signal
    that is silent for integers is not for the array. *)
Example start_and_end_indices_unsigned :
  audio_utils.start_and_end_indices audio_utils.uint8
                                    [126; 126; 126; 126]%Z 2
  = py.Return (0%Z, 3%Z) /\
  audio_utils.start_and_end_indices audio_utils.int64
                                    [126; 126; 126; 126]%Z 2
  = py.Raise py.AssertionError.
Proof. split; reflexivity. Qed.

(** ** Decibels *)

Section DecibelFacts.

Import audio_db.
Local Open Scope R_scope.

Variable hp : audio_utils.hparams.

Lemma ln_10_pos : 0 < ln 10.
Proof. rewrite <- ln_1. apply ln_increasing; lra. Qed.

Lemma min_level_pos : 0 < min_level hp.
Proof. apply exp_pos. Qed.

Lemma floored_pos (v : R) : 0 < Rmax (min_level hp) v.
Proof.
  pose proof min_level_pos. pose proof (Rmax_l (min_level hp) v). lra.
Qed.

Lemma amp_to_db_floor (v : R) :
  Q2R (audio_utils.min_level_db hp) <= 20 * log10 (Rmax (min_level hp) v).
Proof.
  pose proof ln_10_pos as H10. pose proof min_level_pos as Hml.
  assert (Hln : ln (min_level hp) <= ln (Rmax (min_level hp) v)).
  { destruct (Rle_lt_or_eq_dec _ _ (Rmax_l (min_level hp) v)) as [Hlt | <-].
    - left. apply ln_increasing; assumption.
    - right. reflexivity. }
  unfold min_level in Hln at 1. rewrite ln_exp in Hln.
  unfold log10.
  assert (Hdiv : Q2R (audio_utils.min_level_db hp) / 20
                 <= ln (Rmax (min_level hp) v) / ln 10).
  { apply (Rmult_le_reg_r (ln 10)); [exact H10|].
    unfold Rdiv at 2. rewrite Rmult_assoc, Rinv_l by lra. lra. }
  lra.
Qed.

Lemma db_to_amp_inverse (v : R) :
  Rpower 10 (20 * log10 (Rmax (min_level hp) v) * 0.05)
  = Rmax (min_level hp) v.
Proof.
  pose proof ln_10_pos as H10. pose proof (floored_pos v) as Hpos.
  unfold Rpower, log10.
  replace 0.05 with (5 / 100) by lra.
  replace (20 * (ln (Rmax (min_level hp) v) / ln 10) * (5 / 100) * ln 10)
    with (ln (Rmax (min_level hp) v)) by (field; lra).
  apply exp_ln. exact Hpos.
Qed.

End DecibelFacts.

(** X16. Converting amplitudes to decibels never goes below
    [min_level_db], and converting the decibels back gives each
    amplitude raised to the floor [10 ** (min_level_db / 20)]: amplitudes
    at or above the floor come back unchanged (on real numbers). *)
Theorem amp_to_db_roundtrip :
  forall (hp : audio_utils.hparams) (x : list R),
    Forall (fun d => (Q2R (audio_utils.min_level_db hp) <= d)%R)
           (audio_db._amp_to_db x hp) /\
    audio_db._db_to_amp (audio_db._amp_to_db x hp)
    = map (Rmax (audio_db.min_level hp)) x /\
    (Forall (fun v => (audio_db.min_level hp <= v)%R) x ->
     audio_db._db_to_amp (audio_db._amp_to_db x hp) = x).
Proof.
  intros hp x.
  assert (Hback : audio_db._db_to_amp (audio_db._amp_to_db x hp)
                  = map (Rmax (audio_db.min_level hp)) x).
  { unfold audio_db._db_to_amp, audio_db._amp_to_db. rewrite map_map.
    apply map_ext. intros v. apply db_to_amp_inverse. }
  split; [|split; [exact Hback|]].
  - unfold audio_db._amp_to_db. apply Forall_map, Forall_forall.
    intros v _. apply amp_to_db_floor.
  - intros Hx. rewrite Hback. rewrite <- (map_id x) at 2.
    apply map_ext_in. intros v Hv. rewrite Forall_forall in Hx.
    apply Rmax_right, Hx, Hv.
Qed.

Lemma amp_to_db_roundtrip_witness :
  audio_db._db_to_amp
    (audio_db._amp_to_db [1; 2]%R
       {| audio_utils.allow_clipping_in_normalization := true;
          audio_utils.symmetric_mels := true;
          audio_utils.max_abs_value := 4%Q;
          audio_utils.min_level_db := (-100)%Q |})
  = [1; 2]%R.
Proof.
  apply (proj2 (proj2 (amp_to_db_roundtrip
                         {| audio_utils.allow_clipping_in_normalization := true;
                            audio_utils.symmetric_mels := true;
                            audio_utils.max_abs_value := 4%Q;
                            audio_utils.min_level_db := (-100)%Q |}
                         [1; 2]%R))).
  assert (H : (audio_db.min_level
                 {| audio_utils.allow_clipping_in_normalization := true;
                    audio_utils.symmetric_mels := true;
                    audio_utils.max_abs_value := 4%Q;
                    audio_utils.min_level_db := (-100)%Q |} <= 1)%R).
  { unfold audio_db.min_level. rewrite <- exp_0. left.
    apply exp_increasing. cbn [audio_utils.min_level_db].
    pose proof ln_10_pos. unfold Q2R. cbn. nra. }
  constructor; [lra|constructor; [lra|constructor]].
Defined.

(** ** Ranges of the normalisation *)

Section NormalizeRanges.

Import audio_utils.
Local Open Scope Q_scope.

Lemma clip_range (x lo hi : Q) : lo <= hi -> lo <= Qmin hi (Qmax x lo) <= hi.
Proof.
  intros H. split; [|apply Q.le_min_l].
  apply Q.min_glb; [exact H|apply Q.le_max_r].
Qed.

Lemma np_clip_range (a : ndarray) (lo hi : Q) :
  lo <= hi -> Forall (fun d => lo <= d <= hi) (np_clip a lo hi).
Proof.
  intros H. unfold np_clip. apply Forall_map, Forall_forall.
  intros x _. apply clip_range, H.
Qed.

Lemma ndarray_max_ge (l : list Q) :
  forall x s, In s (x :: l) -> s <= fold_left Qmax l x.
Proof.
  induction l as [|y l IH]; intros x s Hin.
  - destruct Hin as [<- | []]. apply Qle_refl.
  - cbn [fold_left]. destruct Hin as [<- | [<- | Hin]].
    + eapply Qle_trans; [apply Q.le_max_l|]. apply IH. left. reflexivity.
    + eapply Qle_trans; [apply Q.le_max_r|]. apply IH. left. reflexivity.
    + apply IH. right. exact Hin.
Qed.

Lemma ndarray_min_le (l : list Q) :
  forall x s, In s (x :: l) -> fold_left Qmin l x <= s.
Proof.
  induction l as [|y l IH]; intros x s Hin.
  - destruct Hin as [<- | []]. apply Qle_refl.
  - cbn [fold_left]. destruct Hin as [<- | [<- | Hin]].
    + eapply Qle_trans; [|apply Q.le_min_l]. apply IH. left. reflexivity.
    + eapply Qle_trans; [|apply Q.le_min_r]. apply IH. left. reflexivity.
    + apply IH. right. exact Hin.
Qed.

Variable hp : hparams.

(** An array that passes the assertion lies in the decibel range. *)
Lemma assertion_in_range (x : Q) (l : list Q) :
  Qle_bool (fold_left Qmax l x) 0 = true ->
  Qle_bool 0 (fold_left Qmin l x - min_level_db hp) = true ->
  in_db_range hp (x :: l).
Proof.
  intros Hhi Hlo. apply Qle_bool_iff in Hhi, Hlo.
  apply Forall_forall. intros s Hs.
  pose proof (@ndarray_max_ge l x s Hs). pose proof (@ndarray_min_le l x s Hs).
  split; lra.
Qed.

Hypothesis max_abs_pos : 0 < max_abs_value hp.
Hypothesis min_db_neg : min_level_db hp < 0.

Lemma denormalize_symmetric_range (d : Q) :
  - max_abs_value hp <= d <= max_abs_value hp ->
  min_level_db hp
  <= (d + max_abs_value hp) * - min_level_db hp / (2 * max_abs_value hp)
     + min_level_db hp
  <= 0.
Proof.
  intros [Hlo Hhi].
  generalize dependent (max_abs_value hp). intros M HM Hlo Hhi.
  generalize dependent (min_level_db hp). intros l Hl.
  assert (H0 : 0 <= (d + M) * - l / (2 * M)).
  { apply Qle_shift_div_l; [lra|]. nra. }
  assert (H1 : (d + M) * - l / (2 * M) <= - l).
  { apply Qle_shift_div_r; [lra|]. nra. }
  split; lra.
Qed.

Lemma denormalize_asymmetric_range (d : Q) :
  0 <= d <= max_abs_value hp ->
  min_level_db hp
  <= d * - min_level_db hp / max_abs_value hp + min_level_db hp
  <= 0.
Proof.
  intros [Hlo Hhi].
  generalize dependent (max_abs_value hp). intros M HM Hhi.
  generalize dependent (min_level_db hp). intros l Hl.
  assert (H0 : 0 <= d * - l / M).
  { apply Qle_shift_div_l; [lra|]. nra. }
  assert (H1 : d * - l / M <= - l).
  { apply Qle_shift_div_r; [lra|]. nra. }
  split; lra.
Qed.

Lemma normalize_symmetric_inverse (d : Q) :
  (2 * max_abs_value hp)
  * (((d + max_abs_value hp) * - min_level_db hp / (2 * max_abs_value hp)
      + min_level_db hp - min_level_db hp) / (- min_level_db hp))
  - max_abs_value hp == d.
Proof. field. split; lra. Qed.

Lemma normalize_asymmetric_inverse (d : Q) :
  max_abs_value hp
  * ((d * - min_level_db hp / max_abs_value hp
      + min_level_db hp - min_level_db hp) / (- min_level_db hp)) == d.
Proof. field. split; lra. Qed.

End NormalizeRanges.

(** X17. With [max_abs_value > 0] and [min_level_db < 0], whatever
    [_normalize] returns lies in [[-max_abs_value, max_abs_value]] for
    symmetric mels and in [[0, max_abs_value]] otherwise, with clipping
    (for any input) and without (for what passes the assertion). *)
Theorem normalize_in_range :
  forall (hp : audio_utils.hparams) (S D : audio_utils.ndarray),
    (0 < audio_utils.max_abs_value hp)%Q ->
    (audio_utils.min_level_db hp < 0)%Q ->
    audio_utils._normalize S hp = py.Return D ->
    Forall (fun d =>
              ((if audio_utils.symmetric_mels hp
                then - audio_utils.max_abs_value hp else 0) <= d
               <= audio_utils.max_abs_value hp)%Q) D.
Proof.
  intros hp S D HM Hl. unfold audio_utils._normalize.
  destruct (audio_utils.allow_clipping_in_normalization hp).
  - destruct (audio_utils.symmetric_mels hp); intros H; injection H as <-;
      apply np_clip_range; lra.
  - destruct S as [|x l]; [discriminate|]. cbn [audio_utils.ndarray_max py.bind].
    destruct (Qle_bool (fold_left Qmax l x) 0) eqn:Hhi; [|discriminate].
    cbn [negb audio_utils.ndarray_min py.bind].
    destruct (Qle_bool 0 (fold_left Qmin l x - audio_utils.min_level_db hp))
      eqn:Hlo; [|discriminate].
    cbn [negb]. pose proof (assertion_in_range hp x l Hhi Hlo) as Hin.
    revert Hin. generalize (x :: l). intros S Hin.
    destruct (audio_utils.symmetric_mels hp); intros H; injection H as <-;
      apply Forall_map; (eapply Forall_impl; [|exact Hin]); cbn;
      intros s [Hs1 Hs2].
    + apply symmetric_in_range; assumption.
    + apply asymmetric_in_range; assumption.
Qed.

Lemma normalize_in_range_witness :
  Forall (fun d => ((- 4) <= d <= 4)%Q)
         [((2 * 4) * (((-50) - (-100)) / (- (-100))) - 4)%Q;
          ((2 * 4) * ((0 - (-100)) / (- (-100))) - 4)%Q].
Proof.
  apply (@normalize_in_range
           {| audio_utils.allow_clipping_in_normalization := false;
              audio_utils.symmetric_mels := true;
              audio_utils.max_abs_value := 4%Q;
              audio_utils.min_level_db := (-100)%Q |}
           [(-50)%Q; 0%Q]);
    reflexivity.
Defined.

(** X18. Without clipping, [_normalize] raises [AssertionError] on every
    non-empty array that holds a value above 0 or below [min_level_db]:
    nothing out of range is normalised. *)
Theorem normalize_asserts_out_of_range :
  forall (hp : audio_utils.hparams) (S : audio_utils.ndarray),
    audio_utils.allow_clipping_in_normalization hp = false ->
    S <> [] ->
    ~ audio_utils.in_db_range hp S ->
    audio_utils._normalize S hp = py.Raise py.AssertionError.
Proof.
  intros hp S Hclip Hne Hout. unfold audio_utils._normalize. rewrite Hclip.
  destruct S as [|x l]; [contradiction|].
  cbn [audio_utils.ndarray_max py.bind].
  destruct (Qle_bool (fold_left Qmax l x) 0) eqn:Hhi; [|reflexivity].
  cbn [negb audio_utils.ndarray_min py.bind].
  destruct (Qle_bool 0 (fold_left Qmin l x - audio_utils.min_level_db hp))
    eqn:Hlo; [|reflexivity].
  exfalso. apply Hout. exact (assertion_in_range hp x l Hhi Hlo).
Qed.

Lemma normalize_asserts_out_of_range_witness :
  audio_utils._normalize [(-50)%Q; (-101)%Q]
    {| audio_utils.allow_clipping_in_normalization := false;
       audio_utils.symmetric_mels := true;
       audio_utils.max_abs_value := 4%Q;
       audio_utils.min_level_db := (-100)%Q |}
  = py.Raise py.AssertionError.
Proof.
  apply normalize_asserts_out_of_range.
  - reflexivity.
  - discriminate.
  - intros H. inversion H as [|? ? _ H2]; subst.
    inversion H2 as [|? ? [H3 _] _]; subst. cbn in H3.
    apply (Qle_bool_iff (-100) (-101)) in H3. discriminate H3.
Defined.

(** X19. With clipping allowed, [max_abs_value > 0] and
    [min_level_db < 0], normalising what [_denormalize] returns gives the
    input clipped to the normalised range: the two are inverse to each
    other up to clipping. *)
Theorem denormalize_normalize_clips :
  forall (hp : audio_utils.hparams) (D : audio_utils.ndarray),
    audio_utils.allow_clipping_in_normalization hp = true ->
    (0 < audio_utils.max_abs_value hp)%Q ->
    (audio_utils.min_level_db hp < 0)%Q ->
    exists N,
      audio_utils._normalize (audio_utils._denormalize D hp) hp
      = py.Return N /\
      audio_utils.same_values N
        (audio_utils.np_clip D
           (if audio_utils.symmetric_mels hp
            then (- audio_utils.max_abs_value hp)%Q else 0%Q)
           (audio_utils.max_abs_value hp)).
Proof.
  intros hp D Hclip HM Hl.
  unfold audio_utils._normalize, audio_utils._denormalize. rewrite Hclip.
  destruct (audio_utils.symmetric_mels hp); eexists; (split; [reflexivity|]).
  - induction D as [|d D IH]; [constructor|]. cbn [map audio_utils.np_clip].
    constructor; [|exact IH].
    set (c := Qmin (audio_utils.max_abs_value hp)
                   (Qmax d (- audio_utils.max_abs_value hp))).
    pose proof (normalize_symmetric_inverse hp HM Hl c) as Hinv.
    assert (Hc : (- audio_utils.max_abs_value hp <= c
                  <= audio_utils.max_abs_value hp)%Q)
      by (apply clip_range; lra).
    eapply Qeq_trans; [apply clip_inside; rewrite Hinv; apply Hc|exact Hinv].
  - induction D as [|d D IH]; [constructor|]. cbn [map audio_utils.np_clip].
    constructor; [|exact IH].
    set (c := Qmin (audio_utils.max_abs_value hp) (Qmax d 0)).
    pose proof (normalize_asymmetric_inverse hp HM Hl c) as Hinv.
    assert (Hc : (0 <= c <= audio_utils.max_abs_value hp)%Q)
      by (apply clip_range; lra).
    eapply Qeq_trans; [apply clip_inside; rewrite Hinv; apply Hc|exact Hinv].
Qed.

Lemma denormalize_normalize_clips_witness :
  exists N,
    audio_utils._normalize
      (audio_utils._denormalize [9%Q; 1%Q]
         {| audio_utils.allow_clipping_in_normalization := true;
            audio_utils.symmetric_mels := true;
            audio_utils.max_abs_value := 4%Q;
            audio_utils.min_level_db := (-100)%Q |})
      {| audio_utils.allow_clipping_in_normalization := true;
         audio_utils.symmetric_mels := true;
         audio_utils.max_abs_value := 4%Q;
         audio_utils.min_level_db := (-100)%Q |}
    = py.Return N /\
    audio_utils.same_values N (audio_utils.np_clip [9%Q; 1%Q] (- 4)%Q 4%Q).
Proof.
  apply (@denormalize_normalize_clips
           {| audio_utils.allow_clipping_in_normalization := true;
              audio_utils.symmetric_mels := true;
              audio_utils.max_abs_value := 4%Q;
              audio_utils.min_level_db := (-100)%Q |} [9%Q; 1%Q]);
    reflexivity.
Defined.

(** X20. With clipping allowed, [max_abs_value > 0] and
    [min_level_db < 0], [_denormalize] maps every input, in range or
    not, to decibel values in [[min_level_db, 0]]. *)
Theorem denormalize_in_db_range :
  forall (hp : audio_utils.hparams) (D : audio_utils.ndarray),
    audio_utils.allow_clipping_in_normalization hp = true ->
    (0 < audio_utils.max_abs_value hp)%Q ->
    (audio_utils.min_level_db hp < 0)%Q ->
    audio_utils.in_db_range hp (audio_utils._denormalize D hp).
Proof.
  intros hp D Hclip HM Hl.
  unfold audio_utils._denormalize, audio_utils.in_db_range. rewrite Hclip.
  destruct (audio_utils.symmetric_mels hp); apply Forall_map.
  - eapply Forall_impl;
      [|apply (@np_clip_range D (- audio_utils.max_abs_value hp)
                 (audio_utils.max_abs_value hp)); lra].
    cbn. intros d Hd. apply denormalize_symmetric_range; assumption.
  - eapply Forall_impl;
      [|apply (@np_clip_range D 0 (audio_utils.max_abs_value hp)); lra].
    cbn. intros d Hd. apply denormalize_asymmetric_range; assumption.
Qed.

Lemma denormalize_in_db_range_witness :
  audio_utils.in_db_range
    {| audio_utils.allow_clipping_in_normalization := true;
       audio_utils.symmetric_mels := false;
       audio_utils.max_abs_value := 4%Q;
       audio_utils.min_level_db := (-100)%Q |}
    (audio_utils._denormalize [9%Q; (-3)%Q; 1%Q]
       {| audio_utils.allow_clipping_in_normalization := true;
          audio_utils.symmetric_mels := false;
          audio_utils.max_abs_value := 4%Q;
          audio_utils.min_level_db := (-100)%Q |}).
Proof.
  apply denormalize_in_db_range; reflexivity.
Defined.

(** ** The attention weights and the stop probabilities *)

Section DistributionFacts.

Import tensor tacotron.
Local Open Scope R_scope.

Lemma sum_bounds_entry (row : vec) (w : R) :
  Forall (fun v => 0 < v) row -> In w row -> w <= sum row.
Proof.
  unfold sum. induction 1 as [|v row Hv Hrow IH]; [contradiction|].
  assert (G : 0 <= fold_right Rplus 0 row).
  { clear IH. induction Hrow as [|u row Hu _ IH]; cbn; lra. }
  intros [-> | Hin]; cbn; [lra|]. specialize (IH Hin). lra.
Qed.

Lemma sigmoid_unit (x : R) : 0 < sigmoid x < 1.
Proof.
  unfold sigmoid. pose proof (exp_pos (- x)) as He.
  assert (Hinv : 1 / (1 + exp (- x)) * (1 + exp (- x)) = 1) by (field; lra).
  generalize dependent (1 / (1 + exp (- x))). intros s Hs.
  generalize dependent (exp (- x)). intros e He Hs. split; nra.
Qed.

Lemma Decoder_forward_stop_spec self rng enc encp prenet_in hs cs ctx t chars
      mels scores hs' cs' ctx' stop self' :
  Decoder.forward self rng enc encp prenet_in hs cs ctx t chars
  = py.Return ((mels, scores, hs', cs', ctx', stop), self') ->
  exists S, stop = map (map sigmoid) S.
Proof.
  destruct hs as [[attn_hidden rnn1_hidden] rnn2_hidden].
  destruct cs as [rnn1_cell rnn2_cell]. unfold Decoder.forward.
  match goal with
  | |- context [LSA.forward ?a ?e ?q ?i ?c] =>
      destruct (LSA.forward a e q i c) as [[sc a']|]
  end; cbn [py.bind]; [|discriminate].
  match goal with
  | |- context [view3 ?m ?b ?n ?k] => destruct (view3 m b n k) as [v|]
  end; cbn [py.bind]; [|discriminate].
  intros H. injection H as _ _ _ _ _ <- _. eexists. reflexivity.
Qed.

End DistributionFacts.

(** X21. The weights a call of [LSA.forward] returns for one batch
    element form a probability distribution over all its positions,
    padding included: every weight lies in (0, 1] and the weights of a
    non-empty row add up to 1. *)
Theorem LSA_forward_distribution :
  forall (self : tacotron.LSA.instance) (encoder_seq_proj : tensor.tensor3)
         (query : tensor.tensor2) (t : Z) (chars : list (list Z))
         (scores : tensor.tensor3) (self' : tacotron.LSA.instance),
    tacotron.LSA.forward self encoder_seq_proj query t chars
    = py.Return (scores, self') ->
    Forall (fun row => Forall (fun w => 0 < w <= 1)%R row /\
                       (row <> [] -> tensor.sum row = 1%R))
           (tacotron.LSA.weights scores).
Proof.
  intros self enc query t chars scores self' H.
  destruct (LSA_forward_spec _ _ _ _ _ H) as (loc & _ & Hws & _).
  rewrite Hws. apply Forall_map, Forall_forall. intros u _.
  assert (Hpos : Forall (fun v => 0 < v)%R (tensor.softmax u)).
  { apply Forall_forall. intros w Hw. exact (softmax_positive _ _ Hw). }
  assert (Hsum : tensor.softmax u <> [] -> tensor.sum (tensor.softmax u) = 1%R).
  { intros Hne. apply softmax_sum. intros ->. apply Hne. reflexivity. }
  split; [|exact Hsum].
  apply Forall_forall. intros w Hw. split.
  - exact (softmax_positive _ _ Hw).
  - rewrite <- Hsum by (intros E; rewrite E in Hw; contradiction).
    apply sum_bounds_entry; assumption.
Qed.

Lemma LSA_forward_distribution_witness :
  let self := {| tacotron.LSA.energy := fun _ _ _ => [0; 0]%R;
                 tacotron.LSA.cumulative := None;
                 tacotron.LSA.attention := None |} in
  exists scores self',
    tacotron.LSA.forward self [[[0]; [0]]]%R [[0]]%R 0 [[7; 0]%Z]
    = py.Return (scores, self') /\
    Forall (fun row => Forall (fun w => 0 < w <= 1)%R row /\
                       (row <> [] -> tensor.sum row = 1%R))
           (tacotron.LSA.weights scores).
Proof.
  intros self. eexists _, _. split; [reflexivity|].
  eapply (LSA_forward_distribution self [[[0]; [0]]]%R [[0]]%R 0 [[7; 0]%Z]).
  reflexivity.
Defined.

(** X22. On arguments that fit a module built for them ([b >= 1] batch
    elements of [T >= 1] positions, projections and queries of width
    [attn_dim]), [LSA.forward] returns weights of shape [(b, T)] when it
    is called with step index 0 or holds an accumulator of shape
    [(b, T)] left by an earlier call; on a module that was never called,
    a step index other than 0 raises [AttributeError]. *)
Theorem LSA_forward_needs_first_step :
  forall (b T d : nat) (self : tacotron.LSA.instance)
         (encoder_seq_proj : tensor.tensor3)
         (query : tensor.tensor2) (t : Z) (chars : list (list Z)),
    (1 <= b)%nat -> (1 <= T)%nat ->
    tensor.shape3 encoder_seq_proj b T d ->
    length chars = b -> Forall (fun row => length row = T) chars ->
    tacotron.LSA.built self d ->
    tensor.shape2 query b d ->
    ((t = 0%Z \/
      exists c, tacotron.LSA.cumulative self = Some c /\
                tensor.shape2 c b T) ->
     exists scores self',
       tacotron.LSA.forward self encoder_seq_proj query t chars
       = py.Return (scores, self') /\
       tensor.shape2 (tacotron.LSA.weights scores) b T) /\
    (t <> 0%Z -> tacotron.LSA.cumulative self = None ->
     tacotron.LSA.forward self encoder_seq_proj query t chars
     = py.Raise (py.AttributeError
                   "'NoneType' object has no attribute 'unsqueeze'"%string)).
Proof.
  intros b T d self enc query t chars _ _ Henc Hcb Hcr Hbuilt Hq. split.
  - intros Hfit.
    destruct (@LSA_forward_shaped b T d enc chars Henc Hcb Hcr self query t
                Hbuilt Hq Hfit)
      as (scores & self' & loc & Hrun & _ & _ & Hw & _).
    exists scores, self'. split; assumption.
  - intros Ht Hc. unfold tacotron.LSA.forward.
    destruct (t =? 0)%Z eqn:E; [lia|]. rewrite Hc. reflexivity.
Qed.

Lemma LSA_forward_needs_first_step_witness :
  (exists scores self',
      tacotron.LSA.forward
        (tacotron.Decoder.attn_net (tacotron.tiny.decoder 1))
        [[[0]]]%R [[0]]%R 0 [[7%Z]]
      = py.Return (scores, self') /\
      tensor.shape2 (tacotron.LSA.weights scores) 1 1) /\
  tacotron.LSA.forward
    (tacotron.Decoder.attn_net (tacotron.tiny.decoder 1))
    [[[0]]]%R [[0]]%R 1 [[7%Z]]
  = py.Raise (py.AttributeError
                "'NoneType' object has no attribute 'unsqueeze'"%string).
Proof.
  assert (Hbuilt : tacotron.LSA.built
                     (tacotron.Decoder.attn_net (tacotron.tiny.decoder 1)) 1)
    by (intros e q l _ _ _; apply length_map).
  split.
  - apply (proj1 (@LSA_forward_needs_first_step
                    1 1 1 (tacotron.Decoder.attn_net (tacotron.tiny.decoder 1))
                    [[[0]]]%R [[0]]%R 0 [[7%Z]]
                    ltac:(lia) ltac:(lia)
                    ltac:(repeat constructor) eq_refl
                    ltac:(repeat constructor) Hbuilt
                    ltac:(repeat constructor))).
    left. reflexivity.
  - apply (proj2 (@LSA_forward_needs_first_step
                    1 1 1 (tacotron.Decoder.attn_net (tacotron.tiny.decoder 1))
                    [[[0]]]%R [[0]]%R 1 [[7%Z]]
                    ltac:(lia) ltac:(lia)
                    ltac:(repeat constructor) eq_refl
                    ltac:(repeat constructor) Hbuilt
                    ltac:(repeat constructor))); [lia|reflexivity].
Defined.

(** X23. A call of [LSA.forward] with step index 0 starts from fresh
    accumulators: what it returns and the state it leaves do not depend
    on the accumulators the module held before. *)
Theorem LSA_forward_step_zero_resets :
  forall (self1 self2 : tacotron.LSA.instance)
         (encoder_seq_proj : tensor.tensor3) (query : tensor.tensor2)
         (chars : list (list Z)),
    tacotron.LSA.energy self1 = tacotron.LSA.energy self2 ->
    tacotron.LSA.forward self1 encoder_seq_proj query 0 chars
    = tacotron.LSA.forward self2 encoder_seq_proj query 0 chars.
Proof.
  intros self1 self2 enc query chars He. unfold tacotron.LSA.forward.
  cbn. rewrite He. reflexivity.
Qed.

Lemma LSA_forward_step_zero_resets_witness :
  tacotron.LSA.forward
    {| tacotron.LSA.energy := fun _ _ _ => [0; 0]%R;
       tacotron.LSA.cumulative := Some [[3; 4]]%R;
       tacotron.LSA.attention := Some [[1; 0]]%R |}
    [[[0]; [0]]]%R [[0]]%R 0 [[7; 0]%Z]
  = tacotron.LSA.forward
      {| tacotron.LSA.energy := fun _ _ _ => [0; 0]%R;
         tacotron.LSA.cumulative := None;
         tacotron.LSA.attention := None |}
      [[[0]; [0]]]%R [[0]]%R 0 [[7; 0]%Z].
Proof.
  apply LSA_forward_step_zero_resets. reflexivity.
Defined.

(** X24. Every stop probability a decoder step returns lies strictly
    between 0 and 1. *)
Theorem Decoder_forward_stop_tokens_unit :
  forall (self : tacotron.Decoder.instance) (rng : tacotron.noise)
         (encoder_seq encoder_seq_proj : tensor.tensor3)
         (prenet_in : tensor.tensor2)
         (hidden_states : tacotron.Decoder.states)
         (cell_states : tacotron.Decoder.cells)
         (context_vec : tensor.tensor2) (t : Z) (chars : list (list Z))
         mels scores hs' cs' ctx' stop_tokens self',
    tacotron.Decoder.forward self rng encoder_seq encoder_seq_proj prenet_in
                             hidden_states cell_states context_vec t chars
    = py.Return ((mels, scores, hs', cs', ctx', stop_tokens), self') ->
    Forall (Forall (fun p => 0 < p < 1)%R) stop_tokens.
Proof.
  intros self rng enc encp prenet_in hs cs ctx t chars
         mels scores hs' cs' ctx' stop self' H.
  apply Decoder_forward_stop_spec in H. destruct H as [S ->].
  apply Forall_map, Forall_forall. intros s _.
  apply Forall_map, Forall_forall. intros v _. apply sigmoid_unit.
Qed.

Lemma Decoder_forward_stop_tokens_unit_witness :
  exists mels scores hs' cs' ctx' stop self',
    tacotron.Decoder.forward (tacotron.tiny.decoder 5) tacotron.tiny.quiet
      [[[0]]]%R [[[0]]]%R [[0]]%R ([[0]], [[0]], [[0]])%R ([[0]], [[0]])%R
      [[0]]%R 0 [[1%Z]]
    = py.Return ((mels, scores, hs', cs', ctx', stop), self') /\
    stop <> [] /\
    Forall (Forall (fun p => 0 < p < 1)%R) stop.
Proof.
  eexists _, _, _, _, _, _, _. split; [reflexivity|].
  split; [discriminate|].
  eapply (Decoder_forward_stop_tokens_unit
           (tacotron.tiny.decoder 5) tacotron.tiny.quiet
           [[[0]]]%R [[[0]]]%R [[0]]%R ([[0]], [[0]], [[0]])%R
           ([[0]], [[0]])%R [[0]]%R 0 [[1%Z]]).
  reflexivity.
Defined.

(** ** What [generate] returns *)

Section GenerateShapes.

Import tensor tacotron.

Lemma view3_returns_shape (m : tensor2) (b n k : nat) (v : tensor3) :
  view3 m b n k = py.Return v -> shape3 v b n k.
Proof.
  unfold view3. destruct (length (concat m) =? b * n * k) eqn:E;
    [|discriminate].
  intros H. injection H as <-. apply Nat.eqb_eq in E.
  rewrite <- Nat.mul_assoc in E.
  destruct (chunks_shape b (n * k) (concat m) E) as [Hlen Hchunks].
  split; [rewrite length_map; exact Hlen|].
  apply Forall_map. eapply Forall_impl; [|exact Hchunks].
  cbn. intros c Hc. apply chunks_shape. exact Hc.
Qed.

(** A decoder step that returns gives a frame group of the shape the
    view and the slice fix, and leaves [r] and [n_mels] as they were. *)
Lemma Decoder_forward_mels_spec self rng enc encp prenet_in hs cs ctx t chars
      mels scores hs' cs' ctx' stop self' :
  Decoder.forward self rng enc encp prenet_in hs cs ctx t chars
  = py.Return ((mels, scores, hs', cs', ctx', stop), self') ->
  (0 <= Decoder.r self)%Z ->
  shape3 mels (length enc) (Decoder.n_mels self)
         (Nat.min (Z.to_nat (Decoder.r self)) Decoder.max_r) /\
  Decoder.r self' = Decoder.r self /\
  Decoder.n_mels self' = Decoder.n_mels self.
Proof.
  destruct hs as [[attn_hidden rnn1_hidden] rnn2_hidden].
  destruct cs as [rnn1_cell rnn2_cell]. unfold Decoder.forward.
  match goal with
  | |- context [LSA.forward ?a ?e ?q ?i ?c] =>
      destruct (LSA.forward a e q i c) as [[sc a']|]
  end; cbn [py.bind]; [|discriminate].
  match goal with
  | |- context [view3 ?m ?b ?n ?k] =>
      destruct (view3 m b n k) as [v|] eqn:Ev
  end; cbn [py.bind]; [|discriminate].
  intros H Hr. injection H as <- _ _ _ _ _ <-.
  split; [|split; reflexivity].
  apply shape3_slice; [exact Hr|]. exact (view3_returns_shape _ _ _ _ Ev).
Qed.

Lemma generate_loop_shapes rng enc encp go_frame x ts :
  forall dec hs cs ctx mels0 attn0 stops0 mels attn stops dec',
    (0 <= Decoder.r dec)%Z ->
    Tacotron.generate_loop rng enc encp go_frame x ts dec hs cs ctx
                           mels0 attn0 stops0
    = py.Return (mels, attn, stops, dec') ->
    Forall (fun m => shape3 m (length enc) (Decoder.n_mels dec)
                            (Nat.min (Z.to_nat (Decoder.r dec))
                                     Decoder.max_r)) mels0 ->
    Forall (fun m => shape3 m (length enc) (Decoder.n_mels dec)
                            (Nat.min (Z.to_nat (Decoder.r dec))
                                     Decoder.max_r)) mels.
Proof.
  induction ts as [|t ts IH];
    intros dec hs cs ctx mels0 attn0 stops0 mels attn stops dec' Hr Hrun H0.
  - cbn in Hrun. injection Hrun as <- _ _ _. exact H0.
  - cbn [Tacotron.generate_loop] in Hrun.
    destruct (if (t >? 0)%Z then Tacotron.last_frame mels0
              else py.Return go_frame) as [prenet_in|]; [|discriminate].
    cbn [py.bind] in Hrun.
    destruct (Decoder.forward dec (rng t) enc encp prenet_in hs cs ctx t x)
      as [[[[[[[mel_frames scores] hs'] cs'] ctx'] stop] dec1]|] eqn:Ed;
      [|discriminate].
    cbn [py.bind] in Hrun.
    destruct (Decoder_forward_mels_spec _ _ _ _ _ _ _ _ _ _ Ed Hr)
      as (Hshape & Hr1 & Hn1).
    assert (H1 : Forall (fun m => shape3 m (length enc) (Decoder.n_mels dec)
                                         (Nat.min (Z.to_nat (Decoder.r dec))
                                                  Decoder.max_r))
                        (mels0 ++ [mel_frames])).
    { apply Forall_app. split; [exact H0|]. constructor; [exact Hshape|].
      constructor. }
    destruct (Tacotron.stop_condition stop t).
    + injection Hrun as <- _ _ _. exact H1.
    + rewrite <- Hr1, <- Hn1. rewrite <- Hr1, <- Hn1 in H1.
      eapply IH; [|exact Hrun|exact H1]. rewrite Hr1. exact Hr.
Qed.

(** Joining along the last axis adds the numbers of frames. *)
Lemma cat_dim2_shape (a c : tensor3) (b n j k : nat) :
  shape3 a b n j -> shape3 c b n k -> shape3 (cat_dim2 a c) b n (j + k).
Proof.
  intros [Ha Hra] [Hc Hrc]. unfold cat_dim2. split.
  - rewrite length_map2. unfold tensor3, tensor2, vec in *. lia.
  - eapply Forall_map2; [|exact Hra|exact Hrc].
    cbn. intros m1 m2 [Hm1 Hr1] [Hm2 Hr2]. split.
    + rewrite length_map2. unfold tensor2, vec in *. lia.
    + eapply Forall_map2; [|exact Hr1|exact Hr2].
      cbn. intros r1 r2 E1 E2. rewrite length_app. lia.
Qed.

Lemma fold_cat_dim2_shape (b n k : nat) (rest : list tensor3) :
  forall (a : tensor3) (j : nat),
    shape3 a b n j -> Forall (fun m => shape3 m b n k) rest ->
    shape3 (fold_left cat_dim2 rest a) b n (j + length rest * k).
Proof.
  induction rest as [|m rest IH]; intros a j Ha Hrest; cbn.
  - rewrite Nat.add_0_r. exact Ha.
  - inversion Hrest; subst.
    replace (j + (k + length rest * k))%nat
      with ((j + k) + length rest * k)%nat by lia.
    apply IH; [apply cat_dim2_shape|]; assumption.
Qed.

End GenerateShapes.

Section ShapedModelFacts.

Import tensor tacotron.
Local Open Scope R_scope.

Lemma shaped_well_formed self x spk T E D L :
  Tacotron.shaped self x spk T E D L -> (1 <= Tacotron.r self)%Z ->
  Tacotron.well_formed self x spk.
Proof.
  intros (_ & (_ & [Henc _] & _) & Hdec & _) Hr.
  split; [exact Hr|]. split; [exact (Decoder_built_mel_proj Hdec)|exact Henc].
Qed.

Lemma tiny_encoded (r : Z) (threshold : R) (x : list (list Z)) (T : nat) :
  Forall (fun row => length row = T) x ->
  Tacotron.encoded (tiny.model r threshold) x None T 1 1.
Proof.
  intros Hx. split; [exact Hx|]. split; [|split; [|reflexivity]].
  - split; [apply length_map|]. cbn. apply Forall_map.
    eapply Forall_impl; [|exact Hx]. cbn. intros row Hrow.
    split; [rewrite length_map; exact Hrow|].
    apply Forall_map, Forall_forall. intros c _. reflexivity.
  - repeat split; repeat constructor.
Qed.

Lemma tiny_full_model_shaped (r : Z) (x : list (list Z)) (T : nat) :
  (1 <= T)%nat -> Forall (fun row => length row = T) x ->
  Tacotron.shaped (tiny.full_model r) x None T 1 1 1.
Proof.
  intros HT Hx. split; [exact HT|].
  split; [exact (tiny_encoded r 0.5 Hx)|].
  split; [apply tiny_decoder_built|].
  repeat (split; [reflexivity|]).
  exists 1%nat. split; [repeat split; repeat constructor|].
  split; [reflexivity|].
  intros m frames _ [Hb Hm]. split; [cbn; rewrite length_map; exact Hb|].
  cbn. apply Forall_map. eapply Forall_impl; [|exact Hm].
  cbn. intros c [Hc Hrows].
  destruct c as [|row [|row' c]]; try discriminate.
  inversion Hrows as [|? ? Hrow _]; subst. cbn.
  split; [apply length_map|].
  apply Forall_map, Forall_forall. intros v _. reflexivity.
Qed.

End ShapedModelFacts.

(** X25. On characters the encoder accepts, with an output that fits
    the encoder projection, [generate] raises [ValueError] when the
    reduction factor is 0, and with a positive reduction factor and
    [steps <= 0] it runs no decoder step and raises the error of
    [torch.cat] on an empty list. *)
Theorem Tacotron_generate_no_steps :
  forall (self : tacotron.Tacotron.instance) (rng : Z -> tacotron.noise)
         (x : list (list Z)) (speaker_embedding : option tensor.tensor2)
         (steps : Z) (T E D : nat),
    tacotron.Tacotron.encoded self x speaker_embedding T E D ->
    (tacotron.Tacotron.r self = 0%Z ->
     tacotron.Tacotron.generate self rng x speaker_embedding steps
     = py.Raise (py.ValueError "range() arg 3 must not be zero"%string)) /\
    ((1 <= tacotron.Tacotron.r self)%Z -> (steps <= 0)%Z ->
     tacotron.Tacotron.generate self rng x speaker_embedding steps
     = py.Raise (py.ValueError
                   "torch.cat(): expected a non-empty list of Tensors"%string)).
Proof.
  intros self rng x spk steps T E D _. split.
  - intros Hr. unfold tacotron.Tacotron.generate, tacotron.Tacotron.decode.
    change (tacotron.Decoder.r
              (tacotron.Decoder.set_training (tacotron.Tacotron.decoder self)
                                             false))
      with (tacotron.Tacotron.r self).
    rewrite Hr. reflexivity.
  - intros Hr Hsteps.
    unfold tacotron.Tacotron.generate, tacotron.Tacotron.decode.
    change (tacotron.Decoder.r
              (tacotron.Decoder.set_training (tacotron.Tacotron.decoder self)
                                             false))
      with (tacotron.Tacotron.r self).
    destruct (range_from_zero steps Hr) as [-> Hlen].
    replace (py.range_len 0 steps (tacotron.Tacotron.r self)) with O by lia.
    reflexivity.
Qed.

Lemma Tacotron_generate_no_steps_witness :
  tacotron.Tacotron.generate (tacotron.tiny.model 0 0.5)
                             (fun _ => tacotron.tiny.quiet) [[1%Z]] None 2000
  = py.Raise (py.ValueError "range() arg 3 must not be zero"%string) /\
  tacotron.Tacotron.generate (tacotron.tiny.model 2 0.5)
                             (fun _ => tacotron.tiny.quiet) [[1%Z]] None 0
  = py.Raise (py.ValueError
                "torch.cat(): expected a non-empty list of Tensors"%string).
Proof.
  split.
  - apply (proj1 (@Tacotron_generate_no_steps
                    (tacotron.tiny.model 0 0.5)
                    (fun _ => tacotron.tiny.quiet) [[1%Z]] None 2000 1 1 1
                    (@tiny_encoded 0 0.5 [[1%Z]] 1
                       ltac:(repeat constructor)))).
    reflexivity.
  - apply (proj2 (@Tacotron_generate_no_steps
                    (tacotron.tiny.model 2 0.5)
                    (fun _ => tacotron.tiny.quiet) [[1%Z]] None 0 1 1 1
                    (@tiny_encoded 2 0.5 [[1%Z]] 1
                       ltac:(repeat constructor))));
      [cbn; lia|lia].
Defined.

(** X26. On a model [__init__] builds and an input that fits it, with
    at least one batch element, [r >= 1] and [steps >= 1], the decoder
    loop of [generate] runs [k] steps, between 1 and the length of
    [range(0, steps, r)], and [generate] returns a mel spectrogram of
    shape [(batch, n_mels, k * min r max_r)]. *)
Theorem Tacotron_generate_mel_shape :
  forall (self : tacotron.Tacotron.instance) (rng : Z -> tacotron.noise)
         (x : list (list Z)) (speaker_embedding : option tensor.tensor2)
         (steps : Z) (T E D L : nat),
    tacotron.Tacotron.shaped self x speaker_embedding T E D L ->
    (1 <= length x)%nat ->
    (1 <= tacotron.Tacotron.r self)%Z ->
    (1 <= steps)%Z ->
    exists res mel linear attn,
      tacotron.Tacotron.decode self rng x speaker_embedding steps
      = py.Return res /\
      tacotron.Tacotron.generate self rng x speaker_embedding steps
      = py.Return (mel, linear, attn) /\
      (1 <= tacotron.Tacotron.steps_run res
       <= py.range_len 0 steps (tacotron.Tacotron.r self))%nat /\
      tensor.shape3 mel (length x)
                    (tacotron.Decoder.n_mels (tacotron.Tacotron.decoder self))
                    (tacotron.Tacotron.steps_run res
                     * Nat.min (Z.to_nat (tacotron.Tacotron.r self))
                               tacotron.Decoder.max_r).
Proof.
  intros self rng x spk steps T E D L Hshaped _ Hr Hsteps.
  pose proof (shaped_well_formed Hshaped Hr) as Hwf.
  destruct (@Tacotron_generate_returns self rng x spk steps Hwf Hsteps)
    as [[[mel linear] attn] Hgen].
  destruct (decode_run rng steps Hwf)
    as (mels & attns & stops & dec' & toks & Hrun & Hlen & _ & _ & Hfirst).
  apply stopped_at_first_steps in Hfirst. destruct Hfirst as (Hle & _).
  assert (Hshapes :
            Forall (fun m => tensor.shape3 m (length x)
                      (tacotron.Decoder.n_mels (tacotron.Tacotron.decoder self))
                      (Nat.min (Z.to_nat (tacotron.Tacotron.r self))
                               tacotron.Decoder.max_r)) mels).
  { destruct Hwf as (_ & _ & Henc). pose proof Hrun as Hloop.
    unfold tacotron.Tacotron.decode in Hloop.
    destruct (py.range 0 steps
                (tacotron.Decoder.r
                   (tacotron.Decoder.set_training
                      (tacotron.Tacotron.decoder self) false)))
      as [ts|]; [|discriminate].
    cbn [py.bind] in Hloop. rewrite <- Henc.
    apply generate_loop_shapes in Hloop; [exact Hloop| |constructor].
    change (0 <= tacotron.Tacotron.r self)%Z. lia. }
  exists (mels, attns, stops, dec'), mel, linear, attn.
  split; [exact Hrun|]. split; [exact Hgen|].
  unfold tacotron.Tacotron.steps_run. cbn [fst].
  unfold tacotron.Tacotron.generate in Hgen. rewrite Hrun in Hgen.
  cbn [py.bind] in Hgen.
  destruct mels as [|m ms]; [discriminate|].
  cbn [tacotron.torch_cat py.bind] in Hgen.
  destruct attns as [|a attns]; [discriminate|].
  destruct stops as [|s stops]; [discriminate|].
  cbn [tacotron.torch_cat py.bind] in Hgen. injection Hgen as <- _ _.
  split; [cbn [length] in *; lia|].
  inversion Hshapes; subst. cbn [length].
  replace (S (length ms) * Nat.min (Z.to_nat (tacotron.Tacotron.r self))
                                   tacotron.Decoder.max_r)%nat
    with (Nat.min (Z.to_nat (tacotron.Tacotron.r self)) tacotron.Decoder.max_r
          + length ms * Nat.min (Z.to_nat (tacotron.Tacotron.r self))
                                tacotron.Decoder.max_r)%nat by lia.
  apply fold_cat_dim2_shape; assumption.
Qed.

Lemma Tacotron_generate_mel_shape_witness :
  exists res mel linear attn,
    tacotron.Tacotron.decode (tacotron.tiny.full_model 2)
                             (fun _ => tacotron.tiny.quiet) [[1%Z]] None 3
    = py.Return res /\
    tacotron.Tacotron.generate (tacotron.tiny.full_model 2)
                               (fun _ => tacotron.tiny.quiet) [[1%Z]] None 3
    = py.Return (mel, linear, attn) /\
    (1 <= tacotron.Tacotron.steps_run res <= py.range_len 0 3 2)%nat /\
    tensor.shape3 mel 1 1 (tacotron.Tacotron.steps_run res * 2).
Proof.
  apply (@Tacotron_generate_mel_shape
           (tacotron.tiny.full_model 2) (fun _ => tacotron.tiny.quiet)
           [[1%Z]] None 3 1 1 1 1).
  - apply tiny_full_model_shaped; [lia|repeat constructor].
  - cbn. lia.
  - cbn. lia.
  - lia.
Defined.

(** ** The window of recent values *)

Section ValueWindowFacts.

Import torch_utils.

Lemma appended_window_size (xs : list Q) :
  forall self,
    ValueWindow._window_size (ValueWindow.appended self xs)
    = ValueWindow._window_size self.
Proof.
  unfold ValueWindow.appended.
  induction xs as [|x xs IH]; intros self; [reflexivity|].
  cbn [fold_left]. rewrite IH. reflexivity.
Qed.

Lemma appended_snoc (self : ValueWindow.instance) (xs : list Q) (x : Q) :
  ValueWindow.appended self (xs ++ [x])
  = ValueWindow.append (ValueWindow.appended self xs) x.
Proof. unfold ValueWindow.appended. rewrite fold_left_app. reflexivity. Qed.

Lemma skipn_snoc (k : nat) (l : list Q) (x : Q) :
  (k <= length l)%nat -> skipn k (l ++ [x]) = skipn k l ++ [x].
Proof.
  intros Hk. rewrite skipn_app.
  replace (k - length l)%nat with O by lia. reflexivity.
Qed.

End ValueWindowFacts.

(** X27. The values a fresh [ValueWindow] holds after a sequence of
    [append] calls: with [window_size >= 2] the last [window_size] of
    them; with [window_size = 1] all of them, the window is never
    trimmed; with [window_size <= 0] the last one only. *)
Theorem ValueWindow_append_keeps :
  forall (window_size : Z) (xs : list Q),
    torch_utils.ValueWindow._values
      (torch_utils.ValueWindow.appended
         (torch_utils.ValueWindow.__init__ window_size) xs)
    = if (2 <=? window_size)%Z
      then skipn (length xs - Z.to_nat window_size) xs
      else if (window_size =? 1)%Z then xs
           else skipn (length xs - 1) xs.
Proof.
  intros w xs. induction xs as [|x xs IH] using rev_ind.
  - cbn. destruct (2 <=? w)%Z; [|destruct (w =? 1)%Z]; reflexivity.
  - rewrite appended_snoc. unfold torch_utils.ValueWindow.append.
    cbn [torch_utils.ValueWindow._values]. rewrite appended_window_size.
    cbn [torch_utils.ValueWindow.__init__
           torch_utils.ValueWindow._window_size].
    rewrite IH. clear IH. unfold torch_utils.slice_from.
    rewrite length_app. cbn [length].
    destruct (2 <=? w)%Z eqn:E2.
    + apply Z.leb_le in E2.
      destruct (- (w - 1) <? 0)%Z eqn:Ek; [|lia].
      rewrite skipn_skipn, length_skipn, skipn_snoc by lia.
      f_equal. f_equal. lia.
    + apply Z.leb_gt in E2. destruct (w =? 1)%Z eqn:E1.
      * apply Z.eqb_eq in E1. subst w. reflexivity.
      * apply Z.eqb_neq in E1.
        destruct (- (w - 1) <? 0)%Z eqn:Ek; [lia|].
        rewrite skipn_skipn, skipn_snoc by lia.
        rewrite (skipn_all2 (n := Z.to_nat (- (w - 1)) + (length xs - 1)))
          by lia.
        replace (length xs + 1 - 1)%nat with (length xs) by lia.
        rewrite skipn_all. reflexivity.
Qed.

Example ValueWindow_of_size_one_grows :
  torch_utils.ValueWindow.count
    (torch_utils.ValueWindow.appended
       (torch_utils.ValueWindow.__init__ 1) [1; 2; 3]%Q)
  = 3%Z.
Proof. reflexivity. Qed.

(** ** The highway layer *)

Section HighwayFacts.

Import tensor tacotron.
Local Open Scope R_scope.

Lemma nth_error_map2 {A B C : Type} (f : A -> B -> C) :
  forall l1 l2 i y,
    nth_error (map2 f l1 l2) i = Some y ->
    exists a b, nth_error l1 i = Some a /\ nth_error l2 i = Some b /\
                y = f a b.
Proof.
  induction l1 as [|a l1 IH]; intros l2 i y H.
  - destruct i; discriminate.
  - destruct l2 as [|b l2]; [destruct i; discriminate|].
    destruct i as [|i]; cbn in H.
    + injection H as <-. exists a, b. repeat split.
    + apply IH in H. exact H.
Qed.

Lemma nth_error_map3 {A B C D : Type} (f : A -> B -> C -> D) l1 l2 l3 i y :
  nth_error (map3 f l1 l2 l3) i = Some y ->
  exists a b c, nth_error l1 i = Some a /\ nth_error l2 i = Some b /\
                nth_error l3 i = Some c /\ y = f a b c.
Proof.
  unfold map3. intros H. apply nth_error_map2 in H.
  destruct H as ([a b] & c & Hab & Hc & ->).
  assert (G : forall (l1 : list A) (l2 : list B) i a b,
             nth_error (combine l1 l2) i = Some (a, b) ->
             nth_error l1 i = Some a /\ nth_error l2 i = Some b).
  { clear. induction l1 as [|u l1 IH]; intros l2 i a b H.
    - destruct i; discriminate.
    - destruct l2 as [|v l2]; [destruct i; discriminate|].
      destruct i as [|i]; cbn in H.
      + injection H as <- <-. split; reflexivity.
      + exact (IH l2 i a b H). }
  apply G in Hab. destruct Hab as [Ha Hb].
  exists a, b, c. repeat split; assumption.
Qed.

Lemma convex_between (g a c : R) :
  0 < g < 1 -> Rmin a c <= g * a + (1 - g) * c <= Rmax a c.
Proof.
  intros Hg. unfold Rmin, Rmax. destruct (Rle_dec a c); split; nra.
Qed.

End HighwayFacts.

(** X28. Every output of [HighwayNetwork.forward] lies between the
    input at its position and the rectified first projection at that
    position: the gate mixes the two with a weight strictly between 0
    and 1. *)
Theorem HighwayNetwork_forward_between :
  forall (self : tacotron.HighwayNetwork.instance) (x : tensor.vec)
         (i : nat) (y : R),
    nth_error (tacotron.HighwayNetwork.forward self x) i = Some y ->
    exists a c,
      nth_error (tacotron.Linear.forward
                   (tacotron.HighwayNetwork.W1 self) x) i = Some a /\
      nth_error x i = Some c /\
      (Rmin (tacotron.relu a) c <= y <= Rmax (tacotron.relu a) c)%R.
Proof.
  intros self x i y H. unfold tacotron.HighwayNetwork.forward in H.
  apply nth_error_map3 in H. destruct H as (g & a & c & Hg & Ha & Hc & ->).
  exists a, c. split; [exact Ha|]. split; [exact Hc|].
  apply convex_between.
  apply nth_error_In, in_map_iff in Hg. destruct Hg as (v & <- & _).
  apply sigmoid_unit.
Qed.

Lemma HighwayNetwork_forward_between_witness :
  let layer := {| tacotron.Linear.weight := [[0]]%R;
                  tacotron.Linear.bias := Some [0]%R |} in
  let self := {| tacotron.HighwayNetwork.W1 := layer;
                 tacotron.HighwayNetwork.W2 := layer |} in
  exists y a c,
    nth_error (tacotron.HighwayNetwork.forward self [2]%R) 0 = Some y /\
    nth_error (tacotron.Linear.forward layer [2]%R) 0 = Some a /\
    nth_error [2]%R 0 = Some c /\
    (Rmin (tacotron.relu a) c <= y <= Rmax (tacotron.relu a) c)%R.
Proof.
  intros layer self.
  set (y := (tensor.sigmoid (0 * 2 + 0 + 0) * tacotron.relu (0 * 2 + 0 + 0)
             + (1 - tensor.sigmoid (0 * 2 + 0 + 0)) * 2)%R).
  destruct (@HighwayNetwork_forward_between self [2]%R 0%nat y eq_refl)
    as (a & c & Ha & Hc & Hy).
  exists y, a, c. split; [reflexivity|].
  split; [exact Ha|]. split; [exact Hc|exact Hy].
Defined.

(** ** The speaker embedding *)

Section SpeakerEmbeddingFacts.

Import tensor tacotron.
Local Open Scope R_scope.

Lemma length_repeat_interleave (n : nat) (e : vec) :
  length (Encoder.repeat_interleave n e) = (length e * n)%nat.
Proof.
  unfold Encoder.repeat_interleave.
  induction e as [|v e IH]; [reflexivity|].
  cbn. rewrite length_app, repeat_length, IH. reflexivity.
Qed.

(** Cutting a concatenation of rows of one length gives the rows back. *)
Lemma chunks_concat {A : Type} (k : nat) (rows : list (list A)) :
  Forall (fun row => length row = k) rows ->
  chunks (length rows) k (concat rows) = rows.
Proof.
  induction 1 as [|row rows Hrow _ IH]; [reflexivity|].
  cbn [length chunks concat].
  rewrite firstn_app, skipn_app, Hrow, Nat.sub_diag.
  rewrite firstn_all2, skipn_all2 by lia. cbn [firstn skipn app].
  rewrite app_nil_r, IH. reflexivity.
Qed.

Lemma chunks_repeat_interleave (n : nat) (e : vec) :
  chunks (length e) n (Encoder.repeat_interleave n e)
  = map (fun v => repeat v n) e.
Proof.
  unfold Encoder.repeat_interleave. rewrite flat_map_concat_map.
  rewrite <- (length_map (fun v => repeat v n) e) at 1.
  apply chunks_concat. apply Forall_map, Forall_forall.
  intros v _. apply repeat_length.
Qed.

Lemma map_seq_constant {B : Type} (f : nat -> B) (c : B) (n : nat) :
  forall a, (forall j, (a <= j < a + n)%nat -> f j = c) ->
            map f (seq a n) = repeat c n.
Proof.
  induction n as [|n IH]; intros a Hf; [reflexivity|].
  cbn. rewrite Hf by lia. f_equal. apply IH. intros j Hj. apply Hf. lia.
Qed.

(** Transposing the rows [v, ..., v], one per entry [v] of [e], gives
    [n] copies of [e]. *)
Lemma transpose_tiles (n : nat) (e : vec) :
  map (fun j => map (fun row => nth j row 0) (map (fun v => repeat v n) e))
      (seq 0 n)
  = repeat e n.
Proof.
  apply map_seq_constant. intros j Hj. rewrite map_map.
  rewrite <- (map_id e) at 2. apply map_ext. intros v.
  apply nth_repeat_lt. lia.
Qed.

Lemma map2_app_repeat (e : vec) (m : tensor2) :
  map2 (@app R) m (repeat e (length m)) = map (fun frame => frame ++ e) m.
Proof.
  unfold map2. induction m as [|frame m IH]; [reflexivity|].
  cbn. rewrite IH. reflexivity.
Qed.

Lemma cat_dim2_tiles (n : nat) (x : tensor3) :
  Forall (fun m => length m = n) x ->
  forall e : tensor2,
    cat_dim2 x (map (fun ei => repeat ei n) e)
    = map2 (fun m ei => map (fun frame => frame ++ ei) m) x e.
Proof.
  unfold cat_dim2.
  induction 1 as [|m x Hm _ IH]; intros e; [reflexivity|].
  destruct e as [|ei e]; [reflexivity|].
  change (map2 (map2 (@app R)) (m :: x)
               (map (fun ei => repeat ei n) (ei :: e)))
    with (map2 (@app R) m (repeat ei n)
          :: map2 (map2 (@app R)) x (map (fun ei => repeat ei n) e)).
  rewrite IH, <- Hm, map2_app_repeat. reflexivity.
Qed.

(** The reshaped and transposed embedding: [n] copies of each row. *)
Lemma reshape_tiles (b s n : nat) (e : tensor2) :
  length e = b -> Forall (fun row => length row = s) e ->
  view3 (map (Encoder.repeat_interleave n) e) b s n
  = py.Return (map (fun ei => map (fun v => repeat v n) ei) e).
Proof.
  intros Hb Hrows. subst b. unfold view3.
  assert (Hlen : Forall (fun row : vec => length row = (s * n)%nat)
                        (map (Encoder.repeat_interleave n) e)).
  { apply Forall_map. eapply Forall_impl; [|exact Hrows].
    cbn. intros row Hrow. rewrite length_repeat_interleave, Hrow.
    reflexivity. }
  pose proof (length_concat_rows Hlen) as Hflat.
  rewrite length_map in Hflat.
  replace (length (concat (map (Encoder.repeat_interleave n) e))
           =? length e * s * n) with true
    by (symmetry; apply Nat.eqb_eq; rewrite <- Nat.mul_assoc; exact Hflat).
  f_equal.
  pose proof (chunks_concat Hlen) as Hc. rewrite length_map in Hc.
  rewrite Hc, map_map.
  apply map_ext_in. intros ei Hei.
  rewrite Forall_forall in Hrows. rewrite <- (Hrows ei Hei).
  apply chunks_repeat_interleave.
Qed.

End SpeakerEmbeddingFacts.

(** X29. [add_speaker_embedding] appends to every frame of a batch
    element the speaker embedding of that element: with a 2-D embedding
    of one row per batch element and, for a batch of one element, with a
    1-D embedding. A 1-D embedding that is not empty is refused with the
    [RuntimeError] of [reshape] when the batch holds two or more
    non-empty elements. *)
Theorem add_speaker_embedding_tiles :
  forall (x : tensor.tensor3) (b n d : nat),
    tensor.shape3 x b n d ->
    (forall (e : tensor.tensor2) (s : nat),
        length e = b -> Forall (fun row => length row = s) e ->
        tacotron.Encoder.add_speaker_embedding x (tacotron.Encoder.dim2 e)
        = py.Return (tensor.map2
                       (fun m ei => map (fun frame => frame ++ ei) m) x e)) /\
    (forall e : tensor.vec,
        b = 1%nat ->
        tacotron.Encoder.add_speaker_embedding x (tacotron.Encoder.dim1 e)
        = py.Return (map (map (fun frame => frame ++ e)) x)) /\
    (forall e : tensor.vec,
        (2 <= b)%nat -> (1 <= n)%nat -> e <> [] ->
        tacotron.Encoder.add_speaker_embedding x (tacotron.Encoder.dim1 e)
        = py.Raise (py.RuntimeError "shape is invalid for input size"%string)).
Proof.
  intros x b n d [Hb Hx].
  assert (Hrows : Forall (fun m : tensor.tensor2 => length m = n) x).
  { eapply Forall_impl; [|exact Hx]. cbn. intros m [Hm _]. exact Hm. }
  assert (Hn : forall m x', x = m :: x' -> length m = n).
  { intros m x' ->. inversion Hrows; subst. reflexivity. }
  split; [|split].
  - intros e s He Hs. unfold tacotron.Encoder.add_speaker_embedding.
    destruct x as [|m x'].
    + cbn in Hb. subst b. destruct e; [reflexivity|discriminate].
    + rewrite (Hn m x' eq_refl).
      destruct e as [|row e']; [cbn in He, Hb; lia|].
      assert (Hrow : length row = s) by (inversion Hs; assumption).
      rewrite Hrow, Hb.
      rewrite (reshape_tiles n He Hs). cbn [py.bind].
      unfold tacotron.Encoder.transpose12. rewrite map_map.
      rewrite (map_ext _ (fun ei => repeat ei n))
        by (intros ei; apply transpose_tiles).
      rewrite (cat_dim2_tiles Hrows). reflexivity.
  - intros e ->. unfold tacotron.Encoder.add_speaker_embedding.
    destruct x as [|m [|m' x']]; try discriminate.
    rewrite (Hn m [] eq_refl).
    pose proof (@reshape_tiles 1 (length e) n [e] eq_refl
                  ltac:(constructor; [reflexivity|constructor])) as Hv.
    cbn [map length] in Hv |- *. rewrite Hv. cbn [py.bind].
    unfold tacotron.Encoder.transpose12. cbn [map].
    rewrite transpose_tiles.
    pose proof (@cat_dim2_tiles n [m] Hrows [e]) as Hc.
    cbn [map] in Hc. f_equal. exact Hc.
  - intros e Hb2 Hn1 He. unfold tacotron.Encoder.add_speaker_embedding.
    destruct x as [|m x']; [cbn in Hb; lia|].
    rewrite (Hn m x' eq_refl), Hb. unfold tensor.view3.
    cbn [concat]. rewrite app_nil_r, length_repeat_interleave.
    destruct (length e * n =? b * length e * n) eqn:E; [|reflexivity].
    apply Nat.eqb_eq in E.
    assert (1 <= length e)%nat by (destruct e; [contradiction|cbn; lia]).
    nia.
Qed.

Lemma add_speaker_embedding_tiles_witness :
  tacotron.Encoder.add_speaker_embedding
    [[[1]; [2]]; [[3]; [4]]]%R
    (tacotron.Encoder.dim2 [[10; 11]; [20; 21]]%R)
  = py.Return [[[1; 10; 11]; [2; 10; 11]]; [[3; 20; 21]; [4; 20; 21]]]%R.
Proof.
  apply (proj1 (@add_speaker_embedding_tiles
                  [[[1]; [2]]; [[3]; [4]]]%R 2 2 1
                  ltac:(repeat constructor))
               [[10; 11]; [20; 21]]%R 2%nat eq_refl
               ltac:(repeat constructor)).
Defined.

(** ** The training pass *)

Section ForwardFacts.

Import tensor tacotron.

Lemma item_at_in_range {A : Type} (l : list A) (k : Z) :
  (0 <= k < Z.of_nat (length l))%Z ->
  exists a, Tacotron.item_at l k = py.Return a.
Proof.
  intros Hk. unfold Tacotron.item_at.
  assert (E : (k <? 0)%Z = false) by lia. rewrite E. cbv zeta. rewrite E.
  destruct (nth_error l (Z.to_nat k)) eqn:En; [eexists; reflexivity|].
  apply nth_error_None in En. lia.
Qed.

(** A frame of a spectrogram of [b] batch elements, read at a position
    all its rows have, holds [b] batch elements. *)
Lemma frame_at_length (m : tensor3) (b steps : nat) (k : Z) :
  length m = b ->
  Forall (Forall (fun row => length row = steps)) m ->
  (0 <= k < Z.of_nat steps)%Z ->
  exists frame, Tacotron.frame_at m k = py.Return frame /\ length frame = b.
Proof.
  intros Hb Hm Hk. unfold Tacotron.frame_at.
  destruct (@comprehension_Forall2 _ _
              (py.comprehension (fun row : vec => Tacotron.item_at row k))
              (fun _ _ => True) m)
    as (frame & Hframe & Hall).
  { eapply Forall_impl; [|exact Hm]. cbn. intros c Hc.
    destruct (@comprehension_Forall2 _ _
                (fun row : vec => Tacotron.item_at row k)
                (fun _ _ => True) c)
      as (v & Hv & _).
    - eapply Forall_impl; [|exact Hc]. cbn. intros row Hrow.
      destruct (@item_at_in_range R row k) as [a Ha]; [lia|].
      exists a. split; [exact Ha|exact I].
    - exists v. split; [exact Hv|exact I]. }
  exists frame. split; [exact Hframe|].
  apply Forall2_length in Hall. rewrite <- Hb. symmetry. exact Hall.
Qed.

Variable rng : Z -> noise.
Variables enc encp : tensor3.
Variable go_frame : tensor2.
Variable x : list (list Z).
Variable m : tensor3.
Variables b steps : nat.
Variable r0 : Z.
Variable sp : Linear.instance.
Variable n : nat.

Hypothesis enc_batch : length enc = b.
Hypothesis encp_batch : length encp = b.
Hypothesis go_batch : length go_frame = b.
Hypothesis x_batch : length x = b.
Hypothesis m_batch : length m = b.
Hypothesis m_rows : Forall (Forall (fun row => length row = steps)) m.
Hypothesis r_pos : (1 <= r0)%Z.

(** The loop of [forward] runs one decoder step for every value of its
    range. *)
Lemma forward_loop_run ts :
  forall dec hs cs ctx mels0 attn0 stops0,
    Forall (fun t => (t <= Z.of_nat steps)%Z) ts ->
    Tacotron.same_decoder r0 sp n dec ->
    Tacotron.state_of b hs cs ctx ->
    match ts with
    | [] => True
    | t :: _ => Decoder.attention_fits dec b t
    end ->
    Forall (fun g => shape3 g b n (Nat.min (Z.to_nat r0) Decoder.max_r))
           mels0 ->
    exists mels attn stops dec',
      Tacotron.forward_loop rng enc encp go_frame x m ts dec hs cs ctx
                            mels0 attn0 stops0
      = py.Return (mels, attn, stops, dec') /\
      length mels = (length mels0 + length ts)%nat /\
      length attn = (length attn0 + length ts)%nat /\
      length stops = (length stops0 + length ts * Z.to_nat r0)%nat /\
      Forall (fun g => shape3 g b n (Nat.min (Z.to_nat r0) Decoder.max_r))
             mels.
Proof.
  induction ts as [|t ts IH];
    intros dec hs cs ctx mels0 attn0 stops0 Hts Hdec Hst Hfit Hshapes.
  - exists mels0, attn0, stops0, dec. cbn.
    repeat split; try lia. exact Hshapes.
  - destruct Hdec as (Hr & Hsp & Hn & Hmel).
    inversion Hts as [|t' ts' Ht Hts']; subst t' ts'.
    cbn [Tacotron.forward_loop].
    assert (Hin : exists prenet_in,
               (if (t >? 0)%Z then Tacotron.frame_at m (t - 1)
                else py.Return go_frame) = py.Return prenet_in /\
               length prenet_in = b).
    { destruct (t >? 0)%Z eqn:E.
      - apply (frame_at_length m_batch m_rows). lia.
      - exists go_frame. split; [reflexivity|exact go_batch]. }
    destruct Hin as (prenet_in & -> & Hp). cbn [py.bind].
    destruct Hst as (H1 & H2 & H3 & H4 & H5 & H6).
    destruct (@Decoder_forward_shapes dec (rng t) enc encp prenet_in hs cs ctx
                t x b)
      as (mel_frames & scores & hs' & cs' & ctx' & stop & dec' & Hfw & Hshape
          & _ & Hst' & HS & a & c & Hdec' & Hc & Hcl).
    { repeat split; assumption. }
    { exact Hmel. }
    { exact Hfit. }
    { lia. }
    rewrite Hfw. cbn [py.bind].
    assert (Hdr : Decoder.r dec' = r0) by (subst dec'; exact Hr).
    rewrite Hdr. rewrite Hn, Hr in Hshape.
    destruct (IH dec' hs' cs' ctx' (mels0 ++ [mel_frames])
                (attn0 ++ [scores])
                (stops0 ++ repeat stop (Z.to_nat r0)))
      as (mels & attn & stops & dec'' & Hrun & Hlm & Hla & Hls & Hsh).
    { exact Hts'. }
    { subst dec'. apply same_decoder_set_attn_net.
      exact (conj Hr (conj Hsp (conj Hn Hmel))). }
    { exact Hst'. }
    { destruct ts; [exact I|]. right. exists c. subst dec'.
      split; assumption. }
    { apply Forall_app. split; [exact Hshapes|].
      constructor; [exact Hshape|constructor]. }
    exists mels, attn, stops, dec''. split; [exact Hrun|].
    rewrite !length_app, repeat_length in *. cbn [length] in *.
    repeat split; try lia. exact Hsh.
Qed.

End ForwardFacts.

Section ForwardRange.

Import tensor tacotron.

(** Every value of [range(0, steps, r)] lies below [steps], and the
    range is not empty when [steps >= 1]. *)
Lemma range_values_below (steps r : Z) :
  (1 <= r)%Z ->
  Forall (fun t => (t <= Z.max 0 steps)%Z)
         (map (fun i => (Z.of_nat i * r)%Z)
              (seq 0 (py.range_len 0 steps r))) /\
  ((1 <= steps)%Z -> (1 <= py.range_len 0 steps r)%nat).
Proof.
  intros Hr. unfold py.range_len.
  destruct (r >? 0)%Z eqn:E; [|lia].
  replace (steps - 0 + r - 1)%Z with (steps + r - 1)%Z by lia.
  pose proof (Z.mul_div_le (steps + r - 1) r ltac:(lia)) as Hle.
  split.
  - apply Forall_map, Forall_forall. intros i Hi.
    apply in_seq in Hi.
    destruct (Z.le_gt_cases ((steps + r - 1) / r) 0) as [H0|H0]; [lia|].
    assert (Z.of_nat i + 1 <= (steps + r - 1) / r)%Z by lia. nia.
  - intros Hs.
    assert (1 <= (steps + r - 1) / r)%Z by (apply Z.div_le_lower_bound; lia).
    lia.
Qed.

End ForwardRange.

(** X30. On a model [__init__] builds and an input that fits it, with
    [r >= 1] and a target spectrogram of [n_mels] channels and at least
    one frame for every batch element, [forward] returns. Its loop never
    stops early: the mel spectrogram it returns has
    [len(range(0, steps, r)) * min r max_r] frames of [n_mels] channels
    per batch element, and the step counter of the module has grown by
    one. *)
Theorem Tacotron_forward_runs_all_steps :
  forall (self : tacotron.Tacotron.instance) (rng : Z -> tacotron.noise)
         (x : list (list Z)) (m : tensor.tensor3)
         (speaker_embedding : option tensor.tensor2) (T E D L : nat),
    tacotron.Tacotron.shaped self x speaker_embedding T E D L ->
    (1 <= tacotron.Tacotron.r self)%Z ->
    tensor.shape3 m (length x)
                  (tacotron.Decoder.n_mels (tacotron.Tacotron.decoder self))
                  (tacotron.Tacotron.size2 m) ->
    (1 <= tacotron.Tacotron.size2 m)%nat ->
    exists mel linear attn stops self',
      tacotron.Tacotron.forward self rng x m speaker_embedding
      = py.Return ((mel, linear, attn, stops), self') /\
      tensor.shape3
        mel (length x)
        (tacotron.Decoder.n_mels (tacotron.Tacotron.decoder self))
        (py.range_len 0 (Z.of_nat (tacotron.Tacotron.size2 m))
                      (tacotron.Tacotron.r self)
         * Nat.min (Z.to_nat (tacotron.Tacotron.r self))
                   tacotron.Decoder.max_r) /\
      tacotron.Tacotron.step self' = (tacotron.Tacotron.step self + 1)%Z.
Proof.
  intros self rng x m spk T E D L Hshaped Hr0 [Hmb Hm] Hsteps.
  destruct (shaped_well_formed Hshaped Hr0) as (Hr & Hmel & Henc).
  unfold tacotron.Tacotron.forward.
  destruct (range_from_zero (Z.of_nat (tacotron.Tacotron.size2 m)) Hr)
    as [-> _].
  cbn [py.bind].
  destruct (range_values_below (Z.of_nat (tacotron.Tacotron.size2 m)) Hr)
    as [Hbelow Hlen].
  specialize (Hlen ltac:(lia)).
  set (len := py.range_len 0 (Z.of_nat (tacotron.Tacotron.size2 m))
                           (tacotron.Tacotron.r self)) in *.
  set (ts := map (fun i => (Z.of_nat i * tacotron.Tacotron.r self)%Z)
                 (seq 0 len)) in *.
  assert (Hts : length ts = len)
    by (subst ts; rewrite length_map, length_seq; reflexivity).
  destruct (@forward_loop_run rng
              (tacotron.Tacotron.encoder self x spk)
              (map (map (tacotron.Linear.forward
                           (tacotron.Tacotron.encoder_proj self)))
                   (tacotron.Tacotron.encoder self x spk))
              (tensor.zeros2 (length m) (tacotron.Tacotron.n_mels self))
              x m (length x) (tacotron.Tacotron.size2 m)
              (tacotron.Tacotron.r self)
              (tacotron.Decoder.stop_proj (tacotron.Tacotron.decoder self))
              (tacotron.Decoder.n_mels (tacotron.Tacotron.decoder self))
              Henc ltac:(rewrite length_map; exact Henc)
              ltac:(rewrite length_zeros2; exact Hmb) eq_refl Hmb
              ltac:(eapply Forall_impl; [|exact Hm];
                    cbn; intros c Hc; exact (proj2 Hc))
              Hr ts
              (tacotron.Tacotron.decoder self)
              (tensor.zeros2 (length m) (tacotron.Tacotron.decoder_dims self),
               tensor.zeros2 (length m) (tacotron.Tacotron.lstm_dims self),
               tensor.zeros2 (length m) (tacotron.Tacotron.lstm_dims self))
              (tensor.zeros2 (length m) (tacotron.Tacotron.lstm_dims self),
               tensor.zeros2 (length m) (tacotron.Tacotron.lstm_dims self))
              (tensor.zeros2 (length m)
                 (tacotron.Tacotron.encoder_dims self
                  + tacotron.Tacotron.speaker_embedding_size self))
              [] [] [])
    as (mels & attn & stops & dec' & Hrun & Hlm & Hla & Hls & Hsh).
  { eapply Forall_impl; [|exact Hbelow]. cbn. intros t Ht. lia. }
  { repeat split; try reflexivity; apply Hmel. }
  { unfold tacotron.Tacotron.state_of. cbn [fst snd].
    rewrite !length_zeros2. repeat split; exact Hmb. }
  { subst ts. destruct len; [exact I|]. left. reflexivity. }
  { constructor. }
  rewrite Hrun. cbn [py.bind]. cbn [length] in Hlm, Hla, Hls.
  rewrite Hts in Hlm, Hla, Hls.
  destruct mels as [|g mels]; [cbn in Hlm; lia|].
  destruct attn as [|a attn]; [cbn in Hla; lia|].
  destruct stops as [|s stops]; [cbn in Hls; nia|].
  cbn [tacotron.torch_cat py.bind].
  eexists _, _, _, _, _. split; [reflexivity|].
  split; [|reflexivity].
  inversion Hsh; subst. cbn [length] in Hlm.
  replace (len * Nat.min (Z.to_nat (tacotron.Tacotron.r self))
                         tacotron.Decoder.max_r)%nat
    with (Nat.min (Z.to_nat (tacotron.Tacotron.r self)) tacotron.Decoder.max_r
          + length mels * Nat.min (Z.to_nat (tacotron.Tacotron.r self))
                                  tacotron.Decoder.max_r)%nat by nia.
  apply fold_cat_dim2_shape; assumption.
Qed.

Lemma Tacotron_forward_runs_all_steps_witness :
  exists mel linear attn stops self',
    tacotron.Tacotron.forward (tacotron.tiny.full_model 2)
                              (fun _ => tacotron.tiny.quiet)
                              [[1%Z]] [[[0; 0; 0]]]%R None
    = py.Return ((mel, linear, attn, stops), self') /\
    tensor.shape3 mel 1 1 (py.range_len 0 3 2 * 2) /\
    tacotron.Tacotron.step self' = 1%Z.
Proof.
  apply (@Tacotron_forward_runs_all_steps
           (tacotron.tiny.full_model 2) (fun _ => tacotron.tiny.quiet)
           [[1%Z]] [[[0; 0; 0]]]%R None 1 1 1 1).
  - apply tiny_full_model_shaped; [lia|repeat constructor].
  - cbn. lia.
  - repeat constructor.
  - cbn. lia.
Defined.
